(** * ContextGraph OS: decision commitment and policy enforcement pipeline

    A shallow embedding of the TypeScript sources

      - core/identity/content-address.ts  (canonicalize, computeContentAddress)
      - policy/schema.ts                  (PolicyDefinition, isPolicyActive)
      - policy/evaluator.ts               (PolicyEvaluator)
      - decision/lifecycle.ts             (DecisionStateMachine)
      - approval.ts, the approval workflow (ApprovalQueue)
      - safety/conflict-resolver.ts       (ConflictResolver)
      - policy/enforcement.ts             (PolicyEnforcer)
      - escalation.ts, the escalation pathways (EscalationManager)

    followed by the properties of the specification that concern them.

    Conventions of the embedding.
      - A [Promise] that resolves is its value; a thrown exception (or a
        rejected promise) is the [Err] branch of [Result].
      - Every [new Date().toISOString()] of the source is an explicit
        timestamp argument of the embedded function, in source order; a
        clock that a loop reads once per round is a function from the
        number of earlier readings. Making a [Date] of a number that is not
        a time value and calling [toISOString] on it throws.
      - A JS [Map] whose iteration order is never observed by the embedded
        methods is a [gmap]; one whose order is observed is an insertion
        ordered association list.
      - What the platform provides (number formatting, [JSON.stringify] on
        strings, the [crypto] digests, [Date] parsing) is the interface
        [JSRuntime]; nothing is assumed about it. *)

From Stdlib Require Import ZArith List Permutation Sorted Ascii DecimalString.
From stdpp Require Import gmap strings list sorting.

Open Scope string_scope.
Set Warnings "-register-all".

(** ** Results of fallible calls *)

Inductive Result (E A : Type) : Type :=
| Ok (a : A)
| Err (e : E).
Arguments Ok {E A} a.
Arguments Err {E A} e.

Definition isOk {E A} (r : Result E A) : bool :=
  match r with Ok _ => true | Err _ => false end.

(** ** Methods of a stateful object

    A method of an object with private state [S] is a function from the
    state before the call to the returned value (or the exception thrown)
    and the state after it. Mutations made before a [throw] persist, as they
    do in JS, so that "a failed call changes nothing" is a property to be
    proved of each method and not a by-product of the encoding. *)

Definition Prog (S E A : Type) : Type := S -> Result E A * S.

Definition ret {S E A} (a : A) : Prog S E A := fun s => (Ok a, s).

Definition throw {S E A} (e : E) : Prog S E A := fun s => (Err e, s).

Definition bind {S E A B} (m : Prog S E A) (k : A -> Prog S E B) : Prog S E B :=
  fun s =>
    match m s with
    | (Ok a, s') => k a s'
    | (Err e, s') => (Err e, s')
    end.

Definition try_catch {S E A} (body : Prog S E A) (handler : E -> Prog S E A) : Prog S E A :=
  fun s =>
    match body s with
    | (Ok a, s') => (Ok a, s')
    | (Err e, s') => handler e s'
    end.

Notation "'let!' x ':=' m 'in' k" := (bind m (fun x => k))
  (at level 10, x name, m at level 100, k at level 200).
Notation "m ';;;' k" := (bind m (fun _ => k))
  (at level 100, k at level 200, right associativity).

(** ** The platform *)

Inductive HashAlgorithmValue := SHA256 | SHA384 | SHA512.

Definition HashAlgorithm_name (a : HashAlgorithmValue) : string :=
  match a with
  | SHA256 => "sha256"
  | SHA384 => "sha384"
  | SHA512 => "sha512"
  end.

Class JSRuntime := {
  (** the JS [number] type of payload values, with [String(n)], and the
      number whose value is a given integer *)
  number : Type;
  String_of_number : number -> string;
  number_of_Z : Z -> number;
  (** [JSON.stringify(s)] for a string [s] *)
  JSON_stringify_string : string -> string;
  (** [a.localeCompare(b)] *)
  String_localeCompare : string -> string -> Z;
  (** [createHash(alg).update(s, 'utf8').digest('hex')] *)
  digest_hex : HashAlgorithmValue -> string -> string;
  (** [new Date(s).getTime()]; [None] is [NaN] *)
  Date_getTime : string -> option Z;
  (** [new Date(ms).toISOString()] *)
  Date_toISOString : Z -> string
}.

(** ** Generic list helpers standing for the JS array methods used *)

(** [Array.prototype.sort(cmp)]: a stable sort; [x] stays before [y] unless
    [cmp x y > 0]. *)
Fixpoint sort_insert {A} (cmp : A -> A -> Z) (x : A) (l : list A) : list A :=
  match l with
  | [] => [x]
  | y :: ys => if (cmp x y <=? 0)%Z then x :: y :: ys else y :: sort_insert cmp x ys
  end.

Fixpoint array_sort {A} (cmp : A -> A -> Z) (l : list A) : list A :=
  match l with
  | [] => []
  | x :: xs => sort_insert cmp x (array_sort cmp xs)
  end.

(** The order a comparator stands for: [x] may stay before [y]. *)
Definition before {A} (cmp : A -> A -> Z) (x y : A) : Prop := (cmp x y <= 0)%Z.

(** ** Strings

    A string is held as the UTF-8 bytes of its text. JavaScript counts and
    orders strings by their UTF-16 code units. A character of one, two or
    three bytes is one code unit, and one of four bytes is two, a surrogate
    pair; a byte from 128 to 191 continues a character. *)
Definition code_units_of (byte : ascii) : nat :=
  let n := nat_of_ascii byte in
  if (n <? 128)%nat then 1%nat
  else if (n <? 192)%nat then 0%nat
  else if (n <? 240)%nat then 1%nat
  else 2%nat.

(** [s.length] *)
Fixpoint String_length (s : string) : nat :=
  match s with
  | EmptyString => 0%nat
  | String byte rest => (code_units_of byte + String_length rest)%nat
  end.

(** The order of the code units is the order of the bytes, but for the
    characters from U+E000 to U+FFFF: their lead bytes, 238 and 239, come
    after the lead bytes 240 to 244 of the characters of four bytes, as their
    code units come after the surrogates. [code_unit_rank] moves the two
    bytes to 254 and 255, which no text holds. *)
Definition code_unit_rank (byte : ascii) : ascii :=
  match N_of_ascii byte with
  | 238%N => ascii_of_N 254
  | 239%N => ascii_of_N 255
  | 254%N => ascii_of_N 238
  | 255%N => ascii_of_N 239
  | _ => byte
  end.

Fixpoint code_unit_key (s : string) : string :=
  match s with
  | EmptyString => EmptyString
  | String byte rest => String (code_unit_rank byte) (code_unit_key rest)
  end.

(** The comparison of two strings by code units: that of [a < b] and of the
    default comparator of [sort()]. *)
Definition code_unit_compare (a b : string) : comparison :=
  String.compare (code_unit_key a) (code_unit_key b).

(** The default comparator of [sort()] on strings: code unit order. *)
Definition default_compare (a b : string) : Z :=
  match code_unit_compare a b with
  | Lt => (-1)%Z
  | Eq => 0%Z
  | Gt => 1%Z
  end.

(** [Array.prototype.find] *)
Fixpoint array_find {A} (p : A -> bool) (l : list A) : option A :=
  match l with
  | [] => None
  | x :: xs => if p x then Some x else array_find p xs
  end.

(** [Array.prototype.includes] on strings *)
Definition includes (l : list string) (x : string) : bool :=
  existsb (String.eqb x) l.

(** ** JS numbers

    A number that a configuration or an input gives, as the embedded code
    looks at it: [Fractional below] is a number strictly between the
    integers [below] and [below + 1]. *)
Inductive JSNumber :=
| Integer (z : Z)
| Fractional (below : Z)
| NaN
| Infinity
| MinusInfinity.

(** Truthiness of a number: 0 and [NaN] are falsy. *)
Definition number_truthy (n : JSNumber) : bool :=
  match n with
  | Integer z => negb (z =? 0)%Z
  | NaN => false
  | _ => true
  end.

(** The first [n] characters of a string. *)
Fixpoint slice_to (n : nat) (s : string) : string :=
  match n, s with
  | S n', String x rest => String x (slice_to n' rest)
  | _, _ => EmptyString
  end.

(** The end index of [s.slice(0, n)] for an integer [n] and a string of
    length [len]: a negative [n] counts from the end. *)
Definition slice_end_Z (n : Z) (len : nat) : nat :=
  if (n <? 0)%Z then Z.to_nat (Z.of_nat len + n) else Nat.min (Z.to_nat n) len.

(** The end index of [s.slice(0, n)]: [n] is first truncated towards zero,
    [NaN] to 0. *)
Definition slice_end (n : JSNumber) (len : nat) : nat :=
  match n with
  | Integer z => slice_end_Z z len
  | Fractional below => slice_end_Z (if (below <? 0)%Z then below + 1 else below) len
  | NaN => 0
  | Infinity => len
  | MinusInfinity => 0
  end.

(** [s.slice(0, n)] for a string of one-unit characters, as a digest in
    hexadecimal is. *)
Definition String_slice (s : string) (n : JSNumber) : string :=
  slice_to (slice_end n (String.length s)) s.

(** ** Lengths of time

    A JS number that an input or a configuration gives as a length of time,
    in milliseconds or in hours: a whole number, [NaN], or an infinity. The
    sources add it to [Date.now()] and make a [Date] of the sum. For whole
    numbers that sum is exact whenever it is the time value of a valid date,
    and beyond the range of dates otherwise. Lengths with a fraction, which
    the sum rounds and the [Date] truncates, are not modelled. *)
Inductive Duration :=
| Whole (n : Z)
| NotANumber
| Endless (negative : bool).

(** Truthiness of a length of time: 0 and [NaN] are falsy. *)
Definition duration_truthy (d : Duration) : bool :=
  match d with
  | Whole n => negb (n =? 0)%Z
  | NotANumber => false
  | Endless _ => true
  end.

(** [hours * 60 * 60 * 1000] *)
Definition hours_to_ms (hours : Duration) : Duration :=
  match hours with
  | Whole n => Whole (n * 60 * 60 * 1000)
  | other => other
  end.

(** The time values of a valid [Date] lie within 8.64e15 ms of the epoch. *)
Definition maxTimeValue : Z := 8640000000000000.

(** The time value of [new Date(nowMs + d)]: [None] for an invalid date, on
    which [toISOString] throws a [RangeError]. *)
Definition time_after (nowMs : Z) (d : Duration) : option Z :=
  match d with
  | Whole n => if (Z.abs (nowMs + n) <=? maxTimeValue)%Z then Some (nowMs + n)%Z else None
  | NotANumber | Endless _ => None
  end.

(** Property lookup [obj[key]] on a record kept as an association list. *)
Fixpoint assoc_get {V} (key : string) (fields : list (string * V)) : option V :=
  match fields with
  | [] => None
  | (k, v) :: rest => if String.eqb k key then Some v else assoc_get key rest
  end.

(** ** Enumerations ([as const] objects and union types of the sources) *)

Module EnforcementMode.
Inductive t := BLOCK | ANNOTATE | ESCALATE | SHADOW.
Definition name (e : t) : string :=
  match e with
  | BLOCK => "BLOCK" | ANNOTATE => "ANNOTATE" | ESCALATE => "ESCALATE" | SHADOW => "SHADOW"
  end.
Definition eqb (a b : t) : bool :=
  match a, b with
  | BLOCK, BLOCK | ANNOTATE, ANNOTATE | ESCALATE, ESCALATE | SHADOW, SHADOW => true
  | _, _ => false
  end.
End EnforcementMode.
Abbreviation EnforcementModeValue := EnforcementMode.t.

Module RuleFormat.
Inductive t := JAVASCRIPT | JSON_LOGIC | REGO | CUSTOM | EXPRESSION.
Definition name (f : t) : string :=
  match f with
  | JAVASCRIPT => "javascript" | JSON_LOGIC => "json-logic" | REGO => "rego"
  | CUSTOM => "custom" | EXPRESSION => "expression"
  end.
End RuleFormat.
Abbreviation RuleFormatValue := RuleFormat.t.

Module PolicyScope.
Inductive t := GLOBAL | DECISION_TYPE | ACTOR | CONTEXT | ARTIFACT | CUSTOM.
Definition name (s : t) : string :=
  match s with
  | GLOBAL => "GLOBAL" | DECISION_TYPE => "DECISION_TYPE" | ACTOR => "ACTOR"
  | CONTEXT => "CONTEXT" | ARTIFACT => "ARTIFACT" | CUSTOM => "CUSTOM"
  end.
Definition is_GLOBAL (s : t) : bool :=
  match s with GLOBAL => true | _ => false end.
End PolicyScope.
Abbreviation PolicyScopeValue := PolicyScope.t.

Module PolicyStatus.
Inductive t := DRAFT | ACTIVE | SUSPENDED | DEPRECATED | SUPERSEDED.
Definition name (s : t) : string :=
  match s with
  | DRAFT => "DRAFT" | ACTIVE => "ACTIVE" | SUSPENDED => "SUSPENDED"
  | DEPRECATED => "DEPRECATED" | SUPERSEDED => "SUPERSEDED"
  end.
Definition is_ACTIVE (s : t) : bool :=
  match s with ACTIVE => true | _ => false end.
End PolicyStatus.
Abbreviation PolicyStatusValue := PolicyStatus.t.

Module VerdictResult.
Inductive t := ALLOW | DENY | ESCALATE | ANNOTATE.
Definition name (r : t) : string :=
  match r with
  | ALLOW => "ALLOW" | DENY => "DENY" | ESCALATE => "ESCALATE" | ANNOTATE => "ANNOTATE"
  end.
End VerdictResult.
Abbreviation VerdictResultValue := VerdictResult.t.

Module DecisionState.
Inductive t := PROPOSED | EVALUATED | COMMITTED | REJECTED | PENDING_APPROVAL | CANCELLED.
Definition name (s : t) : string :=
  match s with
  | PROPOSED => "PROPOSED" | EVALUATED => "EVALUATED" | COMMITTED => "COMMITTED"
  | REJECTED => "REJECTED" | PENDING_APPROVAL => "PENDING_APPROVAL"
  | CANCELLED => "CANCELLED"
  end.
Definition eqb (a b : t) : bool :=
  match a, b with
  | PROPOSED, PROPOSED | EVALUATED, EVALUATED | COMMITTED, COMMITTED
  | REJECTED, REJECTED | PENDING_APPROVAL, PENDING_APPROVAL | CANCELLED, CANCELLED => true
  | _, _ => false
  end.
End DecisionState.
Abbreviation DecisionStateValue := DecisionState.t.

Module ApprovalStatus.
Inductive t := PENDING | IN_REVIEW | APPROVED | REJECTED | TIMED_OUT | WITHDRAWN.
Definition name (s : t) : string :=
  match s with
  | PENDING => "PENDING" | IN_REVIEW => "IN_REVIEW" | APPROVED => "APPROVED"
  | REJECTED => "REJECTED" | TIMED_OUT => "TIMED_OUT" | WITHDRAWN => "WITHDRAWN"
  end.
End ApprovalStatus.
Abbreviation ApprovalStatusValue := ApprovalStatus.t.

Module ApprovalPriority.
Inductive t := LOW | NORMAL | HIGH | CRITICAL.
End ApprovalPriority.
Abbreviation ApprovalPriorityValue := ApprovalPriority.t.

Module ConflictType.
Inductive t := CONTRADICTION | OVERLAP | CIRCULAR | AMBIGUOUS_PRIORITY | RESOURCE_CONTENTION.
Definition name (c : t) : string :=
  match c with
  | CONTRADICTION => "CONTRADICTION" | OVERLAP => "OVERLAP" | CIRCULAR => "CIRCULAR"
  | AMBIGUOUS_PRIORITY => "AMBIGUOUS_PRIORITY"
  | RESOURCE_CONTENTION => "RESOURCE_CONTENTION"
  end.
Definition eqb (a b : t) : bool :=
  match a, b with
  | CONTRADICTION, CONTRADICTION | OVERLAP, OVERLAP | CIRCULAR, CIRCULAR
  | AMBIGUOUS_PRIORITY, AMBIGUOUS_PRIORITY
  | RESOURCE_CONTENTION, RESOURCE_CONTENTION => true
  | _, _ => false
  end.
End ConflictType.
Abbreviation ConflictTypeValue := ConflictType.t.

Module ResolutionStrategy.
Inductive t :=
  MOST_SPECIFIC | MOST_RESTRICTIVE | MOST_PERMISSIVE | PRIORITY | NEWEST | ESCALATE | CUSTOM.
End ResolutionStrategy.
Abbreviation ResolutionStrategyValue := ResolutionStrategy.t.

Abbreviation ContentAddress := string.
Abbreviation Timestamp := string.

Section ContentAddress.
Context `{RT : JSRuntime}.

(** ** core/identity/content-address.ts *)

(** JS values as [canonicalize] distinguishes them.  [JObject] keeps the own
    enumerable properties in insertion order; [JOther] is any value of
    another type (function, symbol, bigint), carried by its [String(value)]. *)
Inductive JSValue : Type :=
| JNull
| JUndefined
| JString (s : string)
| JNumber (n : number)
| JBool (b : bool)
| JArray (items : list JSValue)
| JObject (fields : list (string * JSValue))
| JOther (repr : string).

Record ContentAddressConfig := {
  algorithm : HashAlgorithmValue;
  truncateLength : option JSNumber
}.

Definition DEFAULT_HASH_ALGORITHM : HashAlgorithmValue := SHA256.

Definition DEFAULT_CONFIG : ContentAddressConfig :=
  {| algorithm := DEFAULT_HASH_ALGORITHM; truncateLength := None |}.

Definition Object_keys {V} (fields : list (string * V)) : list string :=
  map fst fields.

(** [canonicalize(obj[key])] read off the already rendered properties; an
    absent property is [undefined], rendered ["null"]. *)
Definition rendered_get (key : string) (rendered : list (string * string)) : string :=
  match assoc_get key rendered with
  | Some s => s
  | None => "null"
  end.

Fixpoint canonicalize (value : JSValue) : string :=
  match value with
  | JNull | JUndefined => "null"
  | JString s => JSON_stringify_string s
  | JNumber n => String_of_number n
  | JBool b => if b then "true" else "false"
  | JArray items => "[" +:+ String.concat "," (map canonicalize items) +:+ "]"
  | JObject fields =>
      let rendered := map (fun kv => let '(k, v) := kv in (k, canonicalize v)) fields in
      let keys := array_sort default_compare (Object_keys fields) in
      let pairs :=
        map (fun key => JSON_stringify_string key +:+ ":" +:+ rendered_get key rendered) keys in
      "{" +:+ String.concat "," pairs +:+ "}"
  | JOther repr => repr
  end.

(** [truncateLength ? hash.slice(0, truncateLength) : hash] *)
Definition truncated (truncateLength : option JSNumber) (hash : string) : string :=
  match truncateLength with
  | Some n => if number_truthy n then String_slice hash n else hash
  | None => hash
  end.

Definition computeContentAddress_with (content : JSValue) (config : ContentAddressConfig)
  : ContentAddress :=
  let canonical := canonicalize content in
  let hash := digest_hex (algorithm config) canonical in
  let finalHash := truncated (truncateLength config) hash in
  HashAlgorithm_name (algorithm config) +:+ ":" +:+ finalHash.

Definition computeContentAddress (content : JSValue) : ContentAddress :=
  computeContentAddress_with content DEFAULT_CONFIG.

End ContentAddress.

Section PolicySchema.
Context `{RT : JSRuntime}.

(** ** policy/schema.ts *)

Definition JSRecord := list (string * JSValue).

Record PolicyScopeDefinition := {
  scope_type : PolicyScopeValue;
  scope_pattern : option string;
  scope_targetIds : option (list ContentAddress);
  scope_conditions : option JSRecord
}.

Record ActivationWindow := {
  activatesAt : Timestamp;
  expiresAt : option Timestamp;
  timezone : option string
}.

Record PolicyRuleExample := {
  example_description : string;
  example_input : JSRecord;
  expectedResult : bool
}.

Record PolicyRule := {
  rule_format : RuleFormatValue;
  rule_expression : string;
  rule_explanation : option string;
  passingExamples : option (list PolicyRuleExample);
  failingExamples : option (list PolicyRuleExample)
}.

(** [policy.metadata], with the two properties the conflict resolver reads
    typed as it casts them ([priority as number], [createdAt as string]);
    priorities are integers. *)
Record PolicyMetadata := {
  meta_priority : option Z;
  meta_createdAt : option string;
  meta_other : JSRecord
}.

(** [policy_id] is the [id] property that the conflict resolver and the
    linter read on the policy objects they receive; schema.ts does not
    declare it, so it may be absent ([undefined]). *)
Record PolicyDefinition := {
  policy_id : option ContentAddress;
  policy_name : string;
  policy_description : string;
  policy_scope : PolicyScopeDefinition;
  policy_rule : PolicyRule;
  policy_enforcement : EnforcementModeValue;
  policy_version : string;
  policy_status : PolicyStatusValue;
  policy_activation : ActivationWindow;
  policy_tags : option (list string);
  policy_priority : option number;
  policy_supersedesId : option ContentAddress;
  policy_metadata : option PolicyMetadata
}.

Record EvaluationDecision := {
  ctx_decision_id : ContentAddress;
  ctx_decision_type : string;
  ctx_decision_action : JSRecord
}.

Record EvaluationActor := {
  ctx_actor_id : ContentAddress;
  ctx_actor_type : string;
  ctx_actor_authorities : list string
}.

Record PolicyEvaluationContext := {
  ctx_decision : EvaluationDecision;
  ctx_actor : EvaluationActor;
  ctx_contexts : list (ContentAddress * JSValue);
  ctx_timestamp : Timestamp;
  ctx_extra : option JSRecord
}.

(** Optional properties are own properties only when present. *)
Definition opt_field {A} (key : string) (f : A -> JSValue) (o : option A) : JSRecord :=
  match o with
  | Some a => [(key, f a)]
  | None => []
  end.

Definition JStrings (l : list string) : JSValue := JArray (map JString l).

Definition PolicyRuleExample_toJS (e : PolicyRuleExample) : JSValue :=
  JObject [("description", JString (example_description e));
           ("input", JObject (example_input e));
           ("expectedResult", JBool (expectedResult e))].

Definition PolicyMetadata_toJS (m : PolicyMetadata) : JSValue :=
  JObject (opt_field "priority" (fun z => JNumber (number_of_Z z)) (meta_priority m) ++
           opt_field "createdAt" JString (meta_createdAt m) ++
           meta_other m).

Definition PolicyDefinition_toJS (p : PolicyDefinition) : JSValue :=
  let s := policy_scope p in
  let r := policy_rule p in
  let a := policy_activation p in
  JObject (
    opt_field "id" JString (policy_id p) ++
    [("name", JString (policy_name p));
     ("description", JString (policy_description p));
     ("scope", JObject (
        [("type", JString (PolicyScope.name (scope_type s)))] ++
        opt_field "pattern" JString (scope_pattern s) ++
        opt_field "targetIds" JStrings (scope_targetIds s) ++
        opt_field "conditions" JObject (scope_conditions s)));
     ("rule", JObject (
        [("format", JString (RuleFormat.name (rule_format r)));
         ("expression", JString (rule_expression r))] ++
        opt_field "explanation" JString (rule_explanation r) ++
        opt_field "passingExamples"
          (fun l => JArray (map PolicyRuleExample_toJS l)) (passingExamples r) ++
        opt_field "failingExamples"
          (fun l => JArray (map PolicyRuleExample_toJS l)) (failingExamples r)));
     ("enforcement", JString (EnforcementMode.name (policy_enforcement p)));
     ("version", JString (policy_version p));
     ("status", JString (PolicyStatus.name (policy_status p)));
     ("activation", JObject (
        [("activatesAt", JString (activatesAt a))] ++
        opt_field "expiresAt" JString (expiresAt a) ++
        opt_field "timezone" JString (timezone a)))] ++
    opt_field "tags" JStrings (policy_tags p) ++
    opt_field "priority" JNumber (policy_priority p) ++
    opt_field "supersedesId" JString (policy_supersedesId p) ++
    opt_field "metadata" PolicyMetadata_toJS (policy_metadata p)).

(** Comparisons of [getTime()] results: any comparison with [NaN] is false. *)
Definition time_lt (a b : option Z) : bool :=
  match a, b with
  | Some x, Some y => (x <? y)%Z
  | _, _ => false
  end.

Definition time_ge (a b : option Z) : bool :=
  match a, b with
  | Some x, Some y => (y <=? x)%Z
  | _, _ => false
  end.

Definition isPolicyActive (policy : PolicyDefinition) (asOf : Timestamp) : bool :=
  if negb (PolicyStatus.is_ACTIVE (policy_status policy)) then false
  else
    let activationTime := Date_getTime (activatesAt (policy_activation policy)) in
    let asOfTime := Date_getTime asOf in
    if time_lt asOfTime activationTime then false
    else
      match expiresAt (policy_activation policy) with
      | Some expires =>
          (* [if (policy.activation.expiresAt)]: the empty string is falsy *)
          if String.eqb expires EmptyString then true
          else
            let expiryTime := Date_getTime expires in
            if time_ge asOfTime expiryTime then false else true
      | None => true
      end.

End PolicySchema.

(** A result together with the calls made to [registry.evaluate] on the way,
    as (format, expression), oldest first. *)
Record Traced (A : Type) := {
  outcome : A;
  dispatched : list (RuleFormatValue * string)
}.
Arguments outcome {A} _.
Arguments dispatched {A} _.

Section PolicyEvaluator.
Context `{RT : JSRuntime}.

(** ** policy/evaluator.ts *)

Inductive Severity := Sev_info | Sev_warning | Sev_error | Sev_critical.

Definition Severity_name (s : Severity) : string :=
  match s with
  | Sev_info => "info" | Sev_warning => "warning"
  | Sev_error => "error" | Sev_critical => "critical"
  end.

Record PolicyViolation := {
  violation_policyId : ContentAddress;
  violation_message : string;
  violation_severity : Severity
}.

Record PolicyVerdictResult := {
  passed : bool;
  enforcement : EnforcementModeValue;
  explanation : string;
  annotations : list string;
  error : option string
}.

Record PolicyVerdictEntry := {
  entry_policyId : ContentAddress;
  entry_policyName : string;
  entry_policyVersion : string;
  entry_verdict : PolicyVerdictResult
}.

Record DecisionVerdict := {
  verdict_id : ContentAddress;
  verdict_decisionId : ContentAddress;
  verdict_result : VerdictResultValue;
  verdict_scope : string;
  policyResults : list PolicyVerdictEntry;
  blockingPolicies : list ContentAddress;
  escalatingPolicies : list ContentAddress;
  verdict_annotations : list string;
  violations : list PolicyViolation;
  verdict_evaluatedAt : Timestamp;
  evaluationTimeMs : number
}.

(** What a rule evaluator may throw, as the [catch] block of
    [evaluatePolicy] reads it: an [Error] whose [message] is a string, or a
    value of another kind that [String(error)] converts. The block can throw
    in turn: [String(error)] does for an object without [toString], as
    [Object.create(null)], and the template literal of the explanation does
    for an [Error] whose [message] is a Symbol. [ThrownUnprintable raised] is
    such a value, and [raised] what the conversion throws. *)
Inductive Thrown :=
| ThrownError (message : string)
| ThrownValue (shown : string)
| ThrownUnprintable (raised : Thrown).

(** [error instanceof Error ? error.message : String(error)], as the
    template literal converts it. *)
Definition errorMessage_of (thrown : Thrown) : Result Thrown string :=
  match thrown with
  | ThrownError message => Ok message
  | ThrownValue shown => Ok shown
  | ThrownUnprintable raised => Err raised
  end.

Definition RuleEvaluator := string -> PolicyEvaluationContext -> Result Thrown bool.

(** The [RuleEvaluatorRegistry] interface as the engine uses it. *)
Record RuleEvaluatorRegistry := {
  registry_get : RuleFormatValue -> option RuleEvaluator;
  registry_evaluate : RuleFormatValue -> string -> PolicyEvaluationContext -> Result Thrown bool
}.

(** The registry object of [createRuleEvaluatorRegistry], over its map
    [evaluators] of registered formats. *)
Definition createRuleEvaluatorRegistry (evaluators : RuleFormatValue -> option RuleEvaluator)
  : RuleEvaluatorRegistry :=
  {| registry_get := evaluators;
     registry_evaluate := fun format expression context =>
       match evaluators format with
       | None =>
           Err (ThrownError ("No evaluator registered for format: " +:+ RuleFormat.name format))
       | Some evaluator => evaluator expression context
       end |}.

(** The promise of [evaluatePolicy]: the result it resolves to, or what it
    rejects with when the [catch] block throws. *)
Definition evaluatePolicy (registry : RuleEvaluatorRegistry)
  (policy : PolicyDefinition) (context : PolicyEvaluationContext)
  : Traced (Result Thrown PolicyVerdictResult) :=
  if negb (isPolicyActive policy (ctx_timestamp context)) then
    {| outcome := Ok {| passed := true;
                        enforcement := policy_enforcement policy;
                        explanation := "Policy not active at evaluation time";
                        annotations := [];
                        error := None |};
       dispatched := [] |}
  else
    let rule := policy_rule policy in
    {| dispatched := [(rule_format rule, rule_expression rule)];
       outcome :=
         match registry_evaluate registry (rule_format rule) (rule_expression rule) context with
         | Ok true =>
             Ok {| passed := true;
                   enforcement := policy_enforcement policy;
                   explanation := default "Policy passed" (rule_explanation rule);
                   annotations := [];
                   error := None |}
         | Ok false =>
             Ok {| passed := false;
                   enforcement := policy_enforcement policy;
                   explanation :=
                     default ("Policy '" +:+ policy_name policy +:+ "' violated")
                             (rule_explanation rule);
                   annotations := ["POLICY_VIOLATION:" +:+ policy_name policy];
                   error := None |}
         | Err thrown =>
             match errorMessage_of thrown with
             | Err raised => Err raised
             | Ok errorMessage =>
                 Ok {| passed := false;
                       enforcement := EnforcementMode.BLOCK;
                       explanation := "Error evaluating policy: " +:+ errorMessage;
                       annotations := ["POLICY_ERROR:" +:+ policy_name policy];
                       error := Some errorMessage |}
             end
         end |}.

Definition PolicyVerdictResult_toJS (v : PolicyVerdictResult) : JSValue :=
  JObject (
    [("passed", JBool (passed v));
     ("enforcement", JString (EnforcementMode.name (enforcement v)));
     ("explanation", JString (explanation v));
     ("annotations", JStrings (annotations v))] ++
    opt_field "error" JString (error v)).

Definition PolicyVerdictEntry_toJS (e : PolicyVerdictEntry) : JSValue :=
  JObject [("policyId", JString (entry_policyId e));
           ("policyName", JString (entry_policyName e));
           ("policyVersion", JString (entry_policyVersion e));
           ("verdict", PolicyVerdictResult_toJS (entry_verdict e))].

Definition PolicyViolation_toJS (v : PolicyViolation) : JSValue :=
  JObject [("policyId", JString (violation_policyId v));
           ("message", JString (violation_message v));
           ("severity", JString (Severity_name (violation_severity v)))].

(** The four arrays the loop of [evaluateAll] pushes to. *)
Record EvaluateAllLoop := {
  loop_policyResults : list PolicyVerdictEntry;
  loop_blockingPolicies : list ContentAddress;
  loop_escalatingPolicies : list ContentAddress;
  loop_allAnnotations : list string
}.

Definition evaluateAll_init : EvaluateAllLoop :=
  {| loop_policyResults := []; loop_blockingPolicies := [];
     loop_escalatingPolicies := []; loop_allAnnotations := [] |}.

(** One iteration of [for (const policy of policies)]: the arrays after it,
    or what the awaited [evaluatePolicy] rejected with. *)
Definition evaluateAll_body (registry : RuleEvaluatorRegistry)
  (context : PolicyEvaluationContext) (st : EvaluateAllLoop) (policy : PolicyDefinition)
  : Traced (Result Thrown EvaluateAllLoop) :=
  let policyId := computeContentAddress (PolicyDefinition_toJS policy) in
  let evaluation := evaluatePolicy registry policy context in
  {| dispatched := dispatched evaluation;
     outcome :=
       match outcome evaluation with
       | Err raised => Err raised
       | Ok verdict =>
           let failedWith (e : EnforcementModeValue) :=
             negb (passed verdict) && EnforcementMode.eqb (enforcement verdict) e in
           Ok {| loop_policyResults :=
                   loop_policyResults st ++
                   [{| entry_policyId := policyId;
                       entry_policyName := policy_name policy;
                       entry_policyVersion := policy_version policy;
                       entry_verdict := verdict |}];
                 loop_allAnnotations := loop_allAnnotations st ++ annotations verdict;
                 loop_blockingPolicies :=
                   if failedWith EnforcementMode.BLOCK
                   then loop_blockingPolicies st ++ [policyId] else loop_blockingPolicies st;
                 loop_escalatingPolicies :=
                   if failedWith EnforcementMode.ESCALATE
                   then loop_escalatingPolicies st ++ [policyId]
                   else loop_escalatingPolicies st |}
       end |}.

(** The loop over [policies] from a state of the arrays: it goes on to the
    next policy unless [evaluatePolicy] rejects, which ends [evaluateAll]. *)
Fixpoint evaluateAll_for (registry : RuleEvaluatorRegistry)
  (context : PolicyEvaluationContext) (policies : list PolicyDefinition)
  (st : EvaluateAllLoop) : Traced (Result Thrown EvaluateAllLoop) :=
  match policies with
  | [] => {| outcome := Ok st; dispatched := [] |}
  | policy :: rest =>
      let iteration := evaluateAll_body registry context st policy in
      match outcome iteration with
      | Err raised => {| outcome := Err raised; dispatched := dispatched iteration |}
      | Ok st' =>
          let later := evaluateAll_for registry context rest st' in
          {| outcome := outcome later;
             dispatched := dispatched iteration ++ dispatched later |}
      end
  end.

Definition isEmpty {A} (l : list A) : bool :=
  match l with [] => true | _ => false end.

(** [evaluatedAt] is the [new Date().toISOString()] taken after the loop and
    [elapsedMs] the value of [Date.now() - startTime]. *)
Definition evaluateAll (registry : RuleEvaluatorRegistry)
  (policies : list PolicyDefinition) (context : PolicyEvaluationContext)
  (evaluatedAt : Timestamp) (elapsedMs : number) : Traced (Result Thrown DecisionVerdict) :=
  let loop := evaluateAll_for registry context policies evaluateAll_init in
  {| dispatched := dispatched loop;
     outcome :=
       match outcome loop with
       | Err raised => Err raised
       | Ok st =>
           let result :=
             if negb (isEmpty (loop_blockingPolicies st)) then VerdictResult.DENY
             else if negb (isEmpty (loop_escalatingPolicies st)) then VerdictResult.ESCALATE
             else if negb (isEmpty (loop_allAnnotations st)) then VerdictResult.ANNOTATE
             else VerdictResult.ALLOW in
           let violations :=
             map (fun pr =>
                    {| violation_policyId := entry_policyId pr;
                       violation_message := explanation (entry_verdict pr);
                       violation_severity :=
                         if EnforcementMode.eqb (enforcement (entry_verdict pr))
                              EnforcementMode.BLOCK
                         then Sev_critical else Sev_warning |})
                 (List.filter (fun pr => negb (passed (entry_verdict pr)))
                    (loop_policyResults st)) in
           let verdictData :=
             JObject [("decisionId", JString (ctx_decision_id (ctx_decision context)));
                      ("result", JString (VerdictResult.name result));
                      ("scope", JString (ctx_decision_type (ctx_decision context)));
                      ("policyResults",
                       JArray (map PolicyVerdictEntry_toJS (loop_policyResults st)));
                      ("blockingPolicies", JStrings (loop_blockingPolicies st));
                      ("escalatingPolicies", JStrings (loop_escalatingPolicies st));
                      ("annotations", JStrings (loop_allAnnotations st));
                      ("violations", JArray (map PolicyViolation_toJS violations));
                      ("evaluatedAt", JString evaluatedAt);
                      ("evaluationTimeMs", JNumber elapsedMs)] in
           Ok {| verdict_id := computeContentAddress verdictData;
                 verdict_decisionId := ctx_decision_id (ctx_decision context);
                 verdict_result := result;
                 verdict_scope := ctx_decision_type (ctx_decision context);
                 policyResults := loop_policyResults st;
                 blockingPolicies := loop_blockingPolicies st;
                 escalatingPolicies := loop_escalatingPolicies st;
                 verdict_annotations := loop_allAnnotations st;
                 violations := violations;
                 verdict_evaluatedAt := evaluatedAt;
                 evaluationTimeMs := elapsedMs |}
       end |}.

End PolicyEvaluator.

Section DecisionLifecycle.
Context `{RT : JSRuntime}.

(** ** decision/lifecycle.ts *)

Definition VALID_TRANSITIONS (from : DecisionStateValue) : list DecisionStateValue :=
  match from with
  | DecisionState.PROPOSED => [DecisionState.EVALUATED; DecisionState.CANCELLED]
  | DecisionState.EVALUATED =>
      [DecisionState.COMMITTED; DecisionState.REJECTED;
       DecisionState.PENDING_APPROVAL; DecisionState.CANCELLED]
  | DecisionState.PENDING_APPROVAL =>
      [DecisionState.COMMITTED; DecisionState.REJECTED; DecisionState.CANCELLED]
  | DecisionState.COMMITTED => []
  | DecisionState.REJECTED => []
  | DecisionState.CANCELLED => []
  end.

Record DecisionAction := {
  action_type : string;
  action_parameters : JSRecord;
  action_targetId : option ContentAddress
}.

Inductive ContextUsage := usage_input | usage_reference | usage_constraint.

Definition ContextUsage_name (u : ContextUsage) : string :=
  match u with
  | usage_input => "input" | usage_reference => "reference" | usage_constraint => "constraint"
  end.

Record DecisionContextRef := {
  contextId : ContentAddress;
  usage : ContextUsage;
  relevance : option number
}.

Inductive ApprovalChoice := approved | rejected.

Record DecisionApproval := {
  approval_decidedBy : ContentAddress;
  approval_decision : ApprovalChoice;
  approval_justification : option string;
  approval_decidedAt : Timestamp
}.

Record Decision := {
  id : ContentAddress;
  state : DecisionStateValue;
  action : DecisionAction;
  proposedBy : ContentAddress;
  contextRefs : list DecisionContextRef;
  rationale : option string;
  verdict : option DecisionVerdict;
  alternativeIds : list ContentAddress;
  proposedAt : Timestamp;
  evaluatedAt : option Timestamp;
  concludedAt : option Timestamp;
  approval : option DecisionApproval
}.

Record ProposeDecisionInput := {
  input_action : DecisionAction;
  input_proposedBy : ContentAddress;
  input_contextRefs : list DecisionContextRef;
  input_rationale : option string;
  input_alternativeIds : option (list ContentAddress)
}.

Inductive Operation :=
  op_propose | op_evaluate | op_commit | op_reject | op_approve | op_cancel.

Definition Operation_name (o : Operation) : string :=
  match o with
  | op_propose => "propose" | op_evaluate => "evaluate" | op_commit => "commit"
  | op_reject => "reject" | op_approve => "approve" | op_cancel => "cancel"
  end.

Inductive TransactionStatus := txn_pending | txn_completed | txn_rolled_back | txn_failed.

Record DecisionTransaction := {
  txn_id : ContentAddress;
  txn_decisionId : ContentAddress;
  txn_operation : Operation;
  txn_status : TransactionStatus;
  txn_startedAt : Timestamp;
  txn_completedAt : option Timestamp;
  txn_error : option string
}.

(** The two private maps of [DecisionStateMachine]. *)
Record DecisionStateMachine := {
  decisions : gmap string Decision;
  transactions : gmap string DecisionTransaction
}.

Definition createDecisionStateMachine : DecisionStateMachine :=
  {| decisions := ∅; transactions := ∅ |}.

(** The errors the state machine throws; [error_message] is the text of the
    [Error] at each [throw] of the source. *)
Inductive LifecycleError :=
| DecisionNotFound (decisionId : ContentAddress)
| InvalidTransition (from to : DecisionStateValue) (validTargets : list DecisionStateValue)
| NotPendingApproval (decisionId : ContentAddress)
| TransactionNotFound (txnId : ContentAddress).

(** [validTargets.join(', ') || 'none'] *)
Definition join_or_none (validTargets : list DecisionStateValue) : string :=
  match validTargets with
  | [] => "none"
  | _ => String.concat ", " (map DecisionState.name validTargets)
  end.

Definition error_message (e : LifecycleError) : string :=
  match e with
  | DecisionNotFound decisionId => "Decision not found: " +:+ decisionId
  | InvalidTransition from to validTargets =>
      "Invalid state transition: " +:+ DecisionState.name from +:+ " → " +:+
      DecisionState.name to +:+ ". Valid transitions: " +:+ join_or_none validTargets
  | NotPendingApproval decisionId =>
      "Decision " +:+ decisionId +:+ " is not pending approval"
  | TransactionNotFound txnId => "Transaction not found: " +:+ txnId
  end.

Definition Lifecycle (A : Type) : Type := Prog DecisionStateMachine LifecycleError A.

Definition decisions_get (decisionId : ContentAddress) : Lifecycle (option Decision) :=
  fun sm => (Ok (decisions sm !! decisionId), sm).

Definition decisions_set (decisionId : ContentAddress) (d : Decision) : Lifecycle unit :=
  fun sm => (Ok tt, {| decisions := <[decisionId := d]> (decisions sm);
                       transactions := transactions sm |}).

Definition transactions_get (txnId : ContentAddress) : Lifecycle (option DecisionTransaction) :=
  fun sm => (Ok (transactions sm !! txnId), sm).

Definition transactions_set (txnId : ContentAddress) (t : DecisionTransaction) : Lifecycle unit :=
  fun sm => (Ok tt, {| decisions := decisions sm;
                       transactions := <[txnId := t]> (transactions sm) |}).

Definition state_includes (l : list DecisionStateValue) (s : DecisionStateValue) : bool :=
  existsb (DecisionState.eqb s) l.

Definition validateTransition (from to : DecisionStateValue) : Lifecycle unit :=
  let validTargets := VALID_TRANSITIONS from in
  if negb (state_includes validTargets to)
  then throw (InvalidTransition from to validTargets)
  else ret tt.

(** The stored decision, or the "Decision not found" error every method
    starts with. *)
Definition decision_or_throw (decisionId : ContentAddress) : Lifecycle Decision :=
  let! found := decisions_get decisionId in
  match found with
  | None => throw (DecisionNotFound decisionId)
  | Some decision => ret decision
  end.

Definition DecisionAction_toJS (a : DecisionAction) : JSValue :=
  JObject ([("type", JString (action_type a));
            ("parameters", JObject (action_parameters a))] ++
           opt_field "targetId" JString (action_targetId a)).

Definition DecisionContextRef_toJS (r : DecisionContextRef) : JSValue :=
  JObject ([("contextId", JString (contextId r));
            ("usage", JString (ContextUsage_name (usage r)))] ++
           opt_field "relevance" JNumber (relevance r)).

(** [decisionData] of [propose]: the content the decision id is the address of. *)
Definition decisionData (input : ProposeDecisionInput) (proposedAt : Timestamp) : JSValue :=
  JObject ([("state", JString (DecisionState.name DecisionState.PROPOSED));
            ("action", DecisionAction_toJS (input_action input));
            ("proposedBy", JString (input_proposedBy input));
            ("contextRefs", JArray (map DecisionContextRef_toJS (input_contextRefs input)));
            ("alternativeIds", JStrings (default [] (input_alternativeIds input)));
            ("proposedAt", JString proposedAt)] ++
           opt_field "rationale" JString (input_rationale input)).

Definition propose (input : ProposeDecisionInput) (proposedAt : Timestamp)
  : Lifecycle Decision :=
  let id := computeContentAddress (decisionData input proposedAt) in
  let decision :=
    {| id := id;
       state := DecisionState.PROPOSED;
       action := input_action input;
       proposedBy := input_proposedBy input;
       contextRefs := input_contextRefs input;
       rationale := input_rationale input;
       verdict := None;
       alternativeIds := default [] (input_alternativeIds input);
       proposedAt := proposedAt;
       evaluatedAt := None;
       concludedAt := None;
       approval := None |} in
  decisions_set id decision ;;;
  ret decision.

Definition evaluate (decisionId : ContentAddress) (verdict : DecisionVerdict)
  (evaluatedAt : Timestamp) : Lifecycle Decision :=
  let! decision := decision_or_throw decisionId in
  validateTransition (state decision) DecisionState.EVALUATED ;;;
  let nextState :=
    match verdict_result verdict with
    | VerdictResult.ALLOW | VerdictResult.ANNOTATE => DecisionState.EVALUATED
    | VerdictResult.DENY => DecisionState.REJECTED
    | VerdictResult.ESCALATE => DecisionState.PENDING_APPROVAL
    end in
  let updatedDecision :=
    {| id := id decision;
       state := nextState;
       action := action decision;
       proposedBy := proposedBy decision;
       contextRefs := contextRefs decision;
       rationale := rationale decision;
       verdict := Some verdict;
       alternativeIds := alternativeIds decision;
       proposedAt := proposedAt decision;
       evaluatedAt := Some evaluatedAt;
       concludedAt :=
         if DecisionState.eqb nextState DecisionState.REJECTED
         then Some evaluatedAt else concludedAt decision;
       approval := approval decision |} in
  decisions_set decisionId updatedDecision ;;;
  ret updatedDecision.

Definition startTransaction (decisionId : ContentAddress) (operation : Operation)
  (startedAt : Timestamp) : Lifecycle DecisionTransaction :=
  let txnData :=
    JObject [("decisionId", JString decisionId);
             ("operation", JString (Operation_name operation));
             ("startedAt", JString startedAt)] in
  let id := computeContentAddress txnData in
  let txn :=
    {| txn_id := id; txn_decisionId := decisionId; txn_operation := operation;
       txn_status := txn_pending; txn_startedAt := startedAt;
       txn_completedAt := None; txn_error := None |} in
  transactions_set id txn ;;;
  ret txn.

Definition completeTransaction (txnId : ContentAddress) (completedAt : Timestamp)
  : Lifecycle unit :=
  let! found := transactions_get txnId in
  match found with
  | None => throw (TransactionNotFound txnId)
  | Some txn =>
      transactions_set txnId
        {| txn_id := txn_id txn; txn_decisionId := txn_decisionId txn;
           txn_operation := txn_operation txn;
           txn_status := txn_completed; txn_startedAt := txn_startedAt txn;
           txn_completedAt := Some completedAt; txn_error := txn_error txn |}
  end.

Definition rollbackTransaction (txnId : ContentAddress) (error : string)
  (completedAt : Timestamp) : Lifecycle unit :=
  let! found := transactions_get txnId in
  match found with
  | None => throw (TransactionNotFound txnId)
  | Some txn =>
      transactions_set txnId
        {| txn_id := txn_id txn; txn_decisionId := txn_decisionId txn;
           txn_operation := txn_operation txn;
           txn_status := txn_rolled_back; txn_startedAt := txn_startedAt txn;
           txn_completedAt := Some completedAt; txn_error := Some error |}
  end.

(** The clock readings of one [commit]: in [startTransaction], for
    [concludedAt], in [completeTransaction] and in [rollbackTransaction]. *)
Record CommitClock := {
  clock_started : Timestamp;
  clock_concluded : Timestamp;
  clock_completed : Timestamp;
  clock_rolledBack : Timestamp
}.

Definition commit (decisionId : ContentAddress) (clock : CommitClock) : Lifecycle Decision :=
  let! decision := decision_or_throw decisionId in
  validateTransition (state decision) DecisionState.COMMITTED ;;;
  let! txn := startTransaction decisionId op_commit (clock_started clock) in
  try_catch
    (let committedDecision :=
       {| id := id decision;
          state := DecisionState.COMMITTED;
          action := action decision;
          proposedBy := proposedBy decision;
          contextRefs := contextRefs decision;
          rationale := rationale decision;
          verdict := verdict decision;
          alternativeIds := alternativeIds decision;
          proposedAt := proposedAt decision;
          evaluatedAt := evaluatedAt decision;
          concludedAt := Some (clock_concluded clock);
          approval := approval decision |} in
     decisions_set decisionId committedDecision ;;;
     completeTransaction (txn_id txn) (clock_completed clock) ;;;
     ret committedDecision)
    (fun error =>
       rollbackTransaction (txn_id txn) (error_message error) (clock_rolledBack clock) ;;;
       throw error).

(** [reason ?? decision.rationale] *)
Definition nullish_or {A} (a b : option A) : option A :=
  match a with
  | Some x => Some x
  | None => b
  end.

(** The object built by [reject] and [cancel]. *)
Definition concluded (decision : Decision) (to : DecisionStateValue)
  (reason : option string) (concludedAt : Timestamp) : Decision :=
  {| id := id decision;
     state := to;
     action := action decision;
     proposedBy := proposedBy decision;
     contextRefs := contextRefs decision;
     rationale := nullish_or reason (rationale decision);
     verdict := verdict decision;
     alternativeIds := alternativeIds decision;
     proposedAt := proposedAt decision;
     evaluatedAt := evaluatedAt decision;
     concludedAt := Some concludedAt;
     approval := approval decision |}.

Definition reject (decisionId : ContentAddress) (reason : option string)
  (concludedAt : Timestamp) : Lifecycle Decision :=
  let! decision := decision_or_throw decisionId in
  validateTransition (state decision) DecisionState.REJECTED ;;;
  let rejectedDecision := concluded decision DecisionState.REJECTED reason concludedAt in
  decisions_set decisionId rejectedDecision ;;;
  ret rejectedDecision.

Definition approve (decisionId : ContentAddress) (approvedBy : ContentAddress)
  (justification : option string) (decidedAt : Timestamp) : Lifecycle Decision :=
  let! decision := decision_or_throw decisionId in
  if negb (DecisionState.eqb (state decision) DecisionState.PENDING_APPROVAL)
  then throw (NotPendingApproval decisionId)
  else
    let approval :=
      {| approval_decidedBy := approvedBy; approval_decision := approved;
         approval_justification := justification; approval_decidedAt := decidedAt |} in
    let approvedDecision :=
      {| id := id decision;
         state := DecisionState.EVALUATED;
         action := action decision;
         proposedBy := proposedBy decision;
         contextRefs := contextRefs decision;
         rationale := rationale decision;
         verdict := verdict decision;
         alternativeIds := alternativeIds decision;
         proposedAt := proposedAt decision;
         evaluatedAt := evaluatedAt decision;
         concludedAt := concludedAt decision;
         approval := Some approval |} in
    decisions_set decisionId approvedDecision ;;;
    ret approvedDecision.

Definition cancel (decisionId : ContentAddress) (reason : option string)
  (concludedAt : Timestamp) : Lifecycle Decision :=
  let! decision := decision_or_throw decisionId in
  validateTransition (state decision) DecisionState.CANCELLED ;;;
  let cancelledDecision := concluded decision DecisionState.CANCELLED reason concludedAt in
  decisions_set decisionId cancelledDecision ;;;
  ret cancelledDecision.

Definition getDecision (sm : DecisionStateMachine) (id : ContentAddress) : option Decision :=
  decisions sm !! id.

Definition isTerminalState (state : DecisionStateValue) : bool :=
  isEmpty (VALID_TRANSITIONS state).

(** [decision.verdict?.result !== 'DENY'] *)
Definition verdict_not_DENY (v : option DecisionVerdict) : bool :=
  match v with
  | Some v => match verdict_result v with VerdictResult.DENY => false | _ => true end
  | None => true
  end.

Definition canCommit (decision : Decision) : bool :=
  DecisionState.eqb (state decision) DecisionState.EVALUATED &&
  verdict_not_DENY (verdict decision).

(** A call of one of the five transition methods, with its arguments and
    clock readings. *)
Inductive LifecycleCall :=
| CallEvaluate (decisionId : ContentAddress) (verdict : DecisionVerdict) (at_ : Timestamp)
| CallCommit (decisionId : ContentAddress) (clock : CommitClock)
| CallReject (decisionId : ContentAddress) (reason : option string) (at_ : Timestamp)
| CallApprove (decisionId approvedBy : ContentAddress) (justification : option string)
              (at_ : Timestamp)
| CallCancel (decisionId : ContentAddress) (reason : option string) (at_ : Timestamp).

Definition call (c : LifecycleCall) : Lifecycle Decision :=
  match c with
  | CallEvaluate decisionId verdict at_ => evaluate decisionId verdict at_
  | CallCommit decisionId clock => commit decisionId clock
  | CallReject decisionId reason at_ => reject decisionId reason at_
  | CallApprove decisionId approvedBy justification at_ =>
      approve decisionId approvedBy justification at_
  | CallCancel decisionId reason at_ => cancel decisionId reason at_
  end.

Definition call_target (c : LifecycleCall) : ContentAddress :=
  match c with
  | CallEvaluate decisionId _ _ | CallCommit decisionId _ | CallReject decisionId _ _
  | CallApprove decisionId _ _ _ | CallCancel decisionId _ _ => decisionId
  end.

(** The state machine after a sequence of calls made one after the other,
    whatever each of them returned or threw. *)
Definition after_calls (cs : list LifecycleCall) (sm : DecisionStateMachine)
  : DecisionStateMachine :=
  fold_left (fun sm c => snd (call c sm)) cs sm.

End DecisionLifecycle.

Section ApprovalWorkflow.
Context `{RT : JSRuntime}.

(** ** approval.ts, the approval workflow *)

Inductive RiskLevel := Risk_LOW | Risk_MEDIUM | Risk_HIGH | Risk_CRITICAL.

Record ApprovalContext := {
  summary : string;
  riskLevel : RiskLevel;
  impact : string;
  policyExcerpts : option (list string);
  relatedDecisionIds : option (list ContentAddress);
  context_metadata : option JSRecord
}.

Record ApprovalOutcome := {
  outcome_decision : ApprovalChoice;
  outcome_decidedBy : ContentAddress;
  outcome_decidedAt : Timestamp;
  outcome_justification : option string;
  outcome_conditions : option (list string);
  automated : bool
}.

Record ApprovalRequest := {
  request_id : ContentAddress;
  request_decisionId : ContentAddress;
  request_status : ApprovalStatusValue;
  request_priority : ApprovalPriorityValue;
  requestedBy : ContentAddress;
  request_reason : string;
  triggeringPolicyId : option ContentAddress;
  approvers : list ContentAddress;
  request_createdAt : Timestamp;
  request_expiresAt : Timestamp;
  request_context : ApprovalContext;
  request_outcome : option ApprovalOutcome
}.

Record CreateApprovalRequestInput := {
  create_decisionId : ContentAddress;
  create_requestedBy : ContentAddress;
  create_reason : string;
  create_priority : option ApprovalPriorityValue;
  create_triggeringPolicyId : option ContentAddress;
  create_approvers : list ContentAddress;
  create_timeoutMs : option Duration;
  create_context : ApprovalContext
}.

(** The three private maps of [ApprovalQueue]; each [Set] of [byApprover] is
    kept in insertion order. *)
Record ApprovalQueue := {
  requests : gmap string ApprovalRequest;
  byDecision : gmap string ContentAddress;
  byApprover : gmap string (list ContentAddress)
}.

Definition createApprovalQueue : ApprovalQueue :=
  {| requests := ∅; byDecision := ∅; byApprover := ∅ |}.

Definition defaultTimeoutMs : Duration := Whole (24 * 60 * 60 * 1000).

(** The errors of the queue, one per [throw] of the source, and the
    [RangeError] of [toISOString] on an invalid date. *)
Inductive ApprovalError :=
| InvalidTimeValue
| RequestNotFound (requestId : ContentAddress)
| RequestNotPending (requestId : ContentAddress) (status : ApprovalStatusValue)
| RequestCannotBeDecided (requestId : ContentAddress) (status : ApprovalStatusValue)
| RequestCannotBeWithdrawn (requestId : ContentAddress) (status : ApprovalStatusValue)
| NotAuthorizedToReview (actor : ContentAddress)
| NotAuthorizedToDecide (actor : ContentAddress)
| OnlyRequesterCanWithdraw.

Definition approval_error_message (e : ApprovalError) : string :=
  match e with
  | InvalidTimeValue => "Invalid time value"
  | RequestNotFound requestId => "Approval request not found: " +:+ requestId
  | RequestNotPending requestId status =>
      "Request " +:+ requestId +:+ " is not pending (status: " +:+
      ApprovalStatus.name status +:+ ")"
  | RequestCannotBeDecided requestId status =>
      "Request " +:+ requestId +:+ " cannot be decided (status: " +:+
      ApprovalStatus.name status +:+ ")"
  | RequestCannotBeWithdrawn requestId status =>
      "Request " +:+ requestId +:+ " cannot be withdrawn (status: " +:+
      ApprovalStatus.name status +:+ ")"
  | NotAuthorizedToReview actor =>
      "Actor " +:+ actor +:+ " is not authorized to review this request"
  | NotAuthorizedToDecide actor =>
      "Actor " +:+ actor +:+ " is not authorized to decide on this request"
  | OnlyRequesterCanWithdraw => "Only the requester can withdraw the request"
  end.

(** The errors that refuse the acting actor, as opposed to those that
    refuse the request's id or status. *)
Definition is_authorization_error (e : ApprovalError) : bool :=
  match e with
  | NotAuthorizedToReview _ | NotAuthorizedToDecide _ | OnlyRequesterCanWithdraw => true
  | _ => false
  end.

Definition Queue (A : Type) : Type := Prog ApprovalQueue ApprovalError A.

Definition requests_set (requestId : ContentAddress) (r : ApprovalRequest) : Queue unit :=
  fun q => (Ok tt, {| requests := <[requestId := r]> (requests q);
                      byDecision := byDecision q;
                      byApprover := byApprover q |}).

Definition request_or_throw (requestId : ContentAddress) : Queue ApprovalRequest :=
  fun q =>
    match requests q !! requestId with
    | None => (Err (RequestNotFound requestId), q)
    | Some request => (Ok request, q)
    end.

(** [Set.prototype.add] *)
Definition Set_add (x : string) (l : list string) : list string :=
  if includes l x then l else l ++ [x].

Definition index_approver (requestId : ContentAddress)
  (index : gmap string (list ContentAddress)) (approverId : ContentAddress)
  : gmap string (list ContentAddress) :=
  <[approverId := Set_add requestId (default [] (index !! approverId))]> index.

(** [createdAt] is [new Date().toISOString()] and [nowMs] is [Date.now()].
    The date of [expiresAt] is invalid when [nowMs + timeoutMs] is not a time
    value; [toISOString] then throws, before anything is stored. *)
Definition createRequest (input : CreateApprovalRequestInput)
  (createdAt : Timestamp) (nowMs : Z) : Queue ApprovalRequest :=
  fun q =>
    let timeoutMs := default defaultTimeoutMs (create_timeoutMs input) in
    match time_after nowMs timeoutMs with
    | None => (Err InvalidTimeValue, q)
    | Some expiry =>
        let expiresAt := Date_toISOString expiry in
        let requestData :=
          JObject [("decisionId", JString (create_decisionId input));
                   ("requestedBy", JString (create_requestedBy input));
                   ("reason", JString (create_reason input));
                   ("createdAt", JString createdAt)] in
        let id := computeContentAddress requestData in
        let request :=
          {| request_id := id;
             request_decisionId := create_decisionId input;
             request_status := ApprovalStatus.PENDING;
             request_priority := default ApprovalPriority.NORMAL (create_priority input);
             requestedBy := create_requestedBy input;
             request_reason := create_reason input;
             triggeringPolicyId := create_triggeringPolicyId input;
             approvers := create_approvers input;
             request_createdAt := createdAt;
             request_expiresAt := expiresAt;
             request_context := create_context input;
             request_outcome := None |} in
        (Ok request,
         {| requests := <[id := request]> (requests q);
            byDecision := <[create_decisionId input := id]> (byDecision q);
            byApprover :=
              fold_left (index_approver id) (create_approvers input) (byApprover q) |})
    end.

Definition getRequest (q : ApprovalQueue) (id : ContentAddress) : option ApprovalRequest :=
  requests q !! id.

Definition with_status (request : ApprovalRequest) (status : ApprovalStatusValue)
  (outcome : option ApprovalOutcome) : ApprovalRequest :=
  {| request_id := request_id request;
     request_decisionId := request_decisionId request;
     request_status := status;
     request_priority := request_priority request;
     requestedBy := requestedBy request;
     request_reason := request_reason request;
     triggeringPolicyId := triggeringPolicyId request;
     approvers := approvers request;
     request_createdAt := request_createdAt request;
     request_expiresAt := request_expiresAt request;
     request_context := request_context request;
     request_outcome := outcome |}.

Definition is_PENDING (s : ApprovalStatusValue) : bool :=
  match s with ApprovalStatus.PENDING => true | _ => false end.

Definition is_open (s : ApprovalStatusValue) : bool :=
  match s with ApprovalStatus.PENDING | ApprovalStatus.IN_REVIEW => true | _ => false end.

Definition startReview (requestId reviewerId : ContentAddress) : Queue ApprovalRequest :=
  let! request := request_or_throw requestId in
  if negb (is_PENDING (request_status request))
  then throw (RequestNotPending requestId (request_status request))
  else if negb (includes (approvers request) reviewerId)
  then throw (NotAuthorizedToReview reviewerId)
  else
    let updatedRequest :=
      with_status request ApprovalStatus.IN_REVIEW (request_outcome request) in
    requests_set requestId updatedRequest ;;;
    ret updatedRequest.

Record DecisionOptions := {
  opt_justification : option string;
  opt_conditions : option (list string)
}.

Definition recordDecision (requestId : ContentAddress) (decision : ApprovalChoice)
  (decidedBy : ContentAddress) (options : option DecisionOptions) (decidedAt : Timestamp)
  : Queue ApprovalRequest :=
  let! request := request_or_throw requestId in
  if negb (is_open (request_status request))
  then throw (RequestCannotBeDecided requestId (request_status request))
  else if negb (includes (approvers request) decidedBy)
  then throw (NotAuthorizedToDecide decidedBy)
  else
    let outcome :=
      {| outcome_decision := decision;
         outcome_decidedBy := decidedBy;
         outcome_decidedAt := decidedAt;
         outcome_justification := options ≫= opt_justification;
         outcome_conditions := options ≫= opt_conditions;
         automated := false |} in
    let updatedRequest :=
      with_status request
        (match decision with
         | approved => ApprovalStatus.APPROVED
         | rejected => ApprovalStatus.REJECTED
         end)
        (Some outcome) in
    requests_set requestId updatedRequest ;;;
    ret updatedRequest.

Definition withdraw (requestId withdrawnBy : ContentAddress) : Queue ApprovalRequest :=
  let! request := request_or_throw requestId in
  if negb (is_open (request_status request))
  then throw (RequestCannotBeWithdrawn requestId (request_status request))
  else if negb (String.eqb (requestedBy request) withdrawnBy)
  then throw OnlyRequesterCanWithdraw
  else
    let updatedRequest :=
      with_status request ApprovalStatus.WITHDRAWN (request_outcome request) in
    requests_set requestId updatedRequest ;;;
    ret updatedRequest.

End ApprovalWorkflow.

Section ConflictResolution.
Context `{RT : JSRuntime}.

(** ** safety/conflict-resolver.ts *)

Record PolicyConflict := {
  conflict_id : ContentAddress;
  conflict_type : ConflictTypeValue;
  conflict_policies : list PolicyDefinition;
  conflict_scope : string;
  conflict_description : string;
  severity : Z;
  detectedAt : Timestamp;
  triggeringAction : option DecisionAction
}.

Record ResolutionResult := {
  resolved : bool;
  strategy : ResolutionStrategyValue;
  winningPolicy : option PolicyDefinition;
  resolution_explanation : string;
  recommendation : option string;
  needsEscalation : bool
}.

(** Rule priorities are integers. *)
Record ResolutionRule := {
  rule_id : string;
  conflictTypes : list ConflictTypeValue;
  rule_strategy : ResolutionStrategyValue;
  rule_priority : Z;
  resolver : option (PolicyConflict -> ResolutionResult)
}.

(** A JS [Map] in insertion order; [set] on a present key keeps its place. *)
Fixpoint Map_set {K V} (eqb : K -> K -> bool) (key : K) (v : V) (m : list (K * V))
  : list (K * V) :=
  match m with
  | [] => [(key, v)]
  | (k, v') :: rest =>
      if eqb k key then (k, v) :: rest else (k, v') :: Map_set eqb key v rest
  end.

Definition Map_values {K V} (m : list (K * V)) : list V := map snd m.

(** Equality of the keys of [policies]: an id, or [undefined]. *)
Definition id_eqb (a b : option ContentAddress) : bool :=
  match a, b with
  | Some x, Some y => String.eqb x y
  | None, None => true
  | _, _ => false
  end.

Record ConflictResolver := {
  policies : list (option ContentAddress * PolicyDefinition);
  rules : list ResolutionRule;
  conflicts : list (ContentAddress * PolicyConflict)
}.

Definition registerPolicy (policy : PolicyDefinition) (r : ConflictResolver)
  : ConflictResolver :=
  {| policies := Map_set id_eqb (policy_id policy) policy (policies r);
     rules := rules r;
     conflicts := conflicts r |}.

Definition registerRule (rule : ResolutionRule) (r : ConflictResolver) : ConflictResolver :=
  {| policies := policies r;
     rules := array_sort (fun a b => rule_priority b - rule_priority a)%Z (rules r ++ [rule]);
     conflicts := conflicts r |}.

Definition registerDefaultRules (r : ConflictResolver) : ConflictResolver :=
  let r := registerRule
    {| rule_id := "default-overlap";
       conflictTypes := [ConflictType.OVERLAP];
       rule_strategy := ResolutionStrategy.MOST_SPECIFIC;
       rule_priority := 100; resolver := None |} r in
  let r := registerRule
    {| rule_id := "default-contradiction";
       conflictTypes := [ConflictType.CONTRADICTION];
       rule_strategy := ResolutionStrategy.MOST_RESTRICTIVE;
       rule_priority := 100; resolver := None |} r in
  let r := registerRule
    {| rule_id := "default-ambiguous";
       conflictTypes := [ConflictType.AMBIGUOUS_PRIORITY];
       rule_strategy := ResolutionStrategy.NEWEST;
       rule_priority := 50; resolver := None |} r in
  registerRule
    {| rule_id := "default-circular";
       conflictTypes := [ConflictType.CIRCULAR];
       rule_strategy := ResolutionStrategy.ESCALATE;
       rule_priority := 100; resolver := None |} r.

(** [new ConflictResolver()] *)
Definition createConflictResolver : ConflictResolver :=
  registerDefaultRules {| policies := []; rules := []; conflicts := [] |}.

Definition severityMap (type : ConflictTypeValue) : Z :=
  match type with
  | ConflictType.CONTRADICTION => 10
  | ConflictType.OVERLAP => 5
  | ConflictType.CIRCULAR => 8
  | ConflictType.AMBIGUOUS_PRIORITY => 3
  | ConflictType.RESOURCE_CONTENTION => 4
  end.

Definition optional_id_toJS (i : option ContentAddress) : JSValue :=
  match i with
  | Some s => JString s
  | None => JUndefined
  end.

Definition createConflict (type : ConflictTypeValue) (policies : list PolicyDefinition)
  (scope description : string) (detectedAt : Timestamp) : PolicyConflict :=
  let conflictData :=
    JObject [("type", JString (ConflictType.name type));
             ("policyIds", JArray (map (fun p => optional_id_toJS (policy_id p)) policies));
             ("scope", JString scope)] in
  {| conflict_id := computeContentAddress conflictData;
     conflict_type := type;
     conflict_policies := policies;
     conflict_scope := scope;
     conflict_description := description;
     severity := severityMap type;
     detectedAt := detectedAt;
     triggeringAction := None |}.

(** The double quote of the messages. *)
Definition dq : string := String (ascii_of_nat 34) EmptyString.

(** [s.split(':')] *)
Fixpoint split_colon (s : string) : list string :=
  match s with
  | EmptyString => [EmptyString]
  | String c rest =>
      if Ascii.eqb c ":"%char then EmptyString :: split_colon rest
      else
        match split_colon rest with
        | head :: parts => String c head :: parts
        | [] => [String c EmptyString]
        end
  end.

(** The loop of [scopeMatches] from index [i] on: [patternParts] and
    [targetParts] are what is left of the two arrays from [i], and
    [patternLength], [targetLength] the lengths of the whole arrays. An
    exhausted [targetParts] reads [undefined], different from any part. *)
Fixpoint scopeMatches_from (patternParts targetParts : list string)
  (patternLength targetLength : nat) : bool :=
  match patternParts with
  | [] => (patternLength <=? targetLength)%nat
  | part :: laterParts =>
      if String.eqb part "*" then
        if isEmpty laterParts then true
        else scopeMatches_from laterParts (tail targetParts) patternLength targetLength
      else
        match targetParts with
        | targetPart :: laterTargets =>
            if String.eqb part targetPart
            then scopeMatches_from laterParts laterTargets patternLength targetLength
            else false
        | [] => false
        end
  end.

Definition scopeMatches (pattern target : string) : bool :=
  if String.eqb pattern "*" then true
  else
    let patternParts := split_colon pattern in
    let targetParts := split_colon target in
    scopeMatches_from patternParts targetParts (length patternParts) (length targetParts).

Definition scope_pattern_or_star (p : PolicyDefinition) : string :=
  default "*" (scope_pattern (policy_scope p)).

Definition findOverlappingScope (p1 p2 : PolicyDefinition) : option string :=
  let scope1 := scope_pattern_or_star p1 in
  let scope2 := scope_pattern_or_star p2 in
  if PolicyScope.is_GLOBAL (scope_type (policy_scope p1)) ||
     PolicyScope.is_GLOBAL (scope_type (policy_scope p2))
  then Some "*"
  else if String.eqb scope1 scope2 then Some scope1
  else if scopeMatches scope1 scope2 then Some scope2
  else if scopeMatches scope2 scope1 then Some scope1
  else None.

Definition is_restrictive (e : EnforcementModeValue) : bool :=
  match e with EnforcementMode.BLOCK | EnforcementMode.ESCALATE => true | _ => false end.

Definition is_permissive (e : EnforcementModeValue) : bool :=
  match e with EnforcementMode.ANNOTATE => true | _ => false end.

Definition isContradiction (p1 p2 : PolicyDefinition) : bool :=
  (is_restrictive (policy_enforcement p1) && is_permissive (policy_enforcement p2)) ||
  (is_permissive (policy_enforcement p1) && is_restrictive (policy_enforcement p2)).

Definition isOverlapConflict (p1 p2 : PolicyDefinition) : bool :=
  negb (EnforcementMode.eqb (policy_enforcement p1) (policy_enforcement p2)).

(** [p.metadata?.priority ?? 0] *)
Definition metadata_priority (p : PolicyDefinition) : Z :=
  default 0%Z (policy_metadata p ≫= meta_priority).

(** [p.metadata?.createdAt ?? ''] *)
Definition metadata_createdAt (p : PolicyDefinition) : string :=
  default EmptyString (policy_metadata p ≫= meta_createdAt).

Definition hasAmbiguousPriority (p1 p2 : PolicyDefinition) : bool :=
  (metadata_priority p1 =? metadata_priority p2)%Z && isOverlapConflict p1 p2.

(** The pairs [(policiesArray[i], policiesArray[j])], [i < j], in the order
    the two nested loops visit them. *)
Fixpoint pairs_in_order {A} (l : list A) : list (A * A) :=
  match l with
  | [] => []
  | x :: xs => map (pair x) xs ++ pairs_in_order xs
  end.

(** Truthiness of a string that may be absent ([null] or [undefined]). *)
Definition truthy (s : option string) : bool :=
  match s with
  | Some s => negb (String.eqb s EmptyString)
  | None => false
  end.

(** The body of the inner loop of [detectConflicts]: what one pair pushes,
    each conflict still without the clock reading that [createConflict]
    takes for it. *)
Definition conflicts_of_pair (scope : option string)
  (pair : PolicyDefinition * PolicyDefinition) : list (Timestamp -> PolicyConflict) :=
  let '(p1, p2) := pair in
  match findOverlappingScope p1 p2 with
  | None => []
  | Some overlappingScope =>
      if negb (truthy (Some overlappingScope)) then []
      else if truthy scope && negb (scopeMatches overlappingScope (default EmptyString scope)) then []
      else
        (if isContradiction p1 p2 then
           [createConflict ConflictType.CONTRADICTION [p1; p2] overlappingScope
              ("Policies " +:+ dq +:+ policy_name p1 +:+ dq +:+ " and " +:+ dq +:+
               policy_name p2 +:+ dq +:+ " have contradictory enforcement actions")]
         else []) ++
        (if isOverlapConflict p1 p2 then
           [createConflict ConflictType.OVERLAP [p1; p2] overlappingScope
              ("Policies " +:+ dq +:+ policy_name p1 +:+ dq +:+ " and " +:+ dq +:+
               policy_name p2 +:+ dq +:+ " overlap with different enforcement levels")]
         else []) ++
        (if hasAmbiguousPriority p1 p2 then
           [createConflict ConflictType.AMBIGUOUS_PRIORITY [p1; p2] overlappingScope
              ("Policies " +:+ dq +:+ policy_name p1 +:+ dq +:+ " and " +:+ dq +:+
               policy_name p2 +:+ dq +:+ " have the same priority in overlapping scope")]
         else [])
  end.

(** Conflicts in the order they are created, each with its own reading of
    the clock: [clock k] is the reading after [k] earlier ones of the call. *)
Fixpoint created_from (clock : nat -> Timestamp) (k : nat)
  (conflicts : list (Timestamp -> PolicyConflict)) : list PolicyConflict :=
  match conflicts with
  | [] => []
  | conflict :: later => conflict (clock k) :: created_from clock (S k) later
  end.

(** [detectConflicts(scope?)]: the conflicts returned and the resolver with
    them stored. *)
Definition detectConflicts (scope : option string) (clock : nat -> Timestamp)
  (r : ConflictResolver) : list PolicyConflict * ConflictResolver :=
  let policiesArray := Map_values (policies r) in
  let found :=
    created_from clock 0 (flat_map (conflicts_of_pair scope) (pairs_in_order policiesArray)) in
  (found,
   {| policies := policies r;
      rules := rules r;
      conflicts :=
        fold_left (fun m c => Map_set String.eqb (conflict_id c) c m) found (conflicts r) |}).

Definition type_includes (l : list ConflictTypeValue) (t : ConflictTypeValue) : bool :=
  existsb (ConflictType.eqb t) l.

(** The position of an enforcement mode in an [enforcementOrder] array
    ([indexOf], -1 when absent). *)
Fixpoint indexOf (order : list EnforcementModeValue) (e : EnforcementModeValue) : Z :=
  match order with
  | [] => (-1)%Z
  | x :: xs =>
      if EnforcementMode.eqb x e then 0%Z
      else let i := indexOf xs e in if (i <? 0)%Z then (-1)%Z else (i + 1)%Z
  end.

(** The common shape of the five [resolveBy...] methods: sort a copy of the
    policies, take the first. *)
Definition resolve_sorted (cmp : PolicyDefinition -> PolicyDefinition -> Z)
  (strategy : ResolutionStrategyValue) (couldNot wins : string)
  (conflict : PolicyConflict) : ResolutionResult :=
  match array_sort cmp (conflict_policies conflict) with
  | [] =>
      {| resolved := false; strategy := strategy; winningPolicy := None;
         resolution_explanation := couldNot;
         recommendation := None; needsEscalation := true |}
  | winner :: _ =>
      {| resolved := true; strategy := strategy; winningPolicy := Some winner;
         resolution_explanation := "Policy " +:+ dq +:+ policy_name winner +:+ dq +:+ " " +:+ wins;
         recommendation := None; needsEscalation := false |}
  end.

Definition resolveBySpecificity : PolicyConflict -> ResolutionResult :=
  resolve_sorted
    (fun a b => Z.of_nat (String_length (scope_pattern_or_star b)) -
                Z.of_nat (String_length (scope_pattern_or_star a)))%Z
    ResolutionStrategy.MOST_SPECIFIC
    "Could not determine most specific policy" "wins as the most specific".

Definition resolveByRestrictiveness : PolicyConflict -> ResolutionResult :=
  let enforcementOrder :=
    [EnforcementMode.BLOCK; EnforcementMode.ESCALATE;
     EnforcementMode.ANNOTATE; EnforcementMode.SHADOW] in
  resolve_sorted
    (fun a b => indexOf enforcementOrder (policy_enforcement a) -
                indexOf enforcementOrder (policy_enforcement b))%Z
    ResolutionStrategy.MOST_RESTRICTIVE
    "Could not determine most restrictive policy" "wins as the most restrictive".

Definition resolveByPermissiveness : PolicyConflict -> ResolutionResult :=
  let enforcementOrder :=
    [EnforcementMode.SHADOW; EnforcementMode.ANNOTATE;
     EnforcementMode.ESCALATE; EnforcementMode.BLOCK] in
  resolve_sorted
    (fun a b => indexOf enforcementOrder (policy_enforcement a) -
                indexOf enforcementOrder (policy_enforcement b))%Z
    ResolutionStrategy.MOST_PERMISSIVE
    "Could not determine most permissive policy" "wins as the most permissive".

Definition resolveByPriority : PolicyConflict -> ResolutionResult :=
  resolve_sorted
    (fun a b => metadata_priority b - metadata_priority a)%Z
    ResolutionStrategy.PRIORITY
    "Could not determine highest priority policy" "wins by priority".

Definition resolveByNewest : PolicyConflict -> ResolutionResult :=
  resolve_sorted
    (fun a b => String_localeCompare (metadata_createdAt b) (metadata_createdAt a))
    ResolutionStrategy.NEWEST
    "Could not determine newest policy" "wins as the newest".

Definition escalate_to_human : ResolutionResult :=
  {| resolved := false; strategy := ResolutionStrategy.ESCALATE; winningPolicy := None;
     resolution_explanation := "Conflict requires human review";
     recommendation := None; needsEscalation := true |}.

Definition applyRule (rule : ResolutionRule) (conflict : PolicyConflict) : ResolutionResult :=
  match rule_strategy rule, resolver rule with
  | ResolutionStrategy.CUSTOM, Some custom => custom conflict
  | ResolutionStrategy.MOST_SPECIFIC, _ => resolveBySpecificity conflict
  | ResolutionStrategy.MOST_RESTRICTIVE, _ => resolveByRestrictiveness conflict
  | ResolutionStrategy.MOST_PERMISSIVE, _ => resolveByPermissiveness conflict
  | ResolutionStrategy.PRIORITY, _ => resolveByPriority conflict
  | ResolutionStrategy.NEWEST, _ => resolveByNewest conflict
  | ResolutionStrategy.ESCALATE, _ => escalate_to_human
  | ResolutionStrategy.CUSTOM, None => escalate_to_human
  end.

Definition resolve (r : ConflictResolver) (conflict : PolicyConflict) : ResolutionResult :=
  match array_find (fun rule => type_includes (conflictTypes rule) (conflict_type conflict))
                   (rules r) with
  | None =>
      {| resolved := false; strategy := ResolutionStrategy.ESCALATE; winningPolicy := None;
         resolution_explanation := "No resolution rule found for this conflict type";
         recommendation := Some "Define a resolution rule or manually resolve";
         needsEscalation := true |}
  | Some rule => applyRule rule conflict
  end.

End ConflictResolution.

Section Vocabulary.
Context `{RT : JSRuntime}.

(** ** Notions the properties are stated with *)

(** A JS object holds each own key once; [own_keys_unique] says so of every
    object inside a modelled value. *)
Fixpoint own_keys_unique (v : JSValue) : bool :=
  match v with
  | JArray items => forallb own_keys_unique items
  | JObject fields =>
      bool_decide (NoDup (Object_keys fields)) &&
      forallb (fun kv => let '(_, x) := kv in own_keys_unique x) fields
  | _ => true
  end.

(** [same_content a b]: [b] is [a] with the properties of any of its objects,
    at any depth, enumerated in another order. *)
Inductive same_content : JSValue -> JSValue -> Prop :=
| same_value v : same_content v v
| same_array items1 items2 :
    Forall2 same_content items1 items2 ->
    same_content (JArray items1) (JArray items2)
| same_object fields1 reordered fields2 :
    Permutation fields1 reordered ->
    Forall2 (fun kv1 kv2 => fst kv1 = fst kv2 /\ same_content (snd kv1) (snd kv2))
            reordered fields2 ->
    same_content (JObject fields1) (JObject fields2).

(** The negation of [isPolicyActive], spelt out: the status is not ACTIVE,
    or the instant is strictly before [activatesAt], or [expiresAt] is set
    (to a non-empty string) and the instant is at or after it. *)
Definition outside_activation_window (policy : PolicyDefinition) (asOf : Timestamp) : Prop :=
  policy_status policy <> PolicyStatus.ACTIVE \/
  time_lt (Date_getTime asOf) (Date_getTime (activatesAt (policy_activation policy))) = true \/
  exists expires,
    expiresAt (policy_activation policy) = Some expires /\ expires <> EmptyString /\
    time_ge (Date_getTime asOf) (Date_getTime expires) = true.

(** The vacuous pass of a policy that is not active. *)
Definition vacuous_pass (policy : PolicyDefinition) : PolicyVerdictResult :=
  {| passed := true;
     enforcement := policy_enforcement policy;
     explanation := "Policy not active at evaluation time";
     annotations := [];
     error := None |}.

(** The fail-safe result for an evaluator exception with a given message. *)
Definition fail_safe_block (policy : PolicyDefinition) (errorMessage : string)
  : PolicyVerdictResult :=
  {| passed := false;
     enforcement := EnforcementMode.BLOCK;
     explanation := "Error evaluating policy: " +:+ errorMessage;
     annotations := ["POLICY_ERROR:" +:+ policy_name policy];
     error := Some errorMessage |}.

(** The [policyResults] entry of one policy, for the result [evaluatePolicy]
    gave. *)
Definition entry_for (policy : PolicyDefinition) (verdict : PolicyVerdictResult)
  : PolicyVerdictEntry :=
  {| entry_policyId := computeContentAddress (PolicyDefinition_toJS policy);
     entry_policyName := policy_name policy;
     entry_policyVersion := policy_version policy;
     entry_verdict := verdict |}.

(** The entry of one policy, or what its evaluation rejects with. *)
Definition entry_of (registry : RuleEvaluatorRegistry) (context : PolicyEvaluationContext)
  (policy : PolicyDefinition) : Result Thrown PolicyVerdictEntry :=
  match outcome (evaluatePolicy registry policy context) with
  | Ok verdict => Ok (entry_for policy verdict)
  | Err raised => Err raised
  end.

(** The entries of a list of policies, in order, or what the first
    evaluation that rejects does so with. *)
Fixpoint entries_of (registry : RuleEvaluatorRegistry) (context : PolicyEvaluationContext)
  (policies : list PolicyDefinition) : Result Thrown (list PolicyVerdictEntry) :=
  match policies with
  | [] => Ok []
  | policy :: rest =>
      match entry_of registry context policy with
      | Err raised => Err raised
      | Ok entry =>
          match entries_of registry context rest with
          | Ok entries => Ok (entry :: entries)
          | Err raised => Err raised
          end
      end
  end.

(** The policies the loop of [evaluateAll] reaches: all of them up to the
    first whose evaluation rejects, that one included. *)
Fixpoint reached (registry : RuleEvaluatorRegistry) (context : PolicyEvaluationContext)
  (policies : list PolicyDefinition) : list PolicyDefinition :=
  match policies with
  | [] => []
  | policy :: rest =>
      match entry_of registry context policy with
      | Err _ => [policy]
      | Ok _ => policy :: reached registry context rest
      end
  end.

(** A policy result that failed with a given enforcement. *)
Definition failed_with (e : EnforcementModeValue) (entry : PolicyVerdictEntry) : bool :=
  negb (passed (entry_verdict entry)) && EnforcementMode.eqb (enforcement (entry_verdict entry)) e.

(** The fixed precedence of the aggregation. *)
Definition aggregate (results : list PolicyVerdictEntry) : VerdictResultValue :=
  if existsb (failed_with EnforcementMode.BLOCK) results then VerdictResult.DENY
  else if existsb (failed_with EnforcementMode.ESCALATE) results then VerdictResult.ESCALATE
  else if negb (isEmpty (concat (map (fun entry => annotations (entry_verdict entry)) results)))
  then VerdictResult.ANNOTATE
  else VerdictResult.ALLOW.

(** The state a call asks the transition table for; [approve] does not
    consult the table. *)
Definition requested_state (c : LifecycleCall) : option DecisionStateValue :=
  match c with
  | CallEvaluate _ _ _ => Some DecisionState.EVALUATED
  | CallCommit _ _ => Some DecisionState.COMMITTED
  | CallReject _ _ _ => Some DecisionState.REJECTED
  | CallApprove _ _ _ _ => None
  | CallCancel _ _ _ => Some DecisionState.CANCELLED
  end.

(** The error a call on a decision in a terminal state ends with. *)
Definition terminal_error (c : LifecycleCall) (current : DecisionStateValue) : LifecycleError :=
  match requested_state c with
  | Some to => InvalidTransition current to (VALID_TRANSITIONS current)
  | None => NotPendingApproval (call_target c)
  end.

(** The part of a decision that identifies the proposal. *)
Definition same_proposal (d d' : Decision) : Prop :=
  id d' = id d /\ action d' = action d /\ proposedBy d' = proposedBy d /\
  contextRefs d' = contextRefs d /\ alternativeIds d' = alternativeIds d /\
  proposedAt d' = proposedAt d.

(** The state [evaluate] moves to for a verdict. *)
Definition state_for (result : VerdictResultValue) : DecisionStateValue :=
  match result with
  | VerdictResult.ALLOW | VerdictResult.ANNOTATE => DecisionState.EVALUATED
  | VerdictResult.DENY => DecisionState.REJECTED
  | VerdictResult.ESCALATE => DecisionState.PENDING_APPROVAL
  end.

(** The state machines a program can build: a fresh one, then any calls of
    [propose] and of the transition methods. *)
Inductive reachable : DecisionStateMachine -> Prop :=
| reachable_fresh : reachable createDecisionStateMachine
| reachable_propose sm input proposedAt :
    reachable sm -> reachable (snd (propose input proposedAt sm))
| reachable_call sm c :
    reachable sm -> reachable (snd (call c sm)).

End Vocabulary.

(** ** A runtime to evaluate examples with

    Numbers are integers printed in decimal, [JSON.stringify] only adds the
    quotes (right for strings without quotes, backslashes or control
    characters), timestamps are written as their epoch milliseconds, and the
    "digest" is a 16-bit checksum in decimal, which keeps example addresses
    short. None of the general theorems below depends on it. *)

Fixpoint checksum (s : string) (acc : Z) : Z :=
  match s with
  | EmptyString => acc
  | String c rest => checksum rest ((acc * 31 + Z.of_nat (nat_of_ascii c)) mod 65521)%Z
  end.

Fixpoint parse_digits (s : string) (acc : Z) : option Z :=
  match s with
  | EmptyString => Some acc
  | String c rest =>
      let n := Z.of_nat (nat_of_ascii c) in
      if ((48 <=? n) && (n <=? 57))%Z then parse_digits rest (10 * acc + (n - 48))%Z
      else None
  end.

Definition parse_epoch (s : string) : option Z :=
  match s with
  | EmptyString => None
  | _ => parse_digits s 0%Z
  end.

Definition decimal (z : Z) : string := NilZero.string_of_int (Z.to_int z).

Definition example_runtime : JSRuntime :=
  {| number := Z;
     String_of_number := decimal;
     number_of_Z := fun z => z;
     JSON_stringify_string := fun s => dq +:+ s +:+ dq;
     String_localeCompare := default_compare;
     digest_hex := fun _ canonical => decimal (checksum canonical 0%Z);
     Date_getTime := parse_epoch;
     Date_toISOString := decimal |}.

(** ** Example data *)

Section ExampleData.
#[local] Existing Instance example_runtime.

Definition example_policy (id name : string) (mode : EnforcementModeValue)
  (status : PolicyStatusValue) (pattern : string) : PolicyDefinition :=
  {| policy_id := Some id;
     policy_name := name;
     policy_description := "Transfers stay under the limit";
     policy_scope :=
       {| scope_type := PolicyScope.DECISION_TYPE; scope_pattern := Some pattern;
          scope_targetIds := None; scope_conditions := None |};
     policy_rule :=
       {| rule_format := RuleFormat.EXPRESSION; rule_expression := "extra.amount < 1000";
          rule_explanation := None; passingExamples := None; failingExamples := None |};
     policy_enforcement := mode;
     policy_version := "1.0.0";
     policy_status := status;
     policy_activation :=
       {| activatesAt := "1000"; expiresAt := Some "5000"; timezone := None |};
     policy_tags := None;
     policy_priority := None;
     policy_supersedesId := None;
     policy_metadata := None |}.

Definition P1 : PolicyDefinition :=
  example_policy "policy-1" "P1" EnforcementMode.BLOCK PolicyStatus.ACTIVE "financial:*".

Definition P2 : PolicyDefinition :=
  example_policy "policy-2" "P2" EnforcementMode.ANNOTATE PolicyStatus.ACTIVE
    "financial:transfer".

Definition draft_policy : PolicyDefinition :=
  example_policy "policy-3" "P3" EnforcementMode.BLOCK PolicyStatus.DRAFT "financial:*".

Definition example_context (timestamp : Timestamp) : PolicyEvaluationContext :=
  {| ctx_decision :=
       {| ctx_decision_id := "decision-1"; ctx_decision_type := "financial:transfer";
          ctx_decision_action := [("amount", JNumber 5000%Z)] |};
     ctx_actor :=
       {| ctx_actor_id := "agent-1"; ctx_actor_type := "AGENT";
          ctx_actor_authorities := [] |};
     ctx_contexts := [];
     ctx_timestamp := timestamp;
     ctx_extra := Some [("amount", JNumber 5000%Z)] |}.

(** A registry with no evaluator at all: every dispatch throws. *)
Definition empty_registry : RuleEvaluatorRegistry :=
  createRuleEvaluatorRegistry (fun _ => None).

Definition transfer_proposal : ProposeDecisionInput :=
  {| input_action :=
       {| action_type := "financial:transfer";
          action_parameters := [("amount", JNumber 5000%Z)];
          action_targetId := None |};
     input_proposedBy := "agent-1";
     input_contextRefs := [];
     input_rationale := None;
     input_alternativeIds := None |}.

Definition example_verdict (result : VerdictResultValue) : DecisionVerdict :=
  {| verdict_id := "verdict-1";
     verdict_decisionId := "decision-1";
     verdict_result := result;
     verdict_scope := "GLOBAL";
     policyResults := [];
     blockingPolicies := [];
     escalatingPolicies := [];
     verdict_annotations := [];
     violations := [];
     verdict_evaluatedAt := "2000";
     evaluationTimeMs := 1%Z |}.

Definition example_clock : CommitClock :=
  {| clock_started := "3000"; clock_concluded := "3001";
     clock_completed := "3002"; clock_rolledBack := "3003" |}.

(** The id [propose] gives the example proposal at instant 1000. *)
Definition example_id : ContentAddress :=
  computeContentAddress (decisionData transfer_proposal "1000").

(** The decision [propose] returns for it. *)
Definition proposed_decision : Decision :=
  {| id := example_id;
     state := DecisionState.PROPOSED;
     action := input_action transfer_proposal;
     proposedBy := "agent-1";
     contextRefs := [];
     rationale := None;
     verdict := None;
     alternativeIds := [];
     proposedAt := "1000";
     evaluatedAt := None;
     concludedAt := None;
     approval := None |}.

(** A fresh state machine after [propose]. *)
Definition proposed_machine : DecisionStateMachine :=
  snd (propose transfer_proposal "1000" createDecisionStateMachine).

(** Then [evaluate] with an ESCALATE verdict: the decision awaits approval. *)
Definition pending_machine : DecisionStateMachine :=
  snd (evaluate example_id (example_verdict VerdictResult.ESCALATE) "2000" proposed_machine).

(** Then [commit]. *)
Definition committed_machine : DecisionStateMachine :=
  snd (commit example_id example_clock pending_machine).

(** The decision as each of the two calls stores it. *)
Definition pending_decision : Decision :=
  {| id := example_id;
     state := DecisionState.PENDING_APPROVAL;
     action := input_action transfer_proposal;
     proposedBy := "agent-1";
     contextRefs := [];
     rationale := None;
     verdict := Some (example_verdict VerdictResult.ESCALATE);
     alternativeIds := [];
     proposedAt := "1000";
     evaluatedAt := Some "2000";
     concludedAt := None;
     approval := None |}.

Definition committed_decision : Decision :=
  {| id := example_id;
     state := DecisionState.COMMITTED;
     action := input_action transfer_proposal;
     proposedBy := "agent-1";
     contextRefs := [];
     rationale := None;
     verdict := Some (example_verdict VerdictResult.ESCALATE);
     alternativeIds := [];
     proposedAt := "1000";
     evaluatedAt := Some "2000";
     concludedAt := Some "3001";
     approval := None |}.

Definition example_request : CreateApprovalRequestInput :=
  {| create_decisionId := "decision-1";
     create_requestedBy := "system";
     create_reason := "Transfer above the limit";
     create_priority := None;
     create_triggeringPolicyId := None;
     create_approvers := ["alice"];
     create_timeoutMs := Some (Whole 1000);
     create_context :=
       {| summary := "Transfer of 5000"; riskLevel := Risk_HIGH; impact := "Funds leave";
          policyExcerpts := None; relatedDecisionIds := None; context_metadata := None |} |}.

Definition example_request_id : ContentAddress :=
  computeContentAddress
    (JObject [("decisionId", JString "decision-1"); ("requestedBy", JString "system");
              ("reason", JString "Transfer above the limit"); ("createdAt", JString "1000")]).

(** The request [createRequest] stores for it at instant 1000. *)
Definition pending_request : ApprovalRequest :=
  {| request_id := example_request_id;
     request_decisionId := "decision-1";
     request_status := ApprovalStatus.PENDING;
     request_priority := ApprovalPriority.NORMAL;
     requestedBy := "system";
     request_reason := "Transfer above the limit";
     triggeringPolicyId := None;
     approvers := ["alice"];
     request_createdAt := "1000";
     request_expiresAt := "2000";
     request_context := create_context example_request;
     request_outcome := None |}.

(** A queue with one request, pending. *)
Definition queue_pending : ApprovalQueue :=
  snd (createRequest example_request "1000" 1000%Z createApprovalQueue).

(** The same queue once alice, the approver, has started her review. *)
Definition queue_in_review : ApprovalQueue :=
  snd (startReview example_request_id "alice" queue_pending).

(** A resolver with P1 and P2 registered, in this order. *)
Definition financial_resolver : ConflictResolver :=
  registerPolicy P2 (registerPolicy P1 createConflictResolver).

(** The same object written with its keys in two orders. *)
Definition object_ab : JSValue :=
  JObject [("a", JNumber 1%Z);
           ("b", JObject [("x", JString "u"); ("y", JArray [JBool true; JNull])])].

Definition object_ba : JSValue :=
  JObject [("b", JObject [("y", JArray [JBool true; JNull]); ("x", JString "u")]);
           ("a", JNumber 1%Z)].

(** A policy written in a format no evaluator is built in for. *)
Definition rego_policy : PolicyDefinition :=
  {| policy_id := Some "policy-4";
     policy_name := "P4";
     policy_description := "Transfers stay under the limit";
     policy_scope := policy_scope P1;
     policy_rule :=
       {| rule_format := RuleFormat.REGO; rule_expression := "allow { input.amount < 1000 }";
          rule_explanation := None; passingExamples := None; failingExamples := None |};
     policy_enforcement := EnforcementMode.ANNOTATE;
     policy_version := "1.0.0";
     policy_status := PolicyStatus.ACTIVE;
     policy_activation := policy_activation P1;
     policy_tags := None;
     policy_priority := None;
     policy_supersedesId := None;
     policy_metadata := None |}.

(** Two evaluators that do not look at the expression. *)
Definition always_true : RuleEvaluator := fun _ _ => Ok true.
Definition always_false : RuleEvaluator := fun _ _ => Ok false.

(** [evaluate] with an ALLOW verdict instead: the decision can be committed. *)
Definition allowed_machine : DecisionStateMachine :=
  snd (evaluate example_id (example_verdict VerdictResult.ALLOW) "2000" proposed_machine).

Definition allowed_decision : Decision :=
  {| id := example_id;
     state := DecisionState.EVALUATED;
     action := input_action transfer_proposal;
     proposedBy := "agent-1";
     contextRefs := [];
     rationale := None;
     verdict := Some (example_verdict VerdictResult.ALLOW);
     alternativeIds := [];
     proposedAt := "1000";
     evaluatedAt := Some "2000";
     concludedAt := None;
     approval := None |}.

(** The example request once alice has approved it at instant 1500. *)
Definition approved_request : ApprovalRequest :=
  with_status pending_request ApprovalStatus.APPROVED
    (Some {| outcome_decision := approved;
             outcome_decidedBy := "alice";
             outcome_decidedAt := "1500";
             outcome_justification := None;
             outcome_conditions := None;
             automated := false |}).

Definition queue_approved : ApprovalQueue :=
  snd (recordDecision example_request_id approved "alice" None "1500" queue_pending).

(** A contradiction between P2 and P1, as [detectConflicts] builds it. *)
Definition example_conflict : PolicyConflict :=
  createConflict ConflictType.CONTRADICTION [P2; P1] "financial:transfer"
    ("Policies " +:+ dq +:+ "P2" +:+ dq +:+ " and " +:+ dq +:+ "P1" +:+ dq +:+
     " have contradictory enforcement actions") "2000".

(** A rule that sends every contradiction to human review. *)
Definition review_contradictions (priority : Z) : ResolutionRule :=
  {| rule_id := "review-contradictions";
     conflictTypes := [ConflictType.CONTRADICTION];
     rule_strategy := ResolutionStrategy.ESCALATE;
     rule_priority := priority;
     resolver := None |}.

End ExampleData.

(** ** More of core/identity/content-address.ts *)

(** [s.indexOf(c)] for a one character string [c]; [None] is -1. *)
Fixpoint indexOf_char (c : ascii) (s : string) : option nat :=
  match s with
  | EmptyString => None
  | String x rest =>
      if Ascii.eqb x c then Some 0
      else match indexOf_char c rest with
           | Some i => Some (S i)
           | None => None
           end
  end.

(** [s.slice(n)] *)
Fixpoint slice_from (n : nat) (s : string) : string :=
  match n, s with
  | S n', String _ rest => slice_from n' rest
  | _, _ => s
  end.

Record ParsedAddress := {
  parsed_algorithm : string;
  parsed_hash : string
}.

Definition parseContentAddress (address : string) : option ParsedAddress :=
  match indexOf_char ":"%char address with
  | None => None
  | Some colonIndex =>
      let algorithmPart := slice_to colonIndex address in
      let hashPart := slice_from (colonIndex + 1) address in
      if String.eqb algorithmPart EmptyString || String.eqb hashPart EmptyString then None
      else Some {| parsed_algorithm := algorithmPart; parsed_hash := hashPart |}
  end.

Definition createContentAddress (algorithm : HashAlgorithmValue) (hash : string) : string :=
  HashAlgorithm_name algorithm +:+ ":" +:+ hash.

(** [Object.values(HashAlgorithm)] *)
Definition supportedAlgorithms : list string :=
  [HashAlgorithm_name SHA256; HashAlgorithm_name SHA384; HashAlgorithm_name SHA512].

Definition is_hex_digit (c : ascii) : bool :=
  let n := nat_of_ascii c in
  ((48 <=? n) && (n <=? 57) || (97 <=? n) && (n <=? 102) || (65 <=? n) && (n <=? 70))%nat.

Fixpoint all_hex (s : string) : bool :=
  match s with
  | EmptyString => true
  | String c rest => is_hex_digit c && all_hex rest
  end.

(** The test of the regular expression of [isValidContentAddress]: one or
    more hexadecimal digits of either case, and nothing else. *)
Definition hex_test (s : string) : bool :=
  negb (String.eqb s EmptyString) && all_hex s.

Definition isValidContentAddress (address : string) : bool :=
  match parseContentAddress address with
  | None => false
  | Some parsed =>
      if negb (includes supportedAlgorithms (parsed_algorithm parsed)) then false
      else hex_test (parsed_hash parsed)
  end.

Definition HashAlgorithm_of_name (name : string) : option HashAlgorithmValue :=
  if String.eqb name "sha256" then Some SHA256
  else if String.eqb name "sha384" then Some SHA384
  else if String.eqb name "sha512" then Some SHA512
  else None.

Section VerifyContentAddress.
Context `{RT : JSRuntime}.

(** [createHash(name).update(s, 'utf8').digest('hex')] for a name outside
    [HashAlgorithm], which the cast of [verifyContentAddress] lets through:
    the digest, or the message of the error [createHash] throws. *)
Variable digest_by_other_name : string -> string -> Result string string.

Definition verifyContentAddress (content : JSValue) (address : ContentAddress)
  (config : option ContentAddressConfig) : Result string bool :=
  match parseContentAddress address with
  | None => Ok false
  | Some parsed =>
      (* [config?.truncateLength !== undefined] *)
      let truncation := config ≫= truncateLength in
      match HashAlgorithm_of_name (parsed_algorithm parsed) with
      | Some known =>
          Ok (String.eqb
                (computeContentAddress_with content
                   {| algorithm := known; truncateLength := truncation |})
                address)
      | None =>
          match digest_by_other_name (parsed_algorithm parsed) (canonicalize content) with
          | Err message => Err message
          | Ok hash =>
              let finalHash := truncated truncation hash in
              Ok (String.eqb (parsed_algorithm parsed +:+ ":" +:+ finalHash) address)
          end
      end
  end.

End VerifyContentAddress.

(** ** More of policy/schema.ts *)

(** [s.split(sep)] for a one character separator. *)
Fixpoint split_on (sep : ascii) (s : string) : list string :=
  match s with
  | EmptyString => [EmptyString]
  | String c rest =>
      if Ascii.eqb c sep then EmptyString :: split_on sep rest
      else
        match split_on sep rest with
        | head :: parts => String c head :: parts
        | [] => [String c EmptyString]
        end
  end.

Section PolicyVersions.

(** [parseInt(s, 10)]; [None] is [NaN]. Version components are integers. *)
Variable parseInt10 : string -> option Z.

(** [parseInt(n, 10) || 0] *)
Definition version_component (n : string) : Z :=
  match parseInt10 n with
  | Some z => z
  | None => 0%Z
  end.

Definition parseVersion (v : string) : list Z :=
  map version_component (split_on "."%char v).

(** The loop of [comparePolicyVersions] with [steps] indices left to visit;
    [vA] and [vB] are the two arrays from the current index on, and an
    exhausted array reads [undefined], replaced by 0. *)
Fixpoint compare_components (steps : nat) (vA vB : list Z) : Z :=
  match steps with
  | O => 0%Z
  | S later =>
      let numA := default 0%Z (head vA) in
      let numB := default 0%Z (head vB) in
      if negb (numA =? numB)%Z then (numA - numB)%Z
      else compare_components later (tail vA) (tail vB)
  end.

Definition comparePolicyVersions (a b : string) : Z :=
  let vA := parseVersion a in
  let vB := parseVersion b in
  let maxLen := Nat.max (length vA) (length vB) in
  compare_components maxLen vA vB.

End PolicyVersions.

(** ** More of policy/evaluator.ts *)

Definition RuleFormat_eqb (a b : RuleFormatValue) : bool :=
  match a, b with
  | RuleFormat.JAVASCRIPT, RuleFormat.JAVASCRIPT
  | RuleFormat.JSON_LOGIC, RuleFormat.JSON_LOGIC
  | RuleFormat.REGO, RuleFormat.REGO
  | RuleFormat.CUSTOM, RuleFormat.CUSTOM
  | RuleFormat.EXPRESSION, RuleFormat.EXPRESSION => true
  | _, _ => false
  end.

Section EvaluatorRegistry.
Context `{RT : JSRuntime}.

(** [evaluators.set(format, evaluator)] on the map of the registry. *)
Definition evaluators_set (format : RuleFormatValue) (evaluator : RuleEvaluator)
  (evaluators : RuleFormatValue -> option RuleEvaluator)
  : RuleFormatValue -> option RuleEvaluator :=
  fun f => if RuleFormat_eqb f format then Some evaluator else evaluators f.

(** The map of [createRuleEvaluatorRegistry()] after its two [set] calls,
    over the two built-in evaluators. *)
Definition default_evaluators (expressionEvaluator javaScriptEvaluator : RuleEvaluator)
  : RuleFormatValue -> option RuleEvaluator :=
  evaluators_set RuleFormat.JAVASCRIPT javaScriptEvaluator
    (evaluators_set RuleFormat.EXPRESSION expressionEvaluator (fun _ => None)).

(** [PolicyEvaluator.registerEvaluator], that is [registry.register], on the
    registry of [createRuleEvaluatorRegistry]. *)
Definition registerEvaluator (format : RuleFormatValue) (evaluator : RuleEvaluator)
  (evaluators : RuleFormatValue -> option RuleEvaluator) : RuleEvaluatorRegistry :=
  createRuleEvaluatorRegistry (evaluators_set format evaluator evaluators).

(** The verdict results from the least to the most restrictive. *)
Definition restrictiveness (result : VerdictResultValue) : nat :=
  match result with
  | VerdictResult.ALLOW => 0
  | VerdictResult.ANNOTATE => 1
  | VerdictResult.ESCALATE => 2
  | VerdictResult.DENY => 3
  end.

(** The verdict of [evaluateAll], without the trace. *)
Definition verdict_of (registry : RuleEvaluatorRegistry) (policies : list PolicyDefinition)
  (context : PolicyEvaluationContext) (evaluatedAt : Timestamp) (elapsedMs : number)
  : Result Thrown DecisionVerdict :=
  outcome (evaluateAll registry policies context evaluatedAt elapsedMs).

End EvaluatorRegistry.

(** ** More of approval.ts *)

(** [a < b] on two strings: the order of their code units. *)
Definition string_lt (a b : string) : bool :=
  match code_unit_compare a b with
  | Lt => true
  | _ => false
  end.

(** The parameter of [processTimeouts]. *)
Inductive TimeoutAction := timeout_reject | timeout_escalate.

Section ApprovalQueueMore.
Context `{RT : JSRuntime}.

Definition getRequestForDecision (q : ApprovalQueue) (decisionId : ContentAddress)
  : option ApprovalRequest :=
  let requestId := byDecision q !! decisionId in
  if truthy requestId then requestId ≫= (fun id => requests q !! id) else None.

Definition getPendingForApprover (q : ApprovalQueue) (approverId : ContentAddress)
  : list ApprovalRequest :=
  match byApprover q !! approverId with
  | None => []
  | Some requestIds =>
      List.filter (fun r => is_open (request_status r))
        (omap (fun id => requests q !! id) requestIds)
  end.

(** The condition of the loop of [processTimeouts]. *)
Definition has_timed_out (request : ApprovalRequest) (now : Timestamp) : bool :=
  is_open (request_status request) && string_lt (request_expiresAt request) now.

(** [updatedRequest] of [processTimeouts]; both values of [defaultAction]
    give the decision 'rejected'. *)
Definition timed_out (defaultAction : TimeoutAction) (now : Timestamp)
  (request : ApprovalRequest) : ApprovalRequest :=
  with_status request ApprovalStatus.TIMED_OUT
    (Some {| outcome_decision :=
               match defaultAction with
               | timeout_reject => rejected
               | timeout_escalate => rejected
               end;
             outcome_decidedBy := requestedBy request;
             outcome_decidedAt := now;
             outcome_justification := Some "Approval request timed out";
             outcome_conditions := None;
             automated := true |}).

(** What [processTimeouts] makes of a stored request. *)
Definition after_timeout (defaultAction : TimeoutAction) (now : Timestamp)
  (request : ApprovalRequest) : ApprovalRequest :=
  if has_timed_out request now then timed_out defaultAction now request else request.

(** One round of the loop of [processTimeouts], on the entry with key [id]. *)
Definition processTimeouts_body (defaultAction : TimeoutAction) (now : Timestamp)
  (st : list ApprovalRequest * ApprovalQueue) (id : ContentAddress)
  : list ApprovalRequest * ApprovalQueue :=
  match requests (snd st) !! id with
  | None => st
  | Some request =>
      if has_timed_out request now then
        let updatedRequest := timed_out defaultAction now request in
        ((fst st ++ [updatedRequest])%list, snd (requests_set id updatedRequest (snd st)))
      else st
  end.

(** [processTimeouts]: [now] is [new Date().toISOString()], and
    [insertionOrder] the keys of [requests] in the order the [Map] iterates
    them, which the finite map of the model does not keep. Setting the value
    of a key that is present does not change that order. *)
Definition processTimeouts (insertionOrder : list ContentAddress)
  (defaultAction : TimeoutAction) (now : Timestamp) (q : ApprovalQueue)
  : list ApprovalRequest * ApprovalQueue :=
  fold_left (processTimeouts_body defaultAction now) insertionOrder ([], q).

(** A call of one of the methods that resolve requests, with its arguments
    and clock reading. *)
Inductive QueueCall :=
| CallStartReview (requestId reviewerId : ContentAddress)
| CallRecordDecision (requestId : ContentAddress) (decision : ApprovalChoice)
    (decidedBy : ContentAddress) (options : option DecisionOptions) (decidedAt : Timestamp)
| CallWithdraw (requestId withdrawnBy : ContentAddress)
| CallProcessTimeouts (insertionOrder : list ContentAddress)
    (defaultAction : TimeoutAction) (now : Timestamp).

(** The queue after a call, whatever it returned or threw. *)
Definition queue_after (c : QueueCall) (q : ApprovalQueue) : ApprovalQueue :=
  match c with
  | CallStartReview requestId reviewerId => snd (startReview requestId reviewerId q)
  | CallRecordDecision requestId decision decidedBy options decidedAt =>
      snd (recordDecision requestId decision decidedBy options decidedAt q)
  | CallWithdraw requestId withdrawnBy => snd (withdraw requestId withdrawnBy q)
  | CallProcessTimeouts insertionOrder defaultAction now =>
      snd (processTimeouts insertionOrder defaultAction now q)
  end.

Definition queue_after_calls (cs : list QueueCall) (q : ApprovalQueue) : ApprovalQueue :=
  fold_left (fun q c => queue_after c q) cs q.

(** The queues a program can build. *)
Inductive reachable_queue : ApprovalQueue -> Prop :=
| reachable_queue_fresh : reachable_queue createApprovalQueue
| reachable_queue_create q input createdAt nowMs :
    reachable_queue q -> reachable_queue (snd (createRequest input createdAt nowMs q))
| reachable_queue_call q c :
    reachable_queue q -> reachable_queue (queue_after c q).

(** What the status of a request says about its outcome. *)
Definition outcome_fits (request : ApprovalRequest) : Prop :=
  match request_status request with
  | ApprovalStatus.PENDING | ApprovalStatus.IN_REVIEW | ApprovalStatus.WITHDRAWN =>
      request_outcome request = None
  | ApprovalStatus.APPROVED =>
      exists o, request_outcome request = Some o /\ outcome_decision o = approved /\
                automated o = false /\ In (outcome_decidedBy o) (approvers request)
  | ApprovalStatus.REJECTED =>
      exists o, request_outcome request = Some o /\ outcome_decision o = rejected /\
                automated o = false /\ In (outcome_decidedBy o) (approvers request)
  | ApprovalStatus.TIMED_OUT =>
      exists o, request_outcome request = Some o /\ outcome_decision o = rejected /\
                automated o = true /\ outcome_decidedBy o = requestedBy request /\
                outcome_justification o = Some "Approval request timed out"
  end.

(** A step that leaves the queue as it is, or replaces one open request by
    a copy with another status and outcome. *)
Definition resolves_at_most_one (q q' : ApprovalQueue) : Prop :=
  q' = q \/
  exists id r status outcome,
    requests q !! id = Some r /\ is_open (request_status r) = true /\
    (outcome_fits r -> outcome_fits (with_status r status outcome)) /\
    q' = snd (requests_set id (with_status r status outcome) q).

(** Every stored request is stored under its id, has the outcome its status
    stands for, is indexed under each of its approvers, and its decision is
    indexed. *)
Definition consistent_queue (q : ApprovalQueue) : Prop :=
  forall id r, requests q !! id = Some r ->
    request_id r = id /\ outcome_fits r /\
    (forall a, In a (approvers r) -> In id (default [] (byApprover q !! a))) /\
    is_Some (byDecision q !! request_decisionId r).

End ApprovalQueueMore.

(** ** More of safety/conflict-resolver.ts *)

Section ConflictResolverMore.
Context `{RT : JSRuntime}.

Definition findPoliciesForAction (r : ConflictResolver) (action : DecisionAction)
  : list PolicyDefinition :=
  List.filter (fun policy => scopeMatches (scope_pattern_or_star policy) (action_type action))
    (Map_values (policies r)).

(** [{ ...conflict, triggeringAction: action }] *)
Definition with_triggeringAction (conflict : PolicyConflict) (action : DecisionAction)
  : PolicyConflict :=
  {| conflict_id := conflict_id conflict;
     conflict_type := conflict_type conflict;
     conflict_policies := conflict_policies conflict;
     conflict_scope := conflict_scope conflict;
     conflict_description := conflict_description conflict;
     severity := severity conflict;
     detectedAt := detectedAt conflict;
     triggeringAction := Some action |}.

(** What one pair of relevant policies pushes in [detectConflictsForAction],
    still without the clock reading of [createConflict]. *)
Definition action_conflicts_of_pair (action : DecisionAction)
  (pair : PolicyDefinition * PolicyDefinition) : list (Timestamp -> PolicyConflict) :=
  let '(p1, p2) := pair in
  if isContradiction p1 p2 then
    [fun detectedAt =>
       with_triggeringAction
         (createConflict ConflictType.CONTRADICTION [p1; p2] (action_type action)
            ("Contradictory policies for action " +:+ dq +:+ action_type action +:+ dq)
            detectedAt)
         action]
  else [].

(** [detectConflictsForAction]: the conflicts are returned, not stored. *)
Definition detectConflictsForAction (clock : nat -> Timestamp) (r : ConflictResolver)
  (action : DecisionAction) : list PolicyConflict :=
  let relevantPolicies := findPoliciesForAction r action in
  if (length relevantPolicies <? 2)%nat then []
  else created_from clock 0
         (flat_map (action_conflicts_of_pair action) (pairs_in_order relevantPolicies)).

Definition getConflict (r : ConflictResolver) (id : ContentAddress) : option PolicyConflict :=
  assoc_get id (conflicts r).




(** The rules of a new resolver, in the order the four sorting
    registrations leave them. *)
Definition default_rules : list ResolutionRule :=
  [{| rule_id := "default-overlap";
      conflictTypes := [ConflictType.OVERLAP];
      rule_strategy := ResolutionStrategy.MOST_SPECIFIC;
      rule_priority := 100; resolver := None |};
   {| rule_id := "default-contradiction";
      conflictTypes := [ConflictType.CONTRADICTION];
      rule_strategy := ResolutionStrategy.MOST_RESTRICTIVE;
      rule_priority := 100; resolver := None |};
   {| rule_id := "default-circular";
      conflictTypes := [ConflictType.CIRCULAR];
      rule_strategy := ResolutionStrategy.ESCALATE;
      rule_priority := 100; resolver := None |};
   {| rule_id := "default-ambiguous";
      conflictTypes := [ConflictType.AMBIGUOUS_PRIORITY];
      rule_strategy := ResolutionStrategy.NEWEST;
      rule_priority := 50; resolver := None |}].

(** The priority of the default rule for a conflict type, if there is one. *)
Definition default_rule_priority (type : ConflictTypeValue) : option Z :=
  match type with
  | ConflictType.OVERLAP | ConflictType.CONTRADICTION | ConflictType.CIRCULAR => Some 100%Z
  | ConflictType.AMBIGUOUS_PRIORITY => Some 50%Z
  | ConflictType.RESOURCE_CONTENTION => None
  end.

End ConflictResolverMore.

(** ** policy/enforcement.ts *)

Inductive RequiredStepType := step_approval | step_review | step_acknowledgment | step_custom.

Inductive EscalationPriority :=
  priority_low | priority_medium | priority_high | priority_critical.

Inductive EscalationStatus :=
  escalation_pending | escalation_approved | escalation_rejected | escalation_expired.

Section PolicyEnforcement.
Context `{RT : JSRuntime}.

Record RequiredStep := {
  step_type : RequiredStepType;
  step_assignee : option ContentAddress;
  step_description : string;
  step_deadline : option Timestamp
}.

Record EnforcementAction := {
  enforcement_type : EnforcementModeValue;
  action_canProceed : bool;
  action_reason : string;
  action_requiredSteps : option (list RequiredStep);
  action_annotations : list string;
  action_timestamp : Timestamp
}.

Record EscalationRequest := {
  escalation_id : ContentAddress;
  escalation_decisionId : ContentAddress;
  triggeringPolicies : list ContentAddress;
  escalation_assignees : list ContentAddress;
  escalation_priority : EscalationPriority;
  escalation_deadline : option Timestamp;
  escalation_status : EscalationStatus;
  escalation_createdAt : Timestamp
}.

(** The configuration of the enforcer. A callback returns normally ([None])
    or throws; [enforce] awaits it. A property that is absent is [None]. The
    shadow observation settings are left out with the shadow log. *)
Record EnforcementConfig := {
  escalationTimeoutHours : option Duration;
  defaultEscalationAssignees : option (list ContentAddress);
  onEscalation : option (EscalationRequest -> option Thrown)
}.

Record PolicyEnforcer := {
  enforcer_config : EnforcementConfig
}.

(** [new PolicyEnforcer(config)]: the defaults, then the keys of [config]. *)
Definition createPolicyEnforcer (config : option EnforcementConfig) : PolicyEnforcer :=
  let given :=
    default {| escalationTimeoutHours := None; defaultEscalationAssignees := None;
               onEscalation := None |} config in
  {| enforcer_config :=
       {| escalationTimeoutHours := Some (default (Whole 24) (escalationTimeoutHours given));
          defaultEscalationAssignees := defaultEscalationAssignees given;
          onEscalation := onEscalation given |} |}.

(** The names of the policy results whose id is in [ids]. *)
Definition policy_names_of (verdict : DecisionVerdict) (ids : list ContentAddress)
  : list string :=
  map entry_policyName
    (List.filter (fun pr => includes ids (entry_policyId pr)) (policyResults verdict)).

Definition handleBlock (verdict : DecisionVerdict) (timestamp : Timestamp) : EnforcementAction :=
  let blockingPolicyNames := policy_names_of verdict (blockingPolicies verdict) in
  {| enforcement_type := EnforcementMode.BLOCK;
     action_canProceed := false;
     action_reason := "Blocked by policies: " +:+ String.concat ", " blockingPolicyNames;
     action_requiredSteps := None;
     action_annotations := verdict_annotations verdict;
     action_timestamp := timestamp |}.

Definition handleAnnotate (verdict : DecisionVerdict) (timestamp : Timestamp)
  : EnforcementAction :=
  {| enforcement_type := EnforcementMode.ANNOTATE;
     action_canProceed := true;
     action_reason := "Decision allowed with annotations";
     action_requiredSteps := None;
     action_annotations := verdict_annotations verdict;
     action_timestamp := timestamp |}.

Definition handleAllow (verdict : DecisionVerdict) (timestamp : Timestamp)
  : EnforcementAction :=
  {| enforcement_type := EnforcementMode.SHADOW;
     action_canProceed := true;
     action_reason := "All policies passed";
     action_requiredSteps := None;
     action_annotations := [];
     action_timestamp := timestamp |}.

Definition determinePriority (verdict : DecisionVerdict) : EscalationPriority :=
  if (0 <? length (blockingPolicies verdict))%nat then priority_critical
  else if (2 <? length (escalatingPolicies verdict))%nat then priority_high
  else if (0 <? length (escalatingPolicies verdict))%nat then priority_medium
  else priority_low.

(** The [RangeError] that [toISOString] throws on an invalid date, with the
    message V8 gives it. *)
Definition invalid_time_value : Thrown := ThrownError "Invalid time value".

(** The [deadline] of [createEscalationRequest]; [nowMs] is [Date.now()]. A
    falsy number of hours gives no deadline; a date that is not valid makes
    [toISOString] throw. *)
Definition escalation_deadline_at (enforcer : PolicyEnforcer) (nowMs : Z)
  : Result Thrown (option Timestamp) :=
  match escalationTimeoutHours (enforcer_config enforcer) with
  | Some hours =>
      if duration_truthy hours then
        match time_after nowMs (hours_to_ms hours) with
        | Some deadline => Ok (Some (Date_toISOString deadline))
        | None => Err invalid_time_value
        end
      else Ok None
  | None => Ok None
  end.

Definition createEscalationRequest (enforcer : PolicyEnforcer) (verdict : DecisionVerdict)
  (timestamp : Timestamp) (nowMs : Z) : Result Thrown EscalationRequest :=
  match escalation_deadline_at enforcer nowMs with
  | Err thrown => Err thrown
  | Ok deadline =>
      Ok {| escalation_id :=
              "escalation:" +:+ verdict_decisionId verdict +:+ ":" +:+ timestamp;
            escalation_decisionId := verdict_decisionId verdict;
            triggeringPolicies := escalatingPolicies verdict;
            escalation_assignees :=
              default [] (defaultEscalationAssignees (enforcer_config enforcer));
            escalation_priority := determinePriority verdict;
            escalation_deadline := deadline;
            escalation_status := escalation_pending;
            escalation_createdAt := timestamp |}
  end.

(** The action [handleEscalate] returns for an escalation request. *)
Definition escalate_action (verdict : DecisionVerdict) (timestamp : Timestamp)
  (escalationRequest : EscalationRequest) : EnforcementAction :=
  let escalatingPolicyNames := policy_names_of verdict (escalatingPolicies verdict) in
  {| enforcement_type := EnforcementMode.ESCALATE;
     action_canProceed := false;
     action_reason :=
       "Requires approval due to: " +:+ String.concat ", " escalatingPolicyNames;
     action_requiredSteps :=
       Some [{| step_type := step_approval;
                step_assignee := None;
                step_description :=
                  "Approval required for decision " +:+ verdict_decisionId verdict;
                step_deadline := escalation_deadline escalationRequest |}];
     action_annotations :=
       (verdict_annotations verdict ++
        ["ESCALATION:" +:+ escalation_id escalationRequest])%list;
     action_timestamp := timestamp |}.

(** [handleEscalate]: the requests handed to the callback, and the action or
    what was thrown, by [createEscalationRequest] or by the callback. *)
Definition handleEscalate (enforcer : PolicyEnforcer) (verdict : DecisionVerdict)
  (timestamp : Timestamp) (nowMs : Z)
  : list EscalationRequest * Result Thrown EnforcementAction :=
  match createEscalationRequest enforcer verdict timestamp nowMs with
  | Err thrown => ([], Err thrown)
  | Ok escalationRequest =>
      let action := escalate_action verdict timestamp escalationRequest in
      match onEscalation (enforcer_config enforcer) with
      | None => ([], Ok action)
      | Some callback =>
          match callback escalationRequest with
          | Some thrown => ([escalationRequest], Err thrown)
          | None => ([escalationRequest], Ok action)
          end
      end
  end.

(** [enforce]: [timestamp] is [new Date().toISOString()]. *)
Definition enforce (enforcer : PolicyEnforcer) (verdict : DecisionVerdict)
  (timestamp : Timestamp) (nowMs : Z)
  : list EscalationRequest * Result Thrown EnforcementAction :=
  match verdict_result verdict with
  | VerdictResult.DENY => ([], Ok (handleBlock verdict timestamp))
  | VerdictResult.ANNOTATE => ([], Ok (handleAnnotate verdict timestamp))
  | VerdictResult.ESCALATE => handleEscalate enforcer verdict timestamp nowMs
  | VerdictResult.ALLOW => ([], Ok (handleAllow verdict timestamp))
  end.

Definition canProceed (action : EnforcementAction) : bool := action_canProceed action.

Definition requiresApproval (action : EnforcementAction) : bool :=
  EnforcementMode.eqb (enforcement_type action) EnforcementMode.ESCALATE.

Definition isBlocked (action : EnforcementAction) : bool :=
  EnforcementMode.eqb (enforcement_type action) EnforcementMode.BLOCK.

End PolicyEnforcement.

(** ** escalation.ts, the escalation pathways *)

Module EscalationTrigger.
Inductive t :=
  POLICY_ESCALATE | RISK_THRESHOLD | ANOMALY_DETECTED | AUTHORITY_INSUFFICIENT
| MANUAL_REQUEST | POLICY_CONFLICT | TIME_SENSITIVE.
Definition name (trigger : t) : string :=
  match trigger with
  | POLICY_ESCALATE => "POLICY_ESCALATE" | RISK_THRESHOLD => "RISK_THRESHOLD"
  | ANOMALY_DETECTED => "ANOMALY_DETECTED"
  | AUTHORITY_INSUFFICIENT => "AUTHORITY_INSUFFICIENT"
  | MANUAL_REQUEST => "MANUAL_REQUEST" | POLICY_CONFLICT => "POLICY_CONFLICT"
  | TIME_SENSITIVE => "TIME_SENSITIVE"
  end.
Definition eqb (a b : t) : bool :=
  match a, b with
  | POLICY_ESCALATE, POLICY_ESCALATE | RISK_THRESHOLD, RISK_THRESHOLD
  | ANOMALY_DETECTED, ANOMALY_DETECTED | AUTHORITY_INSUFFICIENT, AUTHORITY_INSUFFICIENT
  | MANUAL_REQUEST, MANUAL_REQUEST | POLICY_CONFLICT, POLICY_CONFLICT
  | TIME_SENSITIVE, TIME_SENSITIVE => true
  | _, _ => false
  end.
End EscalationTrigger.
Abbreviation EscalationTriggerValue := EscalationTrigger.t.

Module EscalationLevel.
Inductive t := L1 | L2 | L3 | L4.
Definition value (level : t) : Z :=
  match level with L1 => 1 | L2 => 2 | L3 => 3 | L4 => 4 end.
(** The level as a template literal prints it. *)
Definition digit (level : t) : string :=
  match level with L1 => "1" | L2 => "2" | L3 => "3" | L4 => "4" end.
Definition eqb (a b : t) : bool :=
  match a, b with
  | L1, L1 | L2, L2 | L3, L3 | L4, L4 => true
  | _, _ => false
  end.
End EscalationLevel.
Abbreviation EscalationLevelValue := EscalationLevel.t.

Inductive ConditionType :=
  cond_scope_pattern | cond_risk_level | cond_amount_threshold | cond_actor_type | cond_custom.

Inductive ConditionOperator :=
  op_equals | op_contains | op_greater_than | op_less_than | op_matches.

Inductive EscalationEventType := event_started | event_escalated | event_resolved | event_timed_out.

Section EscalationPathways.
Context `{RT : JSRuntime}.

(** [condition.value]: a string, a number or a boolean. *)
Inductive ConditionValue :=
| value_string (s : string)
| value_number (n : number)
| value_boolean (b : bool).

Record EscalationCondition := {
  condition_type : ConditionType;
  condition_operator : ConditionOperator;
  condition_value : ConditionValue;
  condition_field : option string
}.

Record EscalationRule := {
  escalation_rule_id : ContentAddress;
  escalation_rule_name : string;
  escalation_rule_trigger : EscalationTriggerValue;
  escalation_rule_conditions : list EscalationCondition;
  targetLevel : EscalationLevelValue;
  escalation_rule_priority : ApprovalPriorityValue;
  escalation_rule_timeoutMs : Z;
  autoRejectOnTimeout : bool;
  escalation_rule_active : bool
}.

(** [minAuthority] is one of the numbers of [AuthorityLevel]. *)
Record EscalationPathLevel := {
  level : EscalationLevelValue;
  level_approvers : list string;
  minAuthority : Z;
  level_timeoutMs : option Duration;
  requiredApprovals : Z
}.

Record EscalationPath := {
  path_id : ContentAddress;
  scopePattern : string;
  levels : list EscalationPathLevel;
  path_defaultTimeoutMs : Duration
}.

Record EscalationEvent := {
  event_type : EscalationEventType;
  event_level : EscalationLevelValue;
  event_timestamp : Timestamp;
  event_actorId : option ContentAddress;
  event_details : option string
}.

Record EscalationRecord := {
  record_id : ContentAddress;
  record_decisionId : ContentAddress;
  record_trigger : EscalationTriggerValue;
  record_ruleId : option ContentAddress;
  currentLevel : EscalationLevelValue;
  record_pathId : ContentAddress;
  history : list EscalationEvent;
  record_startedAt : Timestamp;
  approvalRequestId : option ContentAddress
}.

Record TriggerEscalationInput := {
  trigger_decision : Decision;
  trigger : EscalationTriggerValue;
  trigger_verdict : option DecisionVerdict;
  trigger_context : ApprovalContext;
  trigger_requestedBy : ContentAddress
}.

(** The five private fields of [EscalationManager]. [rules] and [paths] are
    iterated, so they keep their insertion order. *)
Record EscalationManager := {
  escalation_rules : list (ContentAddress * EscalationRule);
  paths : list (ContentAddress * EscalationPath);
  records : gmap string EscalationRecord;
  recordByDecision : gmap string ContentAddress;
  approvalQueue : ApprovalQueue
}.

Definition createEscalationManager (queue : option ApprovalQueue) : EscalationManager :=
  {| escalation_rules := []; paths := []; records := ∅; recordByDecision := ∅;
     approvalQueue := default createApprovalQueue queue |}.

Inductive EscalationError :=
| NoPathForScope (scope : string)
| NoLevelConfiguration (initialLevel : EscalationLevelValue) (pathId : ContentAddress)
| EscalationRecordNotFound (recordId : ContentAddress)
| EscalationPathNotFound (pathId : ContentAddress)
| ThrownByQueue (e : ApprovalError).

Definition escalation_error_message (e : EscalationError) : string :=
  match e with
  | NoPathForScope scope => "No escalation path found for scope: " +:+ scope
  | NoLevelConfiguration initialLevel pathId =>
      "No configuration for level " +:+ EscalationLevel.digit initialLevel +:+
      " in path " +:+ pathId
  | EscalationRecordNotFound recordId => "Escalation record not found: " +:+ recordId
  | EscalationPathNotFound pathId => "Escalation path not found: " +:+ pathId
  | ThrownByQueue e => approval_error_message e
  end.

Definition Escalation (A : Type) : Type := Prog EscalationManager EscalationError A.

(** A length of time as [canonicalize] sees it: a number, which it renders
    by [String(value)]; of a number that is not finite the model carries that
    string. *)
Definition Duration_toJS (d : Duration) : JSValue :=
  match d with
  | Whole n => JNumber (number_of_Z n)
  | NotANumber => JOther "NaN"
  | Endless false => JOther "Infinity"
  | Endless true => JOther "-Infinity"
  end.

Definition EscalationPathLevel_toJS (l : EscalationPathLevel) : JSValue :=
  JObject ([("level", JNumber (number_of_Z (EscalationLevel.value (level l))));
            ("approvers", JStrings (level_approvers l));
            ("minAuthority", JNumber (number_of_Z (minAuthority l)))] ++
           opt_field "timeoutMs" Duration_toJS (level_timeoutMs l) ++
           [("requiredApprovals", JNumber (number_of_Z (requiredApprovals l)))]).

(** [registerPath(scopePattern, levels, defaultTimeoutMs = 8 * 60 * 60 * 1000)] *)
Definition registerPath (pattern : string) (pathLevels : list EscalationPathLevel)
  (defaultTimeoutMs : option Duration) : Escalation EscalationPath :=
  fun m =>
    let pathData :=
      JObject [("scopePattern", JString pattern);
               ("levels", JArray (map EscalationPathLevel_toJS pathLevels))] in
    let id := computeContentAddress pathData in
    let path :=
      {| path_id := id; scopePattern := pattern; levels := pathLevels;
         path_defaultTimeoutMs := default (Whole (8 * 60 * 60 * 1000)) defaultTimeoutMs |} in
    (Ok path,
     {| escalation_rules := escalation_rules m;
        paths := Map_set String.eqb id path (paths m);
        records := records m;
        recordByDecision := recordByDecision m;
        approvalQueue := approvalQueue m |}).

Definition findPath (m : EscalationManager) (scope : string) : option EscalationPath :=
  array_find (fun path => scopeMatches (scopePattern path) scope) (Map_values (paths m)).

(** The comparison of the amount of a decision with [Number(condition.value)],
    by [>] for [true] and by [<] for [false], with the conversions of
    JavaScript. *)
Variable compare_amount : bool -> JSValue -> ConditionValue -> bool.

(** [String(condition.value)] *)
Definition String_of_value (v : ConditionValue) : string :=
  match v with
  | value_string s => s
  | value_number n => String_of_number n
  | value_boolean true => "true"
  | value_boolean false => "false"
  end.

Definition evaluateCondition (condition : EscalationCondition) (decision : Decision)
  (verdict : option DecisionVerdict) : bool :=
  match condition_type condition with
  | cond_scope_pattern =>
      match verdict with
      | Some v => scopeMatches (String_of_value (condition_value condition)) (verdict_scope v)
      | None => false
      end
  | cond_risk_level => true
  | cond_amount_threshold =>
      match assoc_get "amount" (action_parameters (action decision)) with
      | None | Some JUndefined => true
      | Some amount =>
          compare_amount
            (match condition_operator condition with op_greater_than => true | _ => false end)
            amount (condition_value condition)
      end
  | cond_actor_type => true
  | cond_custom => true
  end.

Definition evaluateConditions (conditions : list EscalationCondition) (decision : Decision)
  (verdict : option DecisionVerdict) : bool :=
  forallb (fun condition => evaluateCondition condition decision verdict) conditions.

Definition findMatchingRule (m : EscalationManager) (wanted : EscalationTriggerValue)
  (decision : Decision) (verdict : option DecisionVerdict) : option EscalationRule :=
  array_find
    (fun rule =>
       escalation_rule_active rule &&
       EscalationTrigger.eqb (escalation_rule_trigger rule) wanted &&
       evaluateConditions (escalation_rule_conditions rule) decision verdict)
    (Map_values (escalation_rules m)).

Definition records_set (recordId : ContentAddress) (record : EscalationRecord)
  (m : EscalationManager) : EscalationManager :=
  {| escalation_rules := escalation_rules m;
     paths := paths m;
     records := <[recordId := record]> (records m);
     recordByDecision := recordByDecision m;
     approvalQueue := approvalQueue m |}.

(** The clock readings of one call that creates an approval request: for the
    event, and in [createRequest] for [createdAt] and [Date.now()]. *)
Record EscalationClock := {
  clock_event : Timestamp;
  clock_createdAt : Timestamp;
  clock_nowMs : Z
}.

Definition triggerEscalation (input : TriggerEscalationInput) (clock : EscalationClock)
  : Escalation (EscalationRecord * ApprovalRequest) :=
  fun m =>
    let decision := trigger_decision input in
    let matchingRule :=
      findMatchingRule m (trigger input) decision (trigger_verdict input) in
    let scope := default "*" (verdict_scope <$> trigger_verdict input) in
    match findPath m scope with
    | None => (Err (NoPathForScope scope), m)
    | Some path =>
        let startedAt := clock_event clock in
        let initialLevel := default EscalationLevel.L1 (targetLevel <$> matchingRule) in
        match array_find (fun l => EscalationLevel.eqb (level l) initialLevel) (levels path) with
        | None => (Err (NoLevelConfiguration initialLevel (path_id path)), m)
        | Some levelConfig =>
            let recordData :=
              JObject [("decisionId", JString (id decision));
                       ("trigger", JString (EscalationTrigger.name (trigger input)));
                       ("pathId", JString (path_id path));
                       ("startedAt", JString startedAt)] in
            let recordId := computeContentAddress recordData in
            let initialEvent :=
              {| event_type := event_started; event_level := initialLevel;
                 event_timestamp := startedAt;
                 event_actorId := Some (trigger_requestedBy input);
                 event_details :=
                   Some ("Escalation triggered: " +:+ EscalationTrigger.name (trigger input)) |} in
            let created :=
              createRequest
                {| create_decisionId := id decision;
                   create_requestedBy := trigger_requestedBy input;
                   create_reason := "Escalation: " +:+ EscalationTrigger.name (trigger input);
                   create_priority :=
                     Some (default ApprovalPriority.NORMAL
                             (escalation_rule_priority <$> matchingRule));
                   create_triggeringPolicyId := escalation_rule_id <$> matchingRule;
                   create_approvers := level_approvers levelConfig;
                   create_timeoutMs :=
                     Some (default (path_defaultTimeoutMs path) (level_timeoutMs levelConfig));
                   create_context := trigger_context input |}
                (clock_createdAt clock) (clock_nowMs clock) (approvalQueue m) in
            match fst created with
            | Err e => (Err (ThrownByQueue e), m)
            | Ok approvalRequest =>
                let record :=
                  {| record_id := recordId;
                     record_decisionId := id decision;
                     record_trigger := trigger input;
                     record_ruleId := escalation_rule_id <$> matchingRule;
                     currentLevel := initialLevel;
                     record_pathId := path_id path;
                     history := [initialEvent];
                     record_startedAt := startedAt;
                     approvalRequestId := Some (request_id approvalRequest) |} in
                (Ok (record, approvalRequest),
                 {| escalation_rules := escalation_rules m;
                    paths := paths m;
                    records := <[recordId := record]> (records m);
                    recordByDecision := <[id decision := recordId]> (recordByDecision m);
                    approvalQueue := snd created |})
            end
        end
    end.

(** [levels.findIndex(...)], with [None] for -1. *)
Fixpoint findIndex {A} (p : A -> bool) (l : list A) : option nat :=
  match l with
  | [] => None
  | x :: xs => if p x then Some 0%nat else S <$> findIndex p xs
  end.

(** [escalateToNextLevel]; [None] is the [null] it returns at the last level. *)
Definition escalateToNextLevel (recordId : ContentAddress) (reason : string)
  (requestedBy : ContentAddress) (clock : EscalationClock)
  : Escalation (option (EscalationRecord * ApprovalRequest)) :=
  fun m =>
    match records m !! recordId with
    | None => (Err (EscalationRecordNotFound recordId), m)
    | Some record =>
        match assoc_get (record_pathId record) (paths m) with
        | None => (Err (EscalationPathNotFound (record_pathId record)), m)
        | Some path =>
            match findIndex (fun l => EscalationLevel.eqb (level l) (currentLevel record))
                    (levels path) with
            | None => (Ok None, m)
            | Some currentLevelIndex =>
                if (currentLevelIndex =? length (levels path) - 1)%nat then (Ok None, m)
                else
                  match levels path !! (currentLevelIndex + 1)%nat with
                  | None => (Ok None, m)
                  | Some nextLevelConfig =>
                      let escalationEvent :=
                        {| event_type := event_escalated;
                           event_level := level nextLevelConfig;
                           event_timestamp := clock_event clock;
                           event_actorId := Some requestedBy;
                           event_details := Some reason |} in
                      let created :=
                        createRequest
                          {| create_decisionId := record_decisionId record;
                             create_requestedBy := requestedBy;
                             create_reason :=
                               "Escalated from L" +:+
                               EscalationLevel.digit (currentLevel record) +:+ " to L" +:+
                               EscalationLevel.digit (level nextLevelConfig) +:+ ": " +:+ reason;
                             create_priority := Some ApprovalPriority.HIGH;
                             create_triggeringPolicyId := None;
                             create_approvers := level_approvers nextLevelConfig;
                             create_timeoutMs :=
                               Some (default (path_defaultTimeoutMs path)
                                       (level_timeoutMs nextLevelConfig));
                             create_context :=
                               {| summary :=
                                    "Escalated decision requiring L" +:+
                                    EscalationLevel.digit (level nextLevelConfig) +:+
                                    " approval";
                                  riskLevel := Risk_HIGH;
                                  impact := reason;
                                  policyExcerpts := None;
                                  relatedDecisionIds := None;
                                  context_metadata := None |} |}
                          (clock_createdAt clock) (clock_nowMs clock) (approvalQueue m) in
                      match fst created with
                      | Err e => (Err (ThrownByQueue e), m)
                      | Ok approvalRequest =>
                          let updatedRecord :=
                            {| record_id := record_id record;
                               record_decisionId := record_decisionId record;
                               record_trigger := record_trigger record;
                               record_ruleId := record_ruleId record;
                               currentLevel := level nextLevelConfig;
                               record_pathId := record_pathId record;
                               history := history record ++ [escalationEvent];
                               record_startedAt := record_startedAt record;
                               approvalRequestId := Some (request_id approvalRequest) |} in
                          (Ok (Some (updatedRecord, approvalRequest)),
                           {| escalation_rules := escalation_rules m;
                              paths := paths m;
                              records := <[recordId := updatedRecord]> (records m);
                              recordByDecision := recordByDecision m;
                              approvalQueue := snd created |})
                      end
                  end
            end
        end
    end.

(** The record with one more event; every other field as it was. *)
Definition with_event (record : EscalationRecord) (event : EscalationEvent)
  : EscalationRecord :=
  {| record_id := record_id record;
     record_decisionId := record_decisionId record;
     record_trigger := record_trigger record;
     record_ruleId := record_ruleId record;
     currentLevel := currentLevel record;
     record_pathId := record_pathId record;
     history := history record ++ [event];
     record_startedAt := record_startedAt record;
     approvalRequestId := approvalRequestId record |}.

Definition resolveEscalation (recordId : ContentAddress) (outcome : ApprovalChoice)
  (resolvedBy : ContentAddress) (details : option string) (timestamp : Timestamp)
  : Escalation EscalationRecord :=
  fun m =>
    match records m !! recordId with
    | None => (Err (EscalationRecordNotFound recordId), m)
    | Some record =>
        let resolveEvent :=
          {| event_type := event_resolved;
             event_level := currentLevel record;
             event_timestamp := timestamp;
             event_actorId := Some resolvedBy;
             event_details :=
               Some (default ("Escalation " +:+
                              match outcome with
                              | approved => "approved"
                              | rejected => "rejected"
                              end) details) |} in
        let updatedRecord := with_event record resolveEvent in
        (Ok updatedRecord, records_set recordId updatedRecord m)
    end.

(** One round of the loop of the manager's [processTimeouts]. The clock is
    read once for each record that gets an event: [clock k] is the reading
    after [k] earlier ones of the call. *)
Definition escalation_timeout_body (clock : nat -> Timestamp)
  (st : list EscalationRecord * EscalationManager) (approval : ApprovalRequest)
  : list EscalationRecord * EscalationManager :=
  let m := snd st in
  let recordId := recordByDecision m !! request_decisionId approval in
  if negb (truthy recordId) then st
  else
    match recordId ≫= (fun recordId => records m !! recordId), recordId with
    | Some record, Some recordId =>
        let timeoutEvent :=
          {| event_type := event_timed_out;
             event_level := currentLevel record;
             event_timestamp := clock (length (fst st));
             event_actorId := None;
             event_details := Some "Approval request timed out" |} in
        let updatedRecord := with_event record timeoutEvent in
        ((fst st ++ [updatedRecord])%list, records_set recordId updatedRecord m)
    | _, _ => st
    end.

(** The manager's [processTimeouts]: [now] is the clock reading of the
    queue's [processTimeouts], [insertionOrder] the order of its requests
    and [clock] the readings of the loop over the timed out approvals. *)
Definition escalation_processTimeouts (insertionOrder : list ContentAddress)
  (now : Timestamp) (clock : nat -> Timestamp) (m : EscalationManager)
  : list EscalationRecord * EscalationManager :=
  let processed := processTimeouts insertionOrder timeout_reject now (approvalQueue m) in
  fold_left (escalation_timeout_body clock) (fst processed)
    ([], {| escalation_rules := escalation_rules m;
            paths := paths m;
            records := records m;
            recordByDecision := recordByDecision m;
            approvalQueue := snd processed |}).

Definition getRecordForDecision (m : EscalationManager) (decisionId : ContentAddress)
  : option EscalationRecord :=
  let recordId := recordByDecision m !! decisionId in
  if truthy recordId then recordId ≫= (fun id => records m !! id) else None.

(** A call on stored escalation records, with its arguments and clock
    readings. *)
Inductive EscalationCall :=
| CallEscalateToNextLevel (recordId : ContentAddress) (reason : string)
    (requestedBy : ContentAddress) (clock : EscalationClock)
| CallResolveEscalation (recordId : ContentAddress) (outcome : ApprovalChoice)
    (resolvedBy : ContentAddress) (details : option string) (timestamp : Timestamp)
| CallEscalationTimeouts (insertionOrder : list ContentAddress) (now : Timestamp)
    (clock : nat -> Timestamp).

(** The manager after a call, whatever it returned or threw. *)
Definition manager_after (c : EscalationCall) (m : EscalationManager) : EscalationManager :=
  match c with
  | CallEscalateToNextLevel recordId reason requestedBy clock =>
      snd (escalateToNextLevel recordId reason requestedBy clock m)
  | CallResolveEscalation recordId outcome resolvedBy details timestamp =>
      snd (resolveEscalation recordId outcome resolvedBy details timestamp m)
  | CallEscalationTimeouts insertionOrder now clock =>
      snd (escalation_processTimeouts insertionOrder now clock m)
  end.

Definition manager_after_calls (cs : list EscalationCall) (m : EscalationManager)
  : EscalationManager :=
  fold_left (fun m c => manager_after c m) cs m.

(** The level a record is at after the events [events], from [start]: that
    of the last 'escalated' event, if any. *)
Definition level_after (start : EscalationLevelValue) (events : list EscalationEvent)
  : EscalationLevelValue :=
  fold_left
    (fun current event =>
       match event_type event with
       | event_escalated => event_level event
       | _ => current
       end)
    events start.

(** [later] is [earlier] with more events, none of them 'started', at the
    level the 'escalated' ones lead to; every other field is as it was but
    for the approval request, which only an escalation replaces. *)
Definition continues (earlier later : EscalationRecord) : Prop :=
  exists more,
    history later = (history earlier ++ more)%list /\
    Forall (fun event => event_type event <> event_started) more /\
    currentLevel later = level_after (currentLevel earlier) more /\
    ((forall event, In event more -> event_type event <> event_escalated) ->
     approvalRequestId later = approvalRequestId earlier) /\
    record_id later = record_id earlier /\
    record_decisionId later = record_decisionId earlier /\
    record_trigger later = record_trigger earlier /\
    record_ruleId later = record_ruleId earlier /\
    record_pathId later = record_pathId earlier /\
    record_startedAt later = record_startedAt earlier.

End EscalationPathways.

(** ** What holds of every stored decision *)

Section LifecycleVocabulary.
Context `{RT : JSRuntime}.

(** The fields of a stored decision agree with its state and with the key it
    is stored under. *)
Definition consistent_decision (key : ContentAddress) (d : Decision) : Prop :=
  id d = key /\
  (state d = DecisionState.PROPOSED ->
   verdict d = None /\ evaluatedAt d = None /\ concludedAt d = None /\ approval d = None) /\
  (verdict d = None <-> evaluatedAt d = None) /\
  (verdict d = None ->
   state d = DecisionState.PROPOSED \/ state d = DecisionState.CANCELLED) /\
  (isTerminalState (state d) = true <-> concludedAt d <> None) /\
  (state d = DecisionState.PENDING_APPROVAL ->
   approval d = None /\
   exists v, verdict d = Some v /\ verdict_result v = VerdictResult.ESCALATE) /\
  (state d = DecisionState.EVALUATED ->
   exists v, verdict d = Some v /\
     (verdict_result v = VerdictResult.ALLOW \/ verdict_result v = VerdictResult.ANNOTATE \/
      (verdict_result v = VerdictResult.ESCALATE /\ approval d <> None))) /\
  (forall a, approval d = Some a ->
   approval_decision a = approved /\
   exists v, verdict d = Some v /\ verdict_result v = VerdictResult.ESCALATE) /\
  (forall v, verdict d = Some v -> verdict_result v = VerdictResult.DENY ->
   state d = DecisionState.REJECTED /\ concludedAt d = evaluatedAt d).

(** The transaction [commit] leaves behind. *)
Definition commit_transaction (decisionId : ContentAddress) (clock : CommitClock)
  : DecisionTransaction :=
  {| txn_id :=
       computeContentAddress
         (JObject [("decisionId", JString decisionId);
                   ("operation", JString "commit");
                   ("startedAt", JString (clock_started clock))]);
     txn_decisionId := decisionId;
     txn_operation := op_commit;
     txn_status := txn_completed;
     txn_startedAt := clock_started clock;
     txn_completedAt := Some (clock_completed clock);
     txn_error := None |}.

End LifecycleVocabulary.

(** ** More example data *)

Section MoreExampleData.
#[local] Existing Instance example_runtime.

(** An escalation of the example decision, at the first level of its path,
    and a manager that holds it. *)
Definition example_escalation : EscalationRecord :=
  {| record_id := "escalation-1";
     record_decisionId := "decision-1";
     record_trigger := EscalationTrigger.POLICY_ESCALATE;
     record_ruleId := None;
     currentLevel := EscalationLevel.L1;
     record_pathId := "path-1";
     history :=
       [{| event_type := event_started; event_level := EscalationLevel.L1;
           event_timestamp := "2000"; event_actorId := Some "system";
           event_details := Some "Escalation triggered: POLICY_ESCALATE" |}];
     record_startedAt := "2000";
     approvalRequestId := Some example_request_id |}.

(** An evaluator that throws an object without a prototype, as in
    [async () => { throw Object.create(null) }], and the [TypeError] that
    [String(error)] throws for such an object. *)
Definition cannot_convert : Thrown :=
  ThrownError "Cannot convert object to primitive value".

Definition throws_bare_object : RuleEvaluator :=
  fun _ _ => Err (ThrownUnprintable cannot_convert).

(** The registry of [createRuleEvaluatorRegistry()] once [registerEvaluator]
    has registered that evaluator for the rego format. *)
Definition registry_with_thrower : RuleEvaluatorRegistry :=
  registerEvaluator RuleFormat.REGO throws_bare_object
    (default_evaluators always_true always_true).

(** A clock that reads 2000 whenever it is read. *)
Definition clock_at_2000 : nat -> Timestamp := fun _ => "2000".

Definition example_manager : EscalationManager :=
  {| escalation_rules := [];
     paths := [];
     records := <["escalation-1" := example_escalation]> ∅;
     recordByDecision := <["decision-1" := "escalation-1"]> ∅;
     approvalQueue := queue_pending |}.

End MoreExampleData.

(** ** Sorting *)

Section Sorting.
Context {A : Type} (cmp : A -> A -> Z).
Local Abbreviation before := (before cmp).

Lemma sort_insert_Permutation (x : A) (l : list A) :
  Permutation (sort_insert cmp x l) (x :: l).
Proof.
  induction l as [|y ys IH]; simpl; [reflexivity|].
  destruct (cmp x y <=? 0)%Z; [reflexivity|].
  rewrite IH. apply perm_swap.
Qed.

Lemma array_sort_Permutation (l : list A) : Permutation (array_sort cmp l) l.
Proof.
  induction l as [|x xs IH]; simpl; [reflexivity|].
  rewrite sort_insert_Permutation. by constructor.
Qed.

Lemma array_sort_length (l : list A) : length (array_sort cmp l) = length l.
Proof. apply Permutation_length, array_sort_Permutation. Qed.

Hypothesis before_total : forall x y, before x y \/ before y x.

Lemma sort_insert_Sorted (x : A) (l : list A) :
  Sorted before l -> Sorted before (sort_insert cmp x l).
Proof.
  induction 1 as [|y ys Hys IH Hhd]; simpl.
  - repeat constructor.
  - destruct (Z.leb_spec (cmp x y) 0) as [Hle|Hgt].
    + constructor; [by constructor | by constructor].
    + constructor; [exact IH|].
      assert (before y x) as Hyx.
      { destruct (before_total x y) as [Hxy|Hyx]; [unfold before in Hxy; lia | exact Hyx]. }
      destruct ys as [|z zs]; simpl.
      * by constructor.
      * destruct (cmp x z <=? 0)%Z; constructor; [exact Hyx | by inversion Hhd].
Qed.

Lemma array_sort_Sorted (l : list A) : Sorted before (array_sort cmp l).
Proof.
  induction l as [|x xs IH]; simpl; [constructor | by apply sort_insert_Sorted].
Qed.

Hypothesis before_trans : forall x y z, before x y -> before y z -> before x z.
Hypothesis before_antisym : forall x y, before x y -> before y x -> x = y.

(** Under a total order the result depends on the elements, not on the
    order they came in. *)
Lemma array_sort_order_independent (l1 l2 : list A) :
  Permutation l1 l2 -> array_sort cmp l1 = array_sort cmp l2.
Proof.
  intros Hperm.
  assert (Transitive before) as Htrans by exact before_trans.
  apply (Sorted_unique_strong before).
  - intros x y _ _. apply before_antisym.
  - apply array_sort_Sorted.
  - apply array_sort_Sorted.
  - rewrite !array_sort_Permutation. exact Hperm.
Qed.

End Sorting.

(** Code unit order on strings is a total order. *)

Lemma compare_Gt_trans (a b c : string) :
  String.compare a b <> Gt -> String.compare b c <> Gt -> String.compare a c <> Gt.
Proof.
  revert b c. induction a as [|x a IH]; intros [|y b] [|z c]; simpl; try congruence.
  unfold Ascii.compare.
  destruct (N.compare_spec (N_of_ascii x) (N_of_ascii y)) as [Hxy|Hxy|Hxy];
    destruct (N.compare_spec (N_of_ascii y) (N_of_ascii z)) as [Hyz|Hyz|Hyz];
    destruct (N.compare_spec (N_of_ascii x) (N_of_ascii z)) as [Hxz|Hxz|Hxz];
    try congruence; try lia.
  apply IH.
Qed.

Lemma code_unit_rank_involutive (byte : ascii) :
  code_unit_rank (code_unit_rank byte) = byte.
Proof. by destruct byte as [[] [] [] [] [] [] [] []]. Qed.

Lemma code_unit_key_inj (a b : string) : code_unit_key a = code_unit_key b -> a = b.
Proof.
  revert b. induction a as [|x a IH]; intros [|y b]; cbn [code_unit_key]; try discriminate;
    [reflexivity|].
  intros [= Hrank Hkey]. f_equal; [|by apply IH].
  by rewrite <-(code_unit_rank_involutive x), Hrank, code_unit_rank_involutive.
Qed.

Lemma default_compare_le (a b : string) :
  before default_compare a b <-> code_unit_compare a b <> Gt.
Proof.
  unfold before, default_compare.
  destruct (code_unit_compare a b); split; intros; try congruence; lia.
Qed.

Lemma default_compare_total (a b : string) :
  before default_compare a b \/ before default_compare b a.
Proof.
  rewrite !default_compare_le. unfold code_unit_compare.
  rewrite (String.compare_antisym (code_unit_key b) (code_unit_key a)).
  destruct (String.compare (code_unit_key a) (code_unit_key b)); simpl; intuition congruence.
Qed.

Lemma default_compare_trans (a b c : string) :
  before default_compare a b -> before default_compare b c -> before default_compare a c.
Proof. rewrite !default_compare_le. apply compare_Gt_trans. Qed.

Lemma default_compare_antisym (a b : string) :
  before default_compare a b -> before default_compare b a -> a = b.
Proof.
  rewrite !default_compare_le. unfold code_unit_compare.
  rewrite (String.compare_antisym (code_unit_key b) (code_unit_key a)).
  destruct (String.compare (code_unit_key a) (code_unit_key b)) eqn:E; simpl; try congruence.
  intros _ _. by apply code_unit_key_inj, String.compare_eq_iff.
Qed.

Lemma sort_keys_order_independent (keys1 keys2 : list string) :
  Permutation keys1 keys2 ->
  array_sort default_compare keys1 = array_sort default_compare keys2.
Proof.
  apply array_sort_order_independent.
  - apply default_compare_total.
  - apply default_compare_trans.
  - apply default_compare_antisym.
Qed.

Section ContentAddressProperties.
Context `{RT : JSRuntime}.

(** ** Properties of the content address *)

(** Induction on JS values that reaches the elements of arrays and the
    property values of objects. *)
Lemma JSValue_nested_ind (P : JSValue -> Prop) :
  P JNull -> P JUndefined ->
  (forall s, P (JString s)) -> (forall n, P (JNumber n)) -> (forall b, P (JBool b)) ->
  (forall items, Forall P items -> P (JArray items)) ->
  (forall fields, Forall (fun kv => P (snd kv)) fields -> P (JObject fields)) ->
  (forall repr, P (JOther repr)) ->
  forall v, P v.
Proof.
  intros Hnull Hundef Hstr Hnum Hbool Harr Hobj Hother.
  fix IH 1. intros [ | | s | n | b | items | fields | repr ].
  - exact Hnull.
  - exact Hundef.
  - apply Hstr.
  - apply Hnum.
  - apply Hbool.
  - apply Harr. induction items as [|x xs IHxs]; constructor; [apply IH | exact IHxs].
  - apply Hobj. induction fields as [|[k x] xs IHxs]; constructor; [apply IH | exact IHxs].
  - apply Hother.
Qed.

(** [canonicalize] on an object, in the words of the source: the sorted own
    keys, each followed by the canonical form of [obj[key]]. *)
Lemma canonicalize_object (fields : list (string * JSValue)) :
  canonicalize (JObject fields) =
  "{" +:+
  String.concat ","
    (map (fun key => JSON_stringify_string key +:+ ":" +:+
                     canonicalize (default JUndefined (assoc_get key fields)))
         (array_sort default_compare (Object_keys fields))) +:+
  "}".
Proof.
  simpl. do 3 f_equal. apply map_ext. intros key. do 2 f_equal.
  unfold rendered_get.
  induction fields as [|[k v] rest IH]; simpl; [reflexivity|].
  destruct (String.eqb k key); [reflexivity | exact IH].
Qed.

Lemma assoc_get_Permutation {V} (key : string) (l1 l2 : list (string * V)) :
  NoDup (map fst l1) -> Permutation l1 l2 -> assoc_get key l1 = assoc_get key l2.
Proof.
  intros Hnodup Hperm.
  induction Hperm as [|[k v] l1 l2 Hperm IH|[k1 v1] [k2 v2] l|l1 l2 l3 H12 IH12 H23 IH23].
  - reflexivity.
  - simpl in *. destruct (String.eqb k key); [reflexivity|].
    apply IH. by apply NoDup_cons in Hnodup as [_ ?].
  - simpl in *.
    destruct (String.eqb k2 key) eqn:E2, (String.eqb k1 key) eqn:E1; try reflexivity.
    apply String.eqb_eq in E1, E2. subst.
    apply NoDup_cons in Hnodup as [Hnotin _]. exfalso. apply Hnotin. by left.
  - rewrite IH12 by exact Hnodup. apply IH23.
    assert (map fst l1 ≡ₚ map fst l2) as <- by (by apply Permutation_map).
    exact Hnodup.
Qed.

Lemma same_fields_keys (R : JSValue -> JSValue -> Prop) (l1 l2 : list (string * JSValue)) :
  Forall2 (fun kv1 kv2 => fst kv1 = fst kv2 /\ R (snd kv1) (snd kv2)) l1 l2 ->
  Object_keys l1 = Object_keys l2.
Proof.
  unfold Object_keys. induction 1 as [|kv1 kv2 l1 l2 [Hk _] _ IH]; simpl; congruence.
Qed.

(** What the induction gives for a value met inside an array or an object. *)
Local Abbreviation order_independent_at v :=
  (forall b, own_keys_unique v = true -> same_content v b -> canonicalize v = canonicalize b).

Lemma canonicalize_property_order_independent (key : string)
  (l1 l2 : list (string * JSValue)) :
  Forall (fun kv => order_independent_at (snd kv)) l1 ->
  forallb (fun kv => let '(_, x) := kv in own_keys_unique x) l1 = true ->
  Forall2 (fun kv1 kv2 => fst kv1 = fst kv2 /\ same_content (snd kv1) (snd kv2)) l1 l2 ->
  canonicalize (default JUndefined (assoc_get key l1)) =
  canonicalize (default JUndefined (assoc_get key l2)).
Proof.
  intros HP Hwf H. induction H as [|[k1 v1] [k2 v2] l1 l2 [Hk Hv] _ IH]; [reflexivity|].
  simpl in *. subst k2.
  apply andb_prop in Hwf as [Hwf1 Hwf].
  inversion HP as [|? ? HP1 HPrest]; subst.
  destruct (String.eqb k1 key); simpl.
  - by apply HP1.
  - by apply IH.
Qed.

Lemma canonicalize_order_independent (a : JSValue) : order_independent_at a.
Proof.
  induction a as [ | | s | n | b | items IH | fields IH | repr ] using JSValue_nested_ind;
    intros b' Hwf Hsame; try (by inversion Hsame).
  - inversion Hsame as [|? items2 Hitems|]; subst; [reflexivity|].
    simpl in *. do 3 f_equal. clear Hsame.
    induction Hitems as [|x y xs ys Hxy _ IHitems]; [reflexivity|].
    simpl in *. apply andb_prop in Hwf as [Hx Hxs].
    inversion IH as [|? ? IHx IHxs]; subst.
    f_equal; [by apply IHx | by apply IHitems].
  - inversion Hsame as [| |? reordered fields2 Hperm Hfields]; subst; [reflexivity|].
    rewrite !canonicalize_object.
    simpl in Hwf. apply andb_prop in Hwf as [Hnodup Hwf].
    apply bool_decide_eq_true in Hnodup.
    assert (array_sort default_compare (Object_keys fields) =
            array_sort default_compare (Object_keys fields2)) as ->.
    { rewrite <-(same_fields_keys _ _ _ Hfields).
      apply sort_keys_order_independent. by apply Permutation_map. }
    do 3 f_equal. apply map_ext. intros key. do 2 f_equal.
    rewrite (assoc_get_Permutation key fields reordered Hnodup Hperm).
    apply canonicalize_property_order_independent; [| |exact Hfields].
    + eapply Permutation_Forall; [exact Hperm | exact IH].
    + rewrite forallb_forall in Hwf |- *. intros kv Hin.
      apply Hwf. eapply Permutation_in; [symmetry; exact Hperm | exact Hin].
Qed.

(** C9. [computeContentAddress] does not depend on the order in which the
    keys of an object, at any depth of the hashed value, are enumerated: two
    values with the same content receive the same address, for the default
    configuration and for any other. That two calls on one value agree is the
    case [b = a]; the embedding is a function of the value and the
    configuration because the source reads nothing else. *)
Theorem computeContentAddress_key_order_independent
  (a b : JSValue) (config : ContentAddressConfig) :
  own_keys_unique a = true ->
  same_content a b ->
  computeContentAddress a = computeContentAddress b /\
  computeContentAddress_with a config = computeContentAddress_with b config.
Proof.
  intros Hwf Hsame.
  unfold computeContentAddress, computeContentAddress_with.
  by rewrite (canonicalize_order_independent a b Hwf Hsame).
Qed.

End ContentAddressProperties.

Section PolicyEvaluatorProperties.
Context `{RT : JSRuntime}.

(** ** Properties of the policy evaluation engine *)

Lemma isPolicyActive_false_iff (policy : PolicyDefinition) (asOf : Timestamp) :
  isPolicyActive policy asOf = false <-> outside_activation_window policy asOf.
Proof.
  unfold isPolicyActive, outside_activation_window.
  destruct (policy_status policy) eqn:Hstatus; simpl;
    try (split; [intros _; left; congruence | reflexivity]).
  destruct (time_lt _ _) eqn:Hlt; [split; [intros _; right; by left | reflexivity]|].
  destruct (expiresAt (policy_activation policy)) as [expires|] eqn:Hexp.
  - destruct (String.eqb expires EmptyString) eqn:Hempty.
    + apply String.eqb_eq in Hempty. subst expires.
      split; [discriminate|].
      intros [H|[H|(e & He & Hne & _)]]; [congruence | discriminate | congruence].
    + apply String.eqb_neq in Hempty.
      destruct (time_ge _ _) eqn:Hge.
      * split; [|reflexivity]. intros _. right; right. by exists expires.
      * split; [discriminate|].
        intros [H|[H|(e & He & _ & Hge')]]; [congruence | discriminate |].
        injection He as <-. congruence.
  - split; [discriminate|].
    intros [H|[H|(e & He & _)]]; [congruence | discriminate | discriminate].
Qed.

(** C5. A policy that [isPolicyActive] rejects at the context's timestamp,
    that is one whose status is not ACTIVE or for which the timestamp lies
    outside the half-open window from [activatesAt] to [expiresAt], passes
    vacuously: [evaluatePolicy] returns [passed = true] with no annotation,
    and the registry is not called. *)
Theorem evaluatePolicy_inactive_passes_vacuously
  (registry : RuleEvaluatorRegistry) (policy : PolicyDefinition)
  (context : PolicyEvaluationContext) :
  isPolicyActive policy (ctx_timestamp context) = false ->
  outside_activation_window policy (ctx_timestamp context) /\
  outcome (evaluatePolicy registry policy context) = Ok (vacuous_pass policy) /\
  passed (vacuous_pass policy) = true /\
  annotations (vacuous_pass policy) = [] /\
  dispatched (evaluatePolicy registry policy context) = [].
Proof.
  intros Hinactive. split; [by apply isPolicyActive_false_iff|].
  unfold evaluatePolicy. rewrite Hinactive. simpl. auto.
Qed.

(** What [evaluatePolicy] does when the rule evaluation of an active policy
    throws. If the [catch] block can convert what was thrown to a message,
    the result has [passed = false] and enforcement BLOCK whatever
    enforcement the policy is configured with, and carries the message in
    [error]; if the conversion throws, [evaluatePolicy] rejects with what it
    throws. Neither way is there a passing result. *)
Lemma evaluatePolicy_exception_blocks
  (registry : RuleEvaluatorRegistry) (policy : PolicyDefinition)
  (context : PolicyEvaluationContext) (thrown : Thrown) :
  isPolicyActive policy (ctx_timestamp context) = true ->
  registry_evaluate registry (rule_format (policy_rule policy))
    (rule_expression (policy_rule policy)) context = Err thrown ->
  match errorMessage_of thrown with
  | Ok errorMessage =>
      outcome (evaluatePolicy registry policy context) =
        Ok (fail_safe_block policy errorMessage) /\
      passed (fail_safe_block policy errorMessage) = false /\
      enforcement (fail_safe_block policy errorMessage) = EnforcementMode.BLOCK /\
      error (fail_safe_block policy errorMessage) = Some errorMessage
  | Err raised => outcome (evaluatePolicy registry policy context) = Err raised
  end.
Proof.
  intros Hactive Hthrows.
  unfold evaluatePolicy. rewrite Hactive. simpl. rewrite Hthrows.
  by destruct (errorMessage_of thrown).
Qed.


(** A format without a registered evaluator makes the registry throw. *)
Lemma missing_evaluator_throws
  (evaluators : RuleFormatValue -> option RuleEvaluator) (format : RuleFormatValue)
  (expression : string) (context : PolicyEvaluationContext) :
  evaluators format = None ->
  registry_evaluate (createRuleEvaluatorRegistry evaluators) format expression context =
  Err (ThrownError ("No evaluator registered for format: " +:+ RuleFormat.name format)).
Proof. intros Hnone. simpl. by rewrite Hnone. Qed.

(** An entry is the result of [evaluatePolicy] under the id, name and
    version of its policy. *)
Lemma entry_of_Ok (registry : RuleEvaluatorRegistry) (context : PolicyEvaluationContext)
  (policy : PolicyDefinition) (entry : PolicyVerdictEntry) :
  entry_of registry context policy = Ok entry <->
  exists result,
    outcome (evaluatePolicy registry policy context) = Ok result /\
    entry = entry_for policy result.
Proof.
  unfold entry_of. destruct (outcome (evaluatePolicy registry policy context)) as [result|raised].
  - split; [intros [= <-]; by exists result | by intros (result' & [= <-] & ->)].
  - split; [discriminate | by intros (result' & [=] & _)].
Qed.

Lemma entry_of_Err (registry : RuleEvaluatorRegistry) (context : PolicyEvaluationContext)
  (policy : PolicyDefinition) (raised : Thrown) :
  entry_of registry context policy = Err raised <->
  outcome (evaluatePolicy registry policy context) = Err raised.
Proof.
  unfold entry_of. destruct (outcome (evaluatePolicy registry policy context));
    split; congruence.
Qed.

(** [entries_of] returns the entries of all the policies, one each and in
    order, when every evaluation returns. *)
Lemma entries_of_Ok (registry : RuleEvaluatorRegistry) (context : PolicyEvaluationContext)
  (policies : list PolicyDefinition) (results : list PolicyVerdictEntry) :
  entries_of registry context policies = Ok results ->
  Forall2 (fun policy entry => entry_of registry context policy = Ok entry) policies results /\
  reached registry context policies = policies.
Proof.
  revert results. induction policies as [|policy rest IH]; intros results; cbn [entries_of reached].
  - intros [= <-]. by split.
  - destruct (entry_of registry context policy) as [entry|raised] eqn:Hentry; [|discriminate].
    destruct (entries_of registry context rest) as [entries|raised]; [|discriminate].
    intros [= <-]. destruct (IH entries eq_refl) as [Hall Hreached].
    split; [by constructor | by rewrite Hreached].
Qed.

(** [entries_of] fails with what the first rejecting evaluation rejects
    with; the policies after that one are not reached. *)
Lemma entries_of_Err (registry : RuleEvaluatorRegistry) (context : PolicyEvaluationContext)
  (policies : list PolicyDefinition) (raised : Thrown) :
  entries_of registry context policies = Err raised ->
  exists before policy after,
    policies = (before ++ policy :: after)%list /\
    reached registry context policies = (before ++ [policy])%list /\
    Forall (fun p => isOk (outcome (evaluatePolicy registry p context)) = true) before /\
    outcome (evaluatePolicy registry policy context) = Err raised.
Proof.
  induction policies as [|policy rest IH]; cbn [entries_of reached]; [discriminate|].
  destruct (entry_of registry context policy) as [entry|raised'] eqn:Hentry.
  - destruct (entries_of registry context rest) as [entries|raised'']; [discriminate|].
    intros [= <-]. destruct (IH eq_refl) as (before & failing & after & -> & -> & Hbefore & Hfails).
    exists (policy :: before), failing, after. repeat split; try done.
    constructor; [|exact Hbefore].
    apply entry_of_Ok in Hentry as (result & -> & _). reflexivity.
  - intros [= <-]. exists [], policy, rest. repeat split; try done.
    by apply entry_of_Err.
Qed.


(** The loop of [evaluateAll], from any state of its arrays. *)
Lemma evaluateAll_loop (registry : RuleEvaluatorRegistry) (context : PolicyEvaluationContext)
  (policies : list PolicyDefinition) (st : EvaluateAllLoop) :
  outcome (evaluateAll_for registry context policies st) =
  match entries_of registry context policies with
  | Err raised => Err raised
  | Ok results =>
      Ok {| loop_policyResults := loop_policyResults st ++ results;
            loop_blockingPolicies :=
              loop_blockingPolicies st ++
              map entry_policyId (List.filter (failed_with EnforcementMode.BLOCK) results);
            loop_escalatingPolicies :=
              loop_escalatingPolicies st ++
              map entry_policyId (List.filter (failed_with EnforcementMode.ESCALATE) results);
            loop_allAnnotations :=
              loop_allAnnotations st ++
              concat (map (fun entry => annotations (entry_verdict entry)) results) |}
  end.
Proof.
  revert st. induction policies as [|policy rest IH]; intros st;
    cbn [evaluateAll_for entries_of].
  - cbn [outcome]. destruct st; cbn. by rewrite !app_nil_r.
  - unfold evaluateAll_body, entry_of. cbn [outcome dispatched].
    destruct (outcome (evaluatePolicy registry policy context)) as [result|raised];
      [|reflexivity].
    cbn [outcome]. rewrite IH.
    destruct (entries_of registry context rest) as [results|raised]; [|reflexivity].
    cbn [loop_policyResults loop_blockingPolicies loop_escalatingPolicies
         loop_allAnnotations List.filter map concat].
    change (negb (passed result) && EnforcementMode.eqb (enforcement result)
              EnforcementMode.BLOCK)
      with (failed_with EnforcementMode.BLOCK (entry_for policy result)).
    change (negb (passed result) && EnforcementMode.eqb (enforcement result)
              EnforcementMode.ESCALATE)
      with (failed_with EnforcementMode.ESCALATE (entry_for policy result)).
    fold (entry_for policy result).
    destruct (failed_with EnforcementMode.BLOCK _), (failed_with EnforcementMode.ESCALATE _);
      cbn [map entry_for entry_verdict entry_policyId]; f_equal; f_equal;
      by rewrite <-?app_assoc.
Qed.


Lemma nonempty_map_filter {A B} (f : A -> B) (p : A -> bool) (l : list A) :
  negb (isEmpty (map f (List.filter p l))) = existsb p l.
Proof.
  induction l as [|x xs IH]; simpl; [reflexivity|].
  destruct (p x); simpl; [reflexivity | exact IH].
Qed.

(** The verdict of [evaluateAll] in terms of the entries of its policies. *)
Lemma evaluateAll_outcome (registry : RuleEvaluatorRegistry)
  (policies : list PolicyDefinition) (context : PolicyEvaluationContext)
  (evaluatedAt : Timestamp) (elapsedMs : number) :
  match entries_of registry context policies with
  | Err raised =>
      outcome (evaluateAll registry policies context evaluatedAt elapsedMs) = Err raised
  | Ok results =>
      exists verdict,
        outcome (evaluateAll registry policies context evaluatedAt elapsedMs) = Ok verdict /\
        policyResults verdict = results /\
        verdict_result verdict = aggregate results /\
        blockingPolicies verdict =
          map entry_policyId (List.filter (failed_with EnforcementMode.BLOCK) results) /\
        escalatingPolicies verdict =
          map entry_policyId (List.filter (failed_with EnforcementMode.ESCALATE) results) /\
        verdict_annotations verdict =
          concat (map (fun entry => annotations (entry_verdict entry)) results) /\
        length (violations verdict) =
          length (List.filter (fun entry => negb (passed (entry_verdict entry))) results) /\
        verdict_decisionId verdict = ctx_decision_id (ctx_decision context) /\
        verdict_scope verdict = ctx_decision_type (ctx_decision context) /\
        verdict_evaluatedAt verdict = evaluatedAt
  end.
Proof.
  unfold evaluateAll. cbn [outcome]. rewrite evaluateAll_loop.
  destruct (entries_of registry context policies) as [results|raised]; [|reflexivity].
  eexists. split; [reflexivity|].
  cbn [policyResults verdict_result blockingPolicies escalatingPolicies verdict_annotations
       violations verdict_decisionId verdict_scope verdict_evaluatedAt
       loop_policyResults loop_blockingPolicies loop_escalatingPolicies loop_allAnnotations
       evaluateAll_init app].
  repeat split.
  - unfold aggregate. rewrite !nonempty_map_filter.
    destruct (existsb (failed_with EnforcementMode.BLOCK) _); [reflexivity|].
    destruct (existsb (failed_with EnforcementMode.ESCALATE) _); reflexivity.
  - by rewrite length_map.
Qed.


End PolicyEvaluatorProperties.

Section DecisionLifecycleProperties.
Context `{RT : JSRuntime}.

(** ** Properties of the decision state machine *)

Lemma state_includes_In (l : list DecisionStateValue) (s : DecisionStateValue) :
  state_includes l s = true <-> In s l.
Proof.
  unfold state_includes. rewrite existsb_exists. split.
  - intros (x & Hin & Heq). by destruct s, x.
  - intros Hin. exists s. split; [exact Hin | by destruct s].
Qed.

Lemma DecisionState_eqb_eq (a b : DecisionStateValue) :
  DecisionState.eqb a b = true <-> a = b.
Proof. by destruct a, b. Qed.

(** Each method, as a function of what it finds in the store. *)

Lemma evaluate_run (decisionId : ContentAddress) (v : DecisionVerdict) (at_ : Timestamp)
  (sm : DecisionStateMachine) :
  evaluate decisionId v at_ sm =
  match decisions sm !! decisionId with
  | None => (Err (DecisionNotFound decisionId), sm)
  | Some d =>
      if state_includes (VALID_TRANSITIONS (state d)) DecisionState.EVALUATED then
        let d' :=
          {| id := id d; state := state_for (verdict_result v); action := action d;
             proposedBy := proposedBy d; contextRefs := contextRefs d;
             rationale := rationale d; verdict := Some v;
             alternativeIds := alternativeIds d; proposedAt := proposedAt d;
             evaluatedAt := Some at_;
             concludedAt :=
               if DecisionState.eqb (state_for (verdict_result v)) DecisionState.REJECTED
               then Some at_ else concludedAt d;
             approval := approval d |} in
        (Ok d', {| decisions := <[decisionId := d']> (decisions sm);
                   transactions := transactions sm |})
      else (Err (InvalidTransition (state d) DecisionState.EVALUATED
                   (VALID_TRANSITIONS (state d))), sm)
  end.
Proof.
  unfold evaluate, decision_or_throw, decisions_get, validateTransition, bind, ret, throw.
  destruct (decisions sm !! decisionId) as [d|]; [|reflexivity].
  destruct (state_includes _ _); simpl; [|reflexivity].
  by destruct (verdict_result v).
Qed.

Lemma concluding_run (to : DecisionStateValue) (decisionId : ContentAddress)
  (reason : option string) (at_ : Timestamp) (sm : DecisionStateMachine) :
  (let! decision := decision_or_throw decisionId in
   validateTransition (state decision) to ;;;
   decisions_set decisionId (concluded decision to reason at_) ;;;
   ret (concluded decision to reason at_)) sm =
  match decisions sm !! decisionId with
  | None => (Err (DecisionNotFound decisionId), sm)
  | Some d =>
      if state_includes (VALID_TRANSITIONS (state d)) to then
        (Ok (concluded d to reason at_),
         {| decisions := <[decisionId := concluded d to reason at_]> (decisions sm);
            transactions := transactions sm |})
      else (Err (InvalidTransition (state d) to (VALID_TRANSITIONS (state d))), sm)
  end.
Proof.
  unfold decision_or_throw, decisions_get, validateTransition, bind, ret, throw.
  destruct (decisions sm !! decisionId) as [d|]; [|reflexivity].
  by destruct (state_includes _ _).
Qed.

Lemma reject_run decisionId reason at_ sm :
  reject decisionId reason at_ sm =
  match decisions sm !! decisionId with
  | None => (Err (DecisionNotFound decisionId), sm)
  | Some d =>
      if state_includes (VALID_TRANSITIONS (state d)) DecisionState.REJECTED then
        (Ok (concluded d DecisionState.REJECTED reason at_),
         {| decisions :=
              <[decisionId := concluded d DecisionState.REJECTED reason at_]> (decisions sm);
            transactions := transactions sm |})
      else (Err (InvalidTransition (state d) DecisionState.REJECTED
                   (VALID_TRANSITIONS (state d))), sm)
  end.
Proof. apply concluding_run. Qed.

Lemma cancel_run decisionId reason at_ sm :
  cancel decisionId reason at_ sm =
  match decisions sm !! decisionId with
  | None => (Err (DecisionNotFound decisionId), sm)
  | Some d =>
      if state_includes (VALID_TRANSITIONS (state d)) DecisionState.CANCELLED then
        (Ok (concluded d DecisionState.CANCELLED reason at_),
         {| decisions :=
              <[decisionId := concluded d DecisionState.CANCELLED reason at_]> (decisions sm);
            transactions := transactions sm |})
      else (Err (InvalidTransition (state d) DecisionState.CANCELLED
                   (VALID_TRANSITIONS (state d))), sm)
  end.
Proof. apply concluding_run. Qed.

Lemma approve_run decisionId approvedBy justification at_ sm :
  approve decisionId approvedBy justification at_ sm =
  match decisions sm !! decisionId with
  | None => (Err (DecisionNotFound decisionId), sm)
  | Some d =>
      if DecisionState.eqb (state d) DecisionState.PENDING_APPROVAL then
        let d' :=
          {| id := id d; state := DecisionState.EVALUATED; action := action d;
             proposedBy := proposedBy d; contextRefs := contextRefs d;
             rationale := rationale d; verdict := verdict d;
             alternativeIds := alternativeIds d; proposedAt := proposedAt d;
             evaluatedAt := evaluatedAt d; concludedAt := concludedAt d;
             approval :=
               Some {| approval_decidedBy := approvedBy; approval_decision := approved;
                       approval_justification := justification;
                       approval_decidedAt := at_ |} |} in
        (Ok d', {| decisions := <[decisionId := d']> (decisions sm);
                   transactions := transactions sm |})
      else (Err (NotPendingApproval decisionId), sm)
  end.
Proof.
  unfold approve, decision_or_throw, decisions_get, bind, ret, throw.
  destruct (decisions sm !! decisionId) as [d|]; [|reflexivity].
  by destruct (DecisionState.eqb _ _).
Qed.

(** [commit]: the transaction just started is found again, so the [catch]
    branch is never taken. *)
Lemma commit_run decisionId clock sm :
  commit decisionId clock sm =
  match decisions sm !! decisionId with
  | None => (Err (DecisionNotFound decisionId), sm)
  | Some d =>
      if state_includes (VALID_TRANSITIONS (state d)) DecisionState.COMMITTED then
        let d' :=
          {| id := id d; state := DecisionState.COMMITTED; action := action d;
             proposedBy := proposedBy d; contextRefs := contextRefs d;
             rationale := rationale d; verdict := verdict d;
             alternativeIds := alternativeIds d; proposedAt := proposedAt d;
             evaluatedAt := evaluatedAt d; concludedAt := Some (clock_concluded clock);
             approval := approval d |} in
        let txnId :=
          computeContentAddress
            (JObject [("decisionId", JString decisionId);
                      ("operation", JString "commit");
                      ("startedAt", JString (clock_started clock))]) in
        let txn :=
          {| txn_id := txnId; txn_decisionId := decisionId; txn_operation := op_commit;
             txn_status := txn_completed; txn_startedAt := clock_started clock;
             txn_completedAt := Some (clock_completed clock); txn_error := None |} in
        (Ok d', {| decisions := <[decisionId := d']> (decisions sm);
                   transactions := <[txnId := txn]> (transactions sm) |})
      else (Err (InvalidTransition (state d) DecisionState.COMMITTED
                   (VALID_TRANSITIONS (state d))), sm)
  end.
Proof.
  unfold commit, decision_or_throw, decisions_get, validateTransition, startTransaction,
    completeTransaction, transactions_get, transactions_set, decisions_set,
    try_catch, bind, ret, throw.
  destruct (decisions sm !! decisionId) as [d|]; [|reflexivity].
  destruct (state_includes _ _); simpl; [|reflexivity].
  rewrite lookup_insert_eq. simpl. by rewrite insert_insert_eq.
Qed.

(** A call that succeeds replaces the stored decision by one for the same
    proposal that is no longer PROPOSED; a call that fails changes nothing. *)
Lemma call_outcome (c : LifecycleCall) (sm : DecisionStateMachine) :
  match call c sm with
  | (Ok d', sm') =>
      exists d, decisions sm !! call_target c = Some d /\ same_proposal d d' /\
                state d' <> DecisionState.PROPOSED /\
                decisions sm' = <[call_target c := d']> (decisions sm)
  | (Err e, sm') => sm' = sm
  end.
Proof.
  destruct c as [decisionId v at_|decisionId clock|decisionId reason at_
                |decisionId approvedBy justification at_|decisionId reason at_]; simpl;
    [rewrite evaluate_run|rewrite commit_run|rewrite reject_run
    |rewrite approve_run|rewrite cancel_run];
    (destruct (decisions sm !! decisionId) as [d|] eqn:Hd; [|reflexivity]).
  - destruct (state_includes _ _); [|reflexivity].
    exists d. unfold same_proposal. simpl. repeat split; try done.
    by destruct (verdict_result v).
  - destruct (state_includes _ _); [|reflexivity].
    exists d. unfold same_proposal. simpl. repeat split; done.
  - destruct (state_includes _ _); [|reflexivity].
    exists d. unfold same_proposal. simpl. repeat split; done.
  - destruct (DecisionState.eqb _ _); [|reflexivity].
    exists d. unfold same_proposal. simpl. repeat split; done.
  - destruct (state_includes _ _); [|reflexivity].
    exists d. unfold same_proposal. simpl. repeat split; done.
Qed.

Lemma same_proposal_trans (d1 d2 d3 : Decision) :
  same_proposal d1 d2 -> same_proposal d2 d3 -> same_proposal d1 d3.
Proof. unfold same_proposal. intuition congruence. Qed.

Lemma same_proposal_refl (d : Decision) : same_proposal d d.
Proof. unfold same_proposal. intuition. Qed.

(** A stored decision stays stored, for the same proposal, through any call. *)
Lemma call_keeps_decision (c : LifecycleCall) (sm : DecisionStateMachine)
  (key : ContentAddress) (d : Decision) :
  decisions sm !! key = Some d ->
  exists d', decisions (snd (call c sm)) !! key = Some d' /\ same_proposal d d'.
Proof.
  intros Hd. pose proof (call_outcome c sm) as H.
  destruct (call c sm) as [[d'|e] sm']; simpl.
  - destruct H as (d0 & Hd0 & Hsame & _ & ->).
    destruct (decide (call_target c = key)) as [<-|Hne].
    + rewrite lookup_insert_eq. exists d'. split; [reflexivity|]. congruence.
    + rewrite lookup_insert_ne by exact Hne. exists d. split; [exact Hd | apply same_proposal_refl].
  - subst sm'. exists d. split; [exact Hd | apply same_proposal_refl].
Qed.

Lemma after_calls_keeps_decision (cs : list LifecycleCall) (sm : DecisionStateMachine)
  (key : ContentAddress) (d : Decision) :
  decisions sm !! key = Some d ->
  exists d', decisions (after_calls cs sm) !! key = Some d' /\ same_proposal d d'.
Proof.
  revert sm d. induction cs as [|c cs IH]; intros sm d Hd; simpl.
  - exists d. split; [exact Hd | apply same_proposal_refl].
  - destruct (call_keeps_decision c sm key d Hd) as (d1 & Hd1 & Hsame1).
    destruct (IH _ _ Hd1) as (d2 & Hd2 & Hsame2).
    exists d2. split; [exact Hd2 | by eapply same_proposal_trans].
Qed.

(** C6. From a state whose row of the transition table holds EVALUATED,
    [evaluate] succeeds, records the verdict and [evaluatedAt], stores the
    result under the same id, and takes the new state from the verdict: ALLOW
    and ANNOTATE give EVALUATED, DENY gives REJECTED and sets [concludedAt],
    ESCALATE gives PENDING_APPROVAL. *)
Theorem evaluate_takes_state_from_verdict
  (sm : DecisionStateMachine) (decisionId : ContentAddress) (d : Decision)
  (v : DecisionVerdict) (at_ : Timestamp) :
  decisions sm !! decisionId = Some d ->
  In DecisionState.EVALUATED (VALID_TRANSITIONS (state d)) ->
  exists d',
    fst (evaluate decisionId v at_ sm) = Ok d' /\
    getDecision (snd (evaluate decisionId v at_ sm)) decisionId = Some d' /\
    verdict d' = Some v /\
    evaluatedAt d' = Some at_ /\
    state d' =
      match verdict_result v with
      | VerdictResult.ALLOW | VerdictResult.ANNOTATE => DecisionState.EVALUATED
      | VerdictResult.DENY => DecisionState.REJECTED
      | VerdictResult.ESCALATE => DecisionState.PENDING_APPROVAL
      end /\
    concludedAt d' =
      match verdict_result v with
      | VerdictResult.DENY => Some at_
      | _ => concludedAt d
      end.
Proof.
  intros Hd Hvalid. rewrite evaluate_run, Hd.
  apply state_includes_In in Hvalid. rewrite Hvalid.
  eexists. split; [reflexivity|]. unfold getDecision. simpl.
  rewrite lookup_insert_eq. repeat split; by destruct (verdict_result v).
Qed.

(** C2, as the code has it. On a decision in a terminal state every
    transition method fails and leaves the state machine as it was.
    [evaluate], [commit], [reject] and [cancel] fail with the invalid
    transition error, whose message names the current state and the empty
    set of legal targets ("none"); [approve] fails with its own error, whose
    message names the decision and neither the state nor the targets. *)
Theorem terminal_decision_refuses_every_call
  (sm : DecisionStateMachine) (c : LifecycleCall) (d : Decision) :
  decisions sm !! call_target c = Some d ->
  isTerminalState (state d) = true ->
  call c sm = (Err (terminal_error c (state d)), sm) /\
  VALID_TRANSITIONS (state d) = [] /\
  error_message (terminal_error c (state d)) =
    match requested_state c with
    | Some to =>
        "Invalid state transition: " +:+ DecisionState.name (state d) +:+ " → " +:+
        DecisionState.name to +:+ ". Valid transitions: none"
    | None => "Decision " +:+ call_target c +:+ " is not pending approval"
    end.
Proof.
  intros Hd Hterminal.
  assert (VALID_TRANSITIONS (state d) = []) as Hnone.
  { unfold isTerminalState in Hterminal. by destruct (VALID_TRANSITIONS (state d)). }
  split; [|split; [exact Hnone|]].
  - destruct c as [decisionId v at_|decisionId clock|decisionId reason at_
                  |decisionId approvedBy justification at_|decisionId reason at_];
      simpl in *;
      [rewrite evaluate_run|rewrite commit_run|rewrite reject_run
      |rewrite approve_run|rewrite cancel_run];
      rewrite Hd; unfold terminal_error; simpl; rewrite ?Hnone; try reflexivity.
    by destruct (state d).
  - unfold terminal_error. destruct (requested_state c); simpl; [|reflexivity].
    by rewrite Hnone.
Qed.

(** C10. [propose] computes the id once, as the address of the content in
    state PROPOSED, and stores the decision under it. After any sequence of
    calls of the transition methods the decision is still stored under that
    id, with its id, action, proposer, context references, alternatives and
    proposal time unchanged; each successful call on it keeps those fields,
    stores the result under the same id, and leaves a state that is no longer
    the PROPOSED one the id is the address of. *)
Theorem lifecycle_keeps_proposal_identity
  (sm : DecisionStateMachine) (input : ProposeDecisionInput) (proposedAt : Timestamp) :
  exists d0,
    fst (propose input proposedAt sm) = Ok d0 /\
    id d0 = computeContentAddress (decisionData input proposedAt) /\
    state d0 = DecisionState.PROPOSED /\
    (forall cs : list LifecycleCall,
       exists d,
         getDecision (after_calls cs (snd (propose input proposedAt sm))) (id d0) = Some d /\
         same_proposal d0 d) /\
    (forall (sm1 : DecisionStateMachine) (c : LifecycleCall) (d' : Decision),
       fst (call c sm1) = Ok d' ->
       exists d,
         getDecision sm1 (call_target c) = Some d /\
         same_proposal d d' /\
         getDecision (snd (call c sm1)) (call_target c) = Some d' /\
         state d' <> DecisionState.PROPOSED).
Proof.
  eexists. split; [reflexivity|]. simpl. split; [reflexivity|]. split; [reflexivity|]. split.
  - intros cs. apply after_calls_keeps_decision. simpl. apply lookup_insert_eq.
  - intros sm1 c d' Hok. pose proof (call_outcome c sm1) as H.
    destruct (call c sm1) as [[d1|e] sm']; simpl in Hok; [|discriminate].
    injection Hok as ->.
    destruct H as (d & Hd & Hsame & Hstate & Hstore).
    exists d. unfold getDecision. simpl. rewrite Hstore, lookup_insert_eq. auto.
Qed.

(** [commit] succeeds exactly from the two states whose row of the
    transition table holds COMMITTED. *)
Lemma commit_succeeds_iff (sm : DecisionStateMachine) (decisionId : ContentAddress)
  (clock : CommitClock) :
  isOk (fst (commit decisionId clock sm)) = true <->
  exists d, decisions sm !! decisionId = Some d /\
            (state d = DecisionState.EVALUATED \/ state d = DecisionState.PENDING_APPROVAL).
Proof.
  rewrite commit_run. destruct (decisions sm !! decisionId) as [d|]; simpl.
  - destruct (state d) eqn:Hstate; simpl; split; try discriminate;
      try (intros _; exists d; rewrite Hstate; by auto);
      intros (d1 & Hd1 & [H|H]); injection Hd1 as <-; congruence.
  - split; [discriminate|]. intros (d & Hd & _). discriminate.
Qed.

(** In a reachable state machine a decision that is EVALUATED, pending
    approval or COMMITTED carries a verdict, and that verdict is not DENY:
    [evaluate] sends every DENY to REJECTED. *)
Lemma reachable_verdict_not_DENY (sm : DecisionStateMachine) :
  reachable sm ->
  forall key d, decisions sm !! key = Some d ->
    state d = DecisionState.EVALUATED \/ state d = DecisionState.PENDING_APPROVAL \/
    state d = DecisionState.COMMITTED ->
    exists v, verdict d = Some v /\ verdict_result v <> VerdictResult.DENY.
Proof.
  induction 1 as [|sm input proposedAt _ IH|sm c _ IH]; intros key d Hd Hstate.
  - simpl in Hd. by rewrite lookup_empty in Hd.
  - simpl in Hd. rewrite lookup_insert in Hd. case_decide.
    + injection Hd as <-. simpl in Hstate. intuition discriminate.
    + by eapply IH.
  - revert Hd.
    destruct c as [decisionId v at_|decisionId clock|decisionId reason at_
                  |decisionId approvedBy justification at_|decisionId reason at_]; simpl;
      [rewrite evaluate_run|rewrite commit_run|rewrite reject_run
      |rewrite approve_run|rewrite cancel_run];
      (destruct (decisions sm !! decisionId) as [d0|] eqn:Hd0; simpl; [|by eauto]).
    + destruct (state_includes _ _); simpl; [|by eauto].
      rewrite lookup_insert. case_decide; [|by eauto].
      intros [= <-]. simpl in *. exists v. split; [reflexivity|].
      destruct (verdict_result v); simpl in Hstate; intuition discriminate.
    + destruct (state_includes _ _) eqn:Hinc; simpl; [|by eauto].
      rewrite lookup_insert. case_decide; [|by eauto].
      intros [= <-]. simpl. apply (IH decisionId d0 Hd0).
      destruct (state d0); simpl in Hinc; try discriminate; auto.
    + destruct (state_includes _ _); simpl; [|by eauto].
      rewrite lookup_insert. case_decide; [|by eauto].
      intros [= <-]. simpl in Hstate. intuition discriminate.
    + destruct (DecisionState.eqb _ _) eqn:Hpending; simpl; [|by eauto].
      rewrite lookup_insert. case_decide; [|by eauto].
      intros [= <-]. simpl. apply (IH decisionId d0 Hd0).
      apply DecisionState_eqb_eq in Hpending. auto.
    + destruct (state_includes _ _); simpl; [|by eauto].
      rewrite lookup_insert. case_decide; [|by eauto].
      intros [= <-]. simpl in Hstate. intuition discriminate.
Qed.

End DecisionLifecycleProperties.

Section ApprovalWorkflowProperties.
Context `{RT : JSRuntime}.

(** ** Properties of the approval queue *)

Lemma includes_In (l : list string) (x : string) : includes l x = true <-> In x l.
Proof.
  unfold includes. rewrite existsb_exists. split.
  - intros (y & Hin & Heq). apply String.eqb_eq in Heq. by subst.
  - intros Hin. exists x. split; [exact Hin | apply String.eqb_refl].
Qed.

Lemma includes_not_In (l : list string) (x : string) : ~ In x l -> includes l x = false.
Proof.
  intros Hnotin. destruct (includes l x) eqn:E; [|reflexivity].
  by apply includes_In in E.
Qed.

(** C8, as the code has it. On a stored request, [startReview] and
    [recordDecision] by an actor outside [approvers] fail, and so does
    [withdraw] by an actor other than [requestedBy]; the queue is left as it
    was. The status of the request is checked first: the failure is the
    authorization error when the status admits the call (PENDING for
    [startReview], PENDING or IN_REVIEW for the other two), and the status
    error otherwise. *)
Theorem approval_queue_refuses_strangers
  (q : ApprovalQueue) (requestId actor : ContentAddress) (request : ApprovalRequest) :
  requests q !! requestId = Some request ->
  (~ In actor (approvers request) ->
     startReview requestId actor q =
       (Err (if is_PENDING (request_status request)
             then NotAuthorizedToReview actor
             else RequestNotPending requestId (request_status request)), q) /\
     forall decision options decidedAt,
       recordDecision requestId decision actor options decidedAt q =
         (Err (if is_open (request_status request)
               then NotAuthorizedToDecide actor
               else RequestCannotBeDecided requestId (request_status request)), q)) /\
  (actor <> requestedBy request ->
     withdraw requestId actor q =
       (Err (if is_open (request_status request)
             then OnlyRequesterCanWithdraw
             else RequestCannotBeWithdrawn requestId (request_status request)), q)).
Proof.
  intros Hstored. split.
  - intros Hstranger. apply includes_not_In in Hstranger. split; [|intros decision options decidedAt].
    + unfold startReview, request_or_throw, bind, throw. rewrite Hstored.
      destruct (is_PENDING _); simpl; [by rewrite Hstranger | reflexivity].
    + unfold recordDecision, request_or_throw, bind, throw. rewrite Hstored.
      destruct (is_open _); simpl; [by rewrite Hstranger | reflexivity].
  - intros Hother.
    assert (String.eqb (requestedBy request) actor = false) as Hneq.
    { apply String.eqb_neq. congruence. }
    unfold withdraw, request_or_throw, bind, throw. rewrite Hstored.
    destruct (is_open _); simpl; [by rewrite Hneq | reflexivity].
Qed.

End ApprovalWorkflowProperties.

Section ConflictResolutionProperties.
Context `{RT : JSRuntime}.

(** ** Properties of the conflict resolver *)

Lemma id_eqb_neq (a b : option ContentAddress) : a <> b -> id_eqb a b = false.
Proof.
  intros Hne. destruct a as [x|], b as [y|]; simpl; try reflexivity; [|congruence].
  apply String.eqb_neq. congruence.
Qed.

(** Two policies with different ids, registered in a new resolver. *)
Lemma registered_pair (a b : PolicyDefinition) :
  policy_id a <> policy_id b ->
  policies (registerPolicy b (registerPolicy a createConflictResolver)) =
  [(policy_id a, a); (policy_id b, b)].
Proof.
  intros Hne. unfold registerPolicy. cbn [policies].
  change (policies createConflictResolver) with (@nil (option ContentAddress * PolicyDefinition)).
  cbn [Map_set]. by rewrite (id_eqb_neq _ _ Hne).
Qed.

(** The default rules, after the four sorting registrations. *)
Lemma default_rules_order :
  map rule_id (rules createConflictResolver) =
  ["default-overlap"; "default-contradiction"; "default-circular"; "default-ambiguous"].
Proof. reflexivity. Qed.

(** Under the default rules a CONTRADICTION is resolved by restrictiveness. *)
Lemma resolve_contradiction_default (r : ConflictResolver) (c : PolicyConflict) :
  rules r = rules createConflictResolver ->
  conflict_type c = ConflictType.CONTRADICTION ->
  resolve r c = resolveByRestrictiveness c.
Proof. intros Hrules Htype. unfold resolve. rewrite Hrules, Htype. reflexivity. Qed.

(** What one pair pushes when its scopes overlap and its enforcements
    contradict each other. *)
Lemma conflicts_of_contradicting_pair (a b : PolicyDefinition) (overlappingScope : string) :
  findOverlappingScope a b = Some overlappingScope ->
  overlappingScope <> EmptyString ->
  isContradiction a b = true ->
  conflicts_of_pair None (a, b) =
    createConflict ConflictType.CONTRADICTION [a; b] overlappingScope
      ("Policies " +:+ dq +:+ policy_name a +:+ dq +:+ " and " +:+ dq +:+
       policy_name b +:+ dq +:+ " have contradictory enforcement actions") ::
    createConflict ConflictType.OVERLAP [a; b] overlappingScope
      ("Policies " +:+ dq +:+ policy_name a +:+ dq +:+ " and " +:+ dq +:+
       policy_name b +:+ dq +:+ " overlap with different enforcement levels") ::
    (if (metadata_priority a =? metadata_priority b)%Z
     then [createConflict ConflictType.AMBIGUOUS_PRIORITY [a; b] overlappingScope
             ("Policies " +:+ dq +:+ policy_name a +:+ dq +:+ " and " +:+ dq +:+
              policy_name b +:+ dq +:+ " have the same priority in overlapping scope")]
     else []).
Proof.
  intros Hscope Hnonempty Hcontra.
  assert (isOverlapConflict a b = true) as Hoverlap.
  { unfold isContradiction, isOverlapConflict in *.
    by destruct (policy_enforcement a), (policy_enforcement b). }
  unfold conflicts_of_pair. rewrite Hscope.
  assert (truthy (Some overlappingScope) = true) as ->
    by (cbn; by rewrite (proj2 (String.eqb_neq _ _) Hnonempty)).
  unfold hasAmbiguousPriority. rewrite Hcontra, Hoverlap, andb_true_r. reflexivity.
Qed.

(** The scope in which the two policies of the scenario overlap:
    financial:transfer, or the wildcard when one of them is of type GLOBAL. *)
Lemma financial_scopes_overlap (p1 p2 : PolicyDefinition) :
  scope_pattern (policy_scope p1) = Some "financial:*" ->
  scope_pattern (policy_scope p2) = Some "financial:transfer" ->
  let overlapping :=
    if PolicyScope.is_GLOBAL (scope_type (policy_scope p1)) ||
       PolicyScope.is_GLOBAL (scope_type (policy_scope p2))
    then "*" else "financial:transfer" in
  findOverlappingScope p1 p2 = Some overlapping /\
  findOverlappingScope p2 p1 = Some overlapping /\
  overlapping <> EmptyString.
Proof.
  intros Hpattern1 Hpattern2.
  unfold findOverlappingScope, scope_pattern_or_star. rewrite Hpattern1, Hpattern2.
  destruct (PolicyScope.is_GLOBAL (scope_type (policy_scope p1))),
           (PolicyScope.is_GLOBAL (scope_type (policy_scope p2))); by repeat split.
Qed.

(** C7, as the code has it. With P1, a BLOCK policy whose scope pattern is
    the wildcard pattern of the financial prefix, and P2, an ANNOTATE policy
    of pattern financial:transfer, the only registered policies, in either
    order, [detectConflicts()] returns first the one CONTRADICTION
    conflict of the pair, then an OVERLAP conflict for the same pair and
    scope, then, exactly when the metadata priorities of the two are equal
    (absent counts as 0), an AMBIGUOUS_PRIORITY conflict for the same pair
    and scope: three conflicts for equal priorities and two otherwise, of
    which exactly one is a CONTRADICTION. [resolve] on that conflict under
    the default rules returns strategy MOST_RESTRICTIVE and P1 as the winning
    policy. *)
Theorem financial_contradiction_detected_and_resolved
  (p1 p2 : PolicyDefinition) (p1_first : bool) (clock : nat -> Timestamp) :
  policy_id p1 <> policy_id p2 ->
  policy_enforcement p1 = EnforcementMode.BLOCK ->
  scope_pattern (policy_scope p1) = Some "financial:*" ->
  policy_enforcement p2 = EnforcementMode.ANNOTATE ->
  scope_pattern (policy_scope p2) = Some "financial:transfer" ->
  let r :=
    if p1_first
    then registerPolicy p2 (registerPolicy p1 createConflictResolver)
    else registerPolicy p1 (registerPolicy p2 createConflictResolver) in
  let found := fst (detectConflicts None clock r) in
  let r' := snd (detectConflicts None clock r) in
  let pair := if p1_first then [p1; p2] else [p2; p1] in
  let same_priority := (metadata_priority p1 =? metadata_priority p2)%Z in
  exists contradiction overlap ambiguous,
    found = contradiction :: overlap :: (if same_priority then [ambiguous] else []) /\
    length found = (if same_priority then 3 else 2)%nat /\
    conflict_type contradiction = ConflictType.CONTRADICTION /\
    conflict_policies contradiction = pair /\
    conflict_type overlap = ConflictType.OVERLAP /\
    conflict_policies overlap = pair /\
    conflict_scope overlap = conflict_scope contradiction /\
    conflict_type ambiguous = ConflictType.AMBIGUOUS_PRIORITY /\
    conflict_policies ambiguous = pair /\
    conflict_scope ambiguous = conflict_scope contradiction /\
    List.filter (fun c => ConflictType.eqb (conflict_type c) ConflictType.CONTRADICTION) found
      = [contradiction] /\
    resolved (resolve r' contradiction) = true /\
    strategy (resolve r' contradiction) = ResolutionStrategy.MOST_RESTRICTIVE /\
    winningPolicy (resolve r' contradiction) = Some p1.
Proof.
  intros Hids Hblock Hpattern1 Hannotate Hpattern2 r found r' pair same_priority.
  destruct (financial_scopes_overlap p1 p2 Hpattern1 Hpattern2)
    as (Hscope12 & Hscope21 & Hnonempty).
  set (overlapping := if _ || _ then "*" else "financial:transfer") in *.
  set (a := if p1_first then p1 else p2).
  set (b := if p1_first then p2 else p1).
  assert (pair = [a; b]) as Hpair by (subst pair a b; by destruct p1_first).
  assert ((metadata_priority a =? metadata_priority b)%Z = same_priority) as Hpriority.
  { subst a b same_priority. destruct p1_first; [reflexivity | apply Z.eqb_sym]. }
  assert (policies r = [(policy_id a, a); (policy_id b, b)]) as Hregistered.
  { subst r a b. destruct p1_first; apply registered_pair; congruence. }
  assert (rules r' = rules createConflictResolver) as Hrules.
  { subst r' r. unfold detectConflicts, registerPolicy. cbn [snd rules].
    destruct p1_first; reflexivity. }
  assert (found = created_from clock 0 (conflicts_of_pair None (a, b))) as Hfound.
  { subst found. unfold detectConflicts. cbn [fst]. rewrite Hregistered.
    cbn [Map_values map snd pairs_in_order flat_map app]. by rewrite app_nil_r. }
  rewrite (conflicts_of_contradicting_pair a b overlapping) in Hfound.
  2: { subst a b. by destruct p1_first. }
  2: { exact Hnonempty. }
  2: { subst a b. unfold isContradiction. destruct p1_first; by rewrite Hblock, Hannotate. }
  rewrite Hpriority in Hfound. cbn [created_from] in Hfound.
  eexists _, _, (createConflict ConflictType.AMBIGUOUS_PRIORITY [a; b] overlapping _ (clock 2)).
  rewrite Hfound, Hpair.
  split; [by destruct same_priority|]. split; [by destruct same_priority|].
  do 8 (split; [reflexivity|]).
  split; [by destruct same_priority|].
  match goal with
  | |- context [resolve r' ?c] => rewrite (resolve_contradiction_default r' c Hrules eq_refl)
  end.
  unfold resolveByRestrictiveness, resolve_sorted. cbn [conflict_policies createConflict].
  subst a b. destruct p1_first; simpl; rewrite Hblock, Hannotate; simpl; auto.
Qed.

End ConflictResolutionProperties.

(** ** Properties of the address syntax *)

Lemma append_cons (x : ascii) (a b : string) : String x a +:+ b = String x (a +:+ b).
Proof. reflexivity. Qed.

Lemma indexOf_char_split (c : ascii) (s : string) (i : nat) :
  indexOf_char c s = Some i ->
  s = slice_to i s +:+ String c (slice_from (i + 1) s) /\
  indexOf_char c (slice_to i s) = None.
Proof.
  revert i. induction s as [|x rest IH]; intros i; simpl; [discriminate|].
  destruct (Ascii.eqb x c) eqn:Hx.
  - intros [= <-]. apply Ascii.eqb_eq in Hx. subst x. simpl. by destruct rest.
  - destruct (indexOf_char c rest) as [j|]; [|discriminate].
    intros [= <-]. destruct (IH j eq_refl) as [Hsplit Hnone].
    simpl. rewrite append_cons, <-Hsplit, Hx, Hnone. done.
Qed.

Lemma indexOf_char_join (c : ascii) (before after : string) :
  indexOf_char c before = None ->
  indexOf_char c (before +:+ String c after) = Some (String.length before) /\
  slice_to (String.length before) (before +:+ String c after) = before /\
  slice_from (String.length before + 1) (before +:+ String c after) = after.
Proof.
  induction before as [|x rest IH]; simpl.
  - intros _. change (EmptyString +:+ String c after) with (String c after). simpl.
    rewrite Ascii.eqb_refl. by destruct after.
  - destruct (Ascii.eqb x c); [discriminate|].
    destruct (indexOf_char c rest); [discriminate|]. intros _.
    destruct (IH eq_refl) as (-> & -> & ->). done.
Qed.

Lemma eqb_empty_false (s : string) : String.eqb s EmptyString = false <-> s <> EmptyString.
Proof. apply String.eqb_neq. Qed.

Lemma parseContentAddress_parts (address algorithmPart hashPart : string) :
  parseContentAddress address =
    Some {| parsed_algorithm := algorithmPart; parsed_hash := hashPart |} ->
  address = algorithmPart +:+ ":" +:+ hashPart /\
  algorithmPart <> EmptyString /\ hashPart <> EmptyString /\
  indexOf_char ":"%char algorithmPart = None.
Proof.
  unfold parseContentAddress.
  destruct (indexOf_char ":"%char address) as [i|] eqn:Hi; [|discriminate].
  destruct (indexOf_char_split _ _ _ Hi) as [Hsplit Hnone].
  destruct (String.eqb (slice_to i address) EmptyString) eqn:Ha; [discriminate|].
  destruct (String.eqb (slice_from (i + 1) address) EmptyString) eqn:Hh; [discriminate|].
  simpl. intros [= <- <-].
  apply eqb_empty_false in Ha, Hh. by repeat split.
Qed.

Lemma parseContentAddress_joined (algorithmPart hashPart : string) :
  algorithmPart <> EmptyString -> hashPart <> EmptyString ->
  indexOf_char ":"%char algorithmPart = None ->
  parseContentAddress (algorithmPart +:+ ":" +:+ hashPart) =
    Some {| parsed_algorithm := algorithmPart; parsed_hash := hashPart |}.
Proof.
  intros Ha Hh Hnone. unfold parseContentAddress.
  destruct (indexOf_char_join ":"%char algorithmPart hashPart Hnone) as (Hi & Hto & Hfrom).
  change (algorithmPart +:+ ":" +:+ hashPart)
    with (algorithmPart +:+ String ":"%char hashPart).
  rewrite Hi, Hto, Hfrom.
  apply eqb_empty_false in Ha, Hh. by rewrite Ha, Hh.
Qed.

(** X1. [parseContentAddress] splits an address at its first colon and is
    the inverse of joining an algorithm and a hash with a colon: it returns
    the two parts exactly when both are non-empty and the algorithm part
    holds no colon, and returns [null] for every other string; so it reads
    back what [createContentAddress] wrote. *)
Theorem parseContentAddress_inverts_join (address algorithmPart hashPart : string) :
  (parseContentAddress address =
     Some {| parsed_algorithm := algorithmPart; parsed_hash := hashPart |} <->
   address = algorithmPart +:+ ":" +:+ hashPart /\
   algorithmPart <> EmptyString /\ hashPart <> EmptyString /\
   indexOf_char ":"%char algorithmPart = None) /\
  (forall algorithm : HashAlgorithmValue,
     hashPart <> EmptyString ->
     parseContentAddress (createContentAddress algorithm hashPart) =
       Some {| parsed_algorithm := HashAlgorithm_name algorithm; parsed_hash := hashPart |}).
Proof.
  split; [split|].
  - apply parseContentAddress_parts.
  - intros (-> & Ha & Hh & Hnone). by apply parseContentAddress_joined.
  - intros algorithm Hh. unfold createContentAddress.
    apply parseContentAddress_joined; [|exact Hh|]; by destruct algorithm.
Qed.

Lemma parse_created (algorithm : HashAlgorithmValue) (hash : string) :
  hash <> EmptyString ->
  parseContentAddress (createContentAddress algorithm hash) =
  Some {| parsed_algorithm := HashAlgorithm_name algorithm; parsed_hash := hash |}.
Proof.
  intros Hhash. unfold createContentAddress.
  apply parseContentAddress_joined; [|exact Hhash|]; by destruct algorithm.
Qed.

Lemma includes_supported (name : string) :
  includes supportedAlgorithms name = true <->
  exists algorithm, name = HashAlgorithm_name algorithm.
Proof.
  unfold includes, supportedAlgorithms. simpl. rewrite !orb_true_iff, !String.eqb_eq. split.
  - intros [H|[H|[H|H]]]; [by exists SHA256|by exists SHA384|by exists SHA512|discriminate].
  - intros [[] ->]; auto.
Qed.

Lemma HashAlgorithm_of_name_name (algorithm : HashAlgorithmValue) :
  HashAlgorithm_of_name (HashAlgorithm_name algorithm) = Some algorithm.
Proof. by destruct algorithm. Qed.

Lemma hex_test_nonempty (s : string) : hex_test s = true -> s <> EmptyString.
Proof.
  unfold hex_test. intros H. apply andb_prop in H as [H _].
  apply negb_true_iff in H. by apply eqb_empty_false.
Qed.

(** X2. [isValidContentAddress] accepts exactly the strings made of the
    name of a supported algorithm, a colon, and one or more hexadecimal
    digits. *)
Theorem isValidContentAddress_iff (address : string) :
  isValidContentAddress address = true <->
  exists algorithm hash,
    address = createContentAddress algorithm hash /\ hex_test hash = true.
Proof.
  unfold isValidContentAddress. split.
  - destruct (parseContentAddress address) as [[algorithmPart hashPart]|] eqn:Hparse;
      [|discriminate].
    apply parseContentAddress_parts in Hparse as (-> & _ & _ & _).
    cbn [parsed_algorithm parsed_hash].
    destruct (includes supportedAlgorithms algorithmPart) eqn:Hsupported; cbn [negb];
      [|discriminate].
    apply includes_supported in Hsupported as [algorithm ->].
    intros Hhex. by exists algorithm, hashPart.
  - intros (algorithm & hash & -> & Hhex).
    rewrite (parse_created algorithm hash (hex_test_nonempty _ Hhex)).
    cbn [parsed_algorithm parsed_hash].
    assert (includes supportedAlgorithms (HashAlgorithm_name algorithm) = true) as ->
      by (apply includes_supported; by exists algorithm).
    exact Hhex.
Qed.

Section VerifyContentAddressProperties.
Context `{RT : JSRuntime}.

Lemma parse_created_empty (algorithm : HashAlgorithmValue) :
  parseContentAddress (createContentAddress algorithm EmptyString) = None.
Proof.
  unfold parseContentAddress, createContentAddress.
  assert (indexOf_char ":"%char (HashAlgorithm_name algorithm) = None) as Hnone
    by by destruct algorithm.
  destruct (indexOf_char_join ":"%char _ EmptyString Hnone) as (Hi & Hto & Hfrom).
  change (HashAlgorithm_name algorithm +:+ ":" +:+ EmptyString)
    with (HashAlgorithm_name algorithm +:+ String ":"%char EmptyString).
  rewrite Hi, Hto, Hfrom. cbn [String.eqb]. by rewrite orb_true_r.
Qed.

Lemma slice_to_empty_iff (n : nat) (s : string) :
  slice_to n s = EmptyString <-> n = 0%nat \/ s = EmptyString.
Proof.
  destruct n as [|n], s as [|c s]; cbn [slice_to]; split; auto; try discriminate.
  intros [Hn|Hs]; discriminate.
Qed.

(** When the truncation of [computeContentAddress] leaves nothing of a
    digest. *)
Lemma truncated_empty_iff (truncateLength : option JSNumber) (hash : string) :
  truncated truncateLength hash = EmptyString <->
  hash = EmptyString \/
  exists n, truncateLength = Some n /\ number_truthy n = true /\
            slice_end n (String.length hash) = 0%nat.
Proof.
  unfold truncated. destruct truncateLength as [n|].
  - destruct (number_truthy n) eqn:Htruthy.
    + unfold String_slice. rewrite slice_to_empty_iff. split.
      * intros [Hend|Hhash]; [right; by exists n | by left].
      * intros [Hhash|(n' & [= <-] & _ & Hend)]; [by right | by left].
    + split; [by left|]. intros [Hhash|(n' & [= <-] & Htruthy' & _)]; [done | congruence].
  - split; [by left|]. by intros [Hhash|(n' & [=] & _)].
Qed.

(** X3. An address computed by [computeContentAddress] is the algorithm
    name, a colon and the truncated digest, and it verifies against the
    content it was computed from, under the configuration it was computed
    with, exactly when the truncated digest is not empty; else the address
    does not parse and [verifyContentAddress] returns false. The truncated
    digest is empty when the digest is, or when [truncateLength] is truthy
    and [slice] ends at 0: for a negative length that reaches the start of
    the digest, for a fraction between -1 and 1, for -Infinity. Without a
    configuration the address verifies when it was not truncated and the
    digest is not empty. *)
Theorem verifyContentAddress_accepts_computed
  (digest_by_other_name : string -> string -> Result string string)
  (content : JSValue) (config : ContentAddressConfig) :
  let hash := digest_hex (algorithm config) (canonicalize content) in
  let finalHash := truncated (truncateLength config) hash in
  computeContentAddress_with content config =
    createContentAddress (algorithm config) finalHash /\
  verifyContentAddress digest_by_other_name content
    (computeContentAddress_with content config) (Some config) =
    Ok (negb (String.eqb finalHash EmptyString)) /\
  (finalHash = EmptyString <->
   hash = EmptyString \/
   exists n, truncateLength config = Some n /\ number_truthy n = true /\
             slice_end n (String.length hash) = 0%nat) /\
  (truncateLength config = None ->
   verifyContentAddress digest_by_other_name content
     (computeContentAddress_with content config) None =
     Ok (negb (String.eqb hash EmptyString))).
Proof.
  intros hash finalHash.
  assert (computeContentAddress_with content config =
          createContentAddress (algorithm config) finalHash) as Haddress by reflexivity.
  assert (forall given : option ContentAddressConfig,
            truncated (given ≫= truncateLength) hash = finalHash ->
            verifyContentAddress digest_by_other_name content
              (computeContentAddress_with content config) given =
            Ok (negb (String.eqb finalHash EmptyString))) as Hverify.
  { intros given Hgiven. unfold verifyContentAddress. rewrite Haddress.
    destruct (String.eqb finalHash EmptyString) eqn:Hempty.
    - apply String.eqb_eq in Hempty. by rewrite Hempty, parse_created_empty.
    - apply String.eqb_neq in Hempty. rewrite (parse_created _ _ Hempty).
      cbn [parsed_algorithm]. rewrite HashAlgorithm_of_name_name.
      unfold computeContentAddress_with. cbn [algorithm truncateLength]. fold hash.
      rewrite Hgiven.
      change (HashAlgorithm_name (algorithm config) +:+ ":" +:+ finalHash)
        with (createContentAddress (algorithm config) finalHash).
      by rewrite String.eqb_refl. }
  split; [exact Haddress|]. split; [|split].
  - by apply Hverify.
  - apply truncated_empty_iff.
  - intros Hnone.
    assert (finalHash = hash) as Hfinal by (unfold finalHash; by rewrite Hnone).
    rewrite <-Hfinal. apply Hverify. by rewrite Hfinal.
Qed.

End VerifyContentAddressProperties.

(** ** Properties of the version comparison *)

Section PolicyVersionsProperties.
Variable parseInt10 : string -> option Z.

Lemma compare_components_antisym (steps : nat) (vA vB : list Z) :
  compare_components steps vA vB = (- compare_components steps vB vA)%Z.
Proof.
  revert vA vB. induction steps as [|steps IH]; intros vA vB; simpl; [reflexivity|].
  rewrite (Z.eqb_sym (default 0%Z (head vB))).
  destruct (_ =? _)%Z; simpl; [apply IH | lia].
Qed.

Lemma compare_components_zero (steps : nat) (vA vB : list Z) :
  compare_components steps vA vB = 0%Z <->
  forall i, (i < steps)%nat -> nth i vA 0%Z = nth i vB 0%Z.
Proof.
  revert vA vB. induction steps as [|steps IH]; intros vA vB; simpl.
  - split; [intros _ i Hi; lia | reflexivity].
  - destruct (Z.eqb_spec (default 0%Z (head vA)) (default 0%Z (head vB))) as [Heq|Hne]; simpl.
    + rewrite IH. split.
      * intros H [|i] Hi; [by destruct vA, vB|].
        specialize (H i ltac:(lia)). by destruct vA, vB; simpl in *; try destruct i.
      * intros H i Hi. specialize (H (S i) ltac:(lia)).
        by destruct vA, vB; simpl in *; try destruct i.
    + split; [lia|]. intros H. specialize (H 0%nat ltac:(lia)).
      by destruct vA, vB.
Qed.

(** X4. [comparePolicyVersions] is antisymmetric, and it returns 0 exactly
    when the two versions have the same numeric components, a missing
    component counting as 0 (so 1.2 and 1.2.0 are equal). *)
Theorem comparePolicyVersions_antisymmetric (a b : string) :
  comparePolicyVersions parseInt10 a b = (- comparePolicyVersions parseInt10 b a)%Z /\
  (comparePolicyVersions parseInt10 a b = 0%Z <->
   forall i, nth i (parseVersion parseInt10 a) 0%Z = nth i (parseVersion parseInt10 b) 0%Z).
Proof.
  unfold comparePolicyVersions. split.
  - rewrite (Nat.max_comm (length (parseVersion parseInt10 b))).
    apply compare_components_antisym.
  - rewrite compare_components_zero. split; [|by auto].
    intros H i.
    destruct (Nat.lt_ge_cases i
                (Nat.max (length (parseVersion parseInt10 a))
                         (length (parseVersion parseInt10 b)))) as [Hlt|Hge];
      [by apply H|].
    rewrite !nth_overflow by lia. reflexivity.
Qed.

End PolicyVersionsProperties.

Section MoreEvaluatorProperties.
Context `{RT : JSRuntime}.

(** ** More properties of the policy evaluation engine *)

Lemma verdict_of_fields (registry : RuleEvaluatorRegistry) (policies : list PolicyDefinition)
  (context : PolicyEvaluationContext) (evaluatedAt : Timestamp) (elapsedMs : number) :
  match entries_of registry context policies with
  | Err raised => verdict_of registry policies context evaluatedAt elapsedMs = Err raised
  | Ok results =>
      exists v,
        verdict_of registry policies context evaluatedAt elapsedMs = Ok v /\
        policyResults v = results /\
        verdict_result v = aggregate results /\
        blockingPolicies v =
          map entry_policyId (List.filter (failed_with EnforcementMode.BLOCK) results) /\
        escalatingPolicies v =
          map entry_policyId (List.filter (failed_with EnforcementMode.ESCALATE) results) /\
        verdict_annotations v =
          concat (map (fun entry => annotations (entry_verdict entry)) results) /\
        length (violations v) =
          length (List.filter (fun entry => negb (passed (entry_verdict entry))) results)
  end.
Proof.
  pose proof (evaluateAll_outcome registry policies context evaluatedAt elapsedMs) as Hrun.
  unfold verdict_of.
  destruct (entries_of registry context policies) as [results|raised]; [|exact Hrun].
  destruct Hrun as (v & Hv & Hresults & Hresult & Hblocking & Hescalating & Hannotations &
                    Hviolations & _).
  by exists v.
Qed.

(** A policy result carries an annotation exactly when it failed. *)
Lemma entry_annotated_iff_failed (registry : RuleEvaluatorRegistry)
  (context : PolicyEvaluationContext) (policy : PolicyDefinition)
  (entry : PolicyVerdictEntry) :
  entry_of registry context policy = Ok entry ->
  isEmpty (annotations (entry_verdict entry)) = passed (entry_verdict entry).
Proof.
  intros Hentry. apply entry_of_Ok in Hentry as (result & Hresult & ->).
  cbn [entry_for entry_verdict]. revert Hresult. unfold evaluatePolicy.
  destruct (isPolicyActive policy (ctx_timestamp context)); simpl; [|by intros [= <-]].
  destruct (registry_evaluate registry _ _ context) as [[]|thrown]; try by intros [= <-].
  destruct (errorMessage_of thrown); [by intros [= <-] | discriminate].
Qed.

Lemma isEmpty_concat_map {A B} (f : A -> list B) (l : list A) :
  isEmpty (concat (map f l)) = forallb (fun a => isEmpty (f a)) l.
Proof.
  induction l as [|a l IH]; simpl; [reflexivity|].
  destruct (f a); simpl; [exact IH | reflexivity].
Qed.

Lemma failed_with_not_passed (e : EnforcementModeValue) (entry : PolicyVerdictEntry) :
  failed_with e entry = true -> passed (entry_verdict entry) = false.
Proof. unfold failed_with. by destruct (passed (entry_verdict entry)). Qed.

Lemma aggregate_ALLOW_iff_passed (results : list PolicyVerdictEntry) :
  Forall (fun entry => isEmpty (annotations (entry_verdict entry)) =
                       passed (entry_verdict entry)) results ->
  aggregate results = VerdictResult.ALLOW <->
  forallb (fun entry => passed (entry_verdict entry)) results = true.
Proof.
  unfold aggregate. rewrite isEmpty_concat_map.
  induction 1 as [|entry rest Hentry _ IH]; [done|].
  cbn [existsb forallb]. rewrite Hentry.
  destruct (failed_with EnforcementMode.BLOCK entry) eqn:Hblock.
  { apply failed_with_not_passed in Hblock. rewrite Hblock. done. }
  destruct (failed_with EnforcementMode.ESCALATE entry) eqn:Hescalate.
  { apply failed_with_not_passed in Hescalate. rewrite Hescalate.
    cbn [orb andb]. split; [|discriminate]. by destruct (existsb _ _). }
  cbn [orb]. destruct (passed (entry_verdict entry)); cbn [andb].
  - exact IH.
  - split; [|discriminate].
    destruct (existsb (failed_with EnforcementMode.BLOCK) _); [discriminate|].
    destruct (existsb (failed_with EnforcementMode.ESCALATE) _); discriminate.
Qed.

Lemma aggregate_ALLOW_iff (registry : RuleEvaluatorRegistry)
  (context : PolicyEvaluationContext) (policies : list PolicyDefinition)
  (results : list PolicyVerdictEntry) :
  entries_of registry context policies = Ok results ->
  aggregate results = VerdictResult.ALLOW <->
  forallb (fun entry => passed (entry_verdict entry)) results = true.
Proof.
  intros Hentries. apply aggregate_ALLOW_iff_passed.
  apply entries_of_Ok in Hentries as [Hall _].
  induction Hall as [|policy entry rest entries Hentry _ IH]; constructor; [|exact IH].
  by eapply entry_annotated_iff_failed.
Qed.

(** X5. The verdict [evaluateAll] returns is ALLOW exactly when every policy
    result passed, and then reports no violation: a failed policy of any
    enforcement mode, SHADOW and ANNOTATE included, leaves an annotation and
    so raises the verdict to ANNOTATE at least. When [evaluateAll] returns no
    verdict, the evaluation of one of the policies has rejected. *)
Theorem evaluateAll_ALLOW_iff_all_passed
  (registry : RuleEvaluatorRegistry) (policies : list PolicyDefinition)
  (context : PolicyEvaluationContext) (evaluatedAt : Timestamp) (elapsedMs : number) :
  match verdict_of registry policies context evaluatedAt elapsedMs with
  | Ok v =>
      (verdict_result v = VerdictResult.ALLOW <->
       forallb (fun entry => passed (entry_verdict entry)) (policyResults v) = true) /\
      (verdict_result v = VerdictResult.ALLOW <-> violations v = [])
  | Err raised =>
      exists policy,
        In policy policies /\ outcome (evaluatePolicy registry policy context) = Err raised
  end.
Proof.
  pose proof (verdict_of_fields registry policies context evaluatedAt elapsedMs) as Hfields.
  destruct (entries_of registry context policies) as [results|raised] eqn:Hentries.
  - destruct Hfields as (v & -> & Hresults & Hresult & _ & _ & _ & Hviolations).
    rewrite Hresult, Hresults.
    split; [by eapply aggregate_ALLOW_iff|].
    rewrite (aggregate_ALLOW_iff _ _ _ _ Hentries).
    assert (violations v = [] <-> length (violations v) = 0%nat) as ->
      by (destruct (violations v); simpl; split; congruence).
    rewrite Hviolations. clear.
    induction results as [|entry rest IH]; simpl; [done|].
    destruct (passed (entry_verdict entry)); simpl; [exact IH | split; discriminate].
  - rewrite Hfields.
    apply entries_of_Err in Hentries as (before & policy & after & -> & _ & _ & Hfails).
    exists policy. split; [|exact Hfails]. apply in_or_app. right. by left.
Qed.

Lemma aggregate_restrictiveness (results : list PolicyVerdictEntry) :
  restrictiveness (aggregate results) =
  if existsb (failed_with EnforcementMode.BLOCK) results then 3
  else if existsb (failed_with EnforcementMode.ESCALATE) results then 2
  else if negb (forallb (fun entry => isEmpty (annotations (entry_verdict entry))) results)
  then 1 else 0.
Proof.
  unfold aggregate. rewrite isEmpty_concat_map.
  destruct (existsb (failed_with EnforcementMode.BLOCK) results); [reflexivity|].
  destruct (existsb (failed_with EnforcementMode.ESCALATE) results); [reflexivity|].
  by destruct (forallb _ results).
Qed.

Lemma aggregate_app (results1 results2 : list PolicyVerdictEntry) :
  restrictiveness (aggregate (results1 ++ results2)) =
  Nat.max (restrictiveness (aggregate results1)) (restrictiveness (aggregate results2)).
Proof.
  rewrite !aggregate_restrictiveness, !existsb_app, !forallb_app.
  destruct (existsb (failed_with EnforcementMode.BLOCK) results1),
           (existsb (failed_with EnforcementMode.BLOCK) results2),
           (existsb (failed_with EnforcementMode.ESCALATE) results1),
           (existsb (failed_with EnforcementMode.ESCALATE) results2),
           (forallb _ results1), (forallb _ results2); reflexivity.
Qed.

Lemma restrictiveness_inj (a b : VerdictResultValue) :
  restrictiveness a = restrictiveness b -> a = b.
Proof. by destruct a, b. Qed.

(** The entries of two lists of policies evaluated one after the other. *)
Lemma entries_of_app (registry : RuleEvaluatorRegistry) (context : PolicyEvaluationContext)
  (policies1 policies2 : list PolicyDefinition) :
  entries_of registry context (policies1 ++ policies2)%list =
  match entries_of registry context policies1 with
  | Err raised => Err raised
  | Ok results1 =>
      match entries_of registry context policies2 with
      | Err raised => Err raised
      | Ok results2 => Ok (results1 ++ results2)%list
      end
  end.
Proof.
  induction policies1 as [|policy rest IH]; cbn [app entries_of].
  - by destruct (entries_of registry context policies2).
  - destruct (entry_of registry context policy); [|reflexivity].
    rewrite IH. destruct (entries_of registry context rest); [|reflexivity].
    by destruct (entries_of registry context policies2).
Qed.

(** X6. Evaluating two lists of policies together gives the more
    restrictive of their two verdicts, and so a verdict at least as
    restrictive as that of either list, whichever comes first. There is a
    verdict for the two lists together exactly when there is one for each;
    else [evaluateAll] rejects as it does for the first list, or for the
    second when the first has a verdict. *)
Theorem evaluateAll_of_union_is_most_restrictive
  (registry : RuleEvaluatorRegistry) (policies1 policies2 : list PolicyDefinition)
  (context : PolicyEvaluationContext) (evaluatedAt : Timestamp) (elapsedMs : number) :
  let verdict ps := verdict_of registry ps context evaluatedAt elapsedMs in
  match verdict (policies1 ++ policies2)%list, verdict policies1, verdict policies2 with
  | Ok v, Ok v1, Ok v2 =>
      restrictiveness (verdict_result v) =
        Nat.max (restrictiveness (verdict_result v1)) (restrictiveness (verdict_result v2)) /\
      exists v', verdict (policies2 ++ policies1)%list = Ok v' /\
                 verdict_result v' = verdict_result v
  | Err raised, Err raised1, _ => raised = raised1
  | Err raised, Ok _, Err raised2 => raised = raised2
  | _, _, _ => False
  end.
Proof.
  intros verdict. subst verdict. cbv beta.
  pose proof (verdict_of_fields registry (policies1 ++ policies2) context evaluatedAt elapsedMs)
    as Hboth.
  pose proof (verdict_of_fields registry (policies2 ++ policies1) context evaluatedAt elapsedMs)
    as Hswapped.
  pose proof (verdict_of_fields registry policies1 context evaluatedAt elapsedMs) as Hfirst.
  pose proof (verdict_of_fields registry policies2 context evaluatedAt elapsedMs) as Hsecond.
  rewrite entries_of_app in Hboth, Hswapped.
  destruct (entries_of registry context policies1) as [results1|raised1].
  - destruct Hfirst as (v1 & -> & _ & Hresult1 & _).
    destruct (entries_of registry context policies2) as [results2|raised2].
    + destruct Hsecond as (v2 & -> & _ & Hresult2 & _).
      destruct Hboth as (v & -> & _ & Hresult & _).
      destruct Hswapped as (v' & -> & _ & Hresult' & _).
      rewrite Hresult, Hresult1, Hresult2. split; [apply aggregate_app|].
      exists v'. split; [reflexivity|].
      apply restrictiveness_inj. rewrite Hresult', !aggregate_app.
      apply Nat.max_comm.
    + by rewrite Hboth, Hsecond.
  - by rewrite Hboth, Hfirst.
Qed.

(** Dropping the policies that are not active changes neither whether the
    loop of [evaluateAll] ends early nor what it adds up. *)
Lemma entries_of_active (registry : RuleEvaluatorRegistry) (context : PolicyEvaluationContext)
  (policies : list PolicyDefinition) :
  let active := List.filter (fun p => isPolicyActive p (ctx_timestamp context)) policies in
  match entries_of registry context policies, entries_of registry context active with
  | Ok results, Ok results' =>
      aggregate results = aggregate results' /\
      map entry_policyId (List.filter (failed_with EnforcementMode.BLOCK) results) =
        map entry_policyId (List.filter (failed_with EnforcementMode.BLOCK) results') /\
      map entry_policyId (List.filter (failed_with EnforcementMode.ESCALATE) results) =
        map entry_policyId (List.filter (failed_with EnforcementMode.ESCALATE) results') /\
      concat (map (fun entry => annotations (entry_verdict entry)) results) =
        concat (map (fun entry => annotations (entry_verdict entry)) results')
  | Err raised, Err raised' => raised = raised'
  | _, _ => False
  end.
Proof.
  assert (forall entry xs,
            restrictiveness (aggregate (entry :: xs)) =
            Nat.max (restrictiveness (aggregate [entry])) (restrictiveness (aggregate xs)))
    as Hcons by (intros entry xs; apply (aggregate_app [entry] xs)).
  cbv zeta. induction policies as [|policy rest IH]; [done|].
  cbn [List.filter entries_of].
  destruct (isPolicyActive policy (ctx_timestamp context)) eqn:Hactive.
  - cbn [entries_of]. destruct (entry_of registry context policy) as [entry|raised];
      [|reflexivity].
    destruct (entries_of registry context rest) as [results|raised],
             (entries_of registry context (List.filter _ rest)) as [results'|raised'];
      try done.
    destruct IH as (IHresult & IHblocking & IHescalating & IHannotations).
    cbn [map List.filter concat]. repeat split.
    + apply restrictiveness_inj.
      by rewrite (Hcons entry results), (Hcons entry results'), IHresult.
    + destruct (failed_with EnforcementMode.BLOCK entry); cbn [map]; congruence.
    + destruct (failed_with EnforcementMode.ESCALATE entry); cbn [map]; congruence.
    + congruence.
  - unfold entry_of at 1, evaluatePolicy at 1. rewrite Hactive. cbn [negb outcome].
    (* the entry of an inactive policy has passed and has no annotation *)
    destruct (entries_of registry context rest) as [results|raised],
             (entries_of registry context (List.filter _ rest)) as [results'|raised'];
      done.
Qed.

(** X7. Policies that are not active at the context's timestamp have no
    effect on the outcome of [evaluateAll]: dropping them from the input
    leaves the result, the blocking and escalating policy ids and the
    annotations of the verdict as they are, and when [evaluateAll] rejects,
    it rejects with the same value. *)
Theorem evaluateAll_ignores_inactive_policies
  (registry : RuleEvaluatorRegistry) (policies : list PolicyDefinition)
  (context : PolicyEvaluationContext) (evaluatedAt : Timestamp) (elapsedMs : number) :
  let active := List.filter (fun p => isPolicyActive p (ctx_timestamp context)) policies in
  match verdict_of registry policies context evaluatedAt elapsedMs,
        verdict_of registry active context evaluatedAt elapsedMs with
  | Ok v, Ok v' =>
      verdict_result v = verdict_result v' /\
      blockingPolicies v = blockingPolicies v' /\
      escalatingPolicies v = escalatingPolicies v' /\
      verdict_annotations v = verdict_annotations v'
  | Err raised, Err raised' => raised = raised'
  | _, _ => False
  end.
Proof.
  intros active.
  pose proof (verdict_of_fields registry policies context evaluatedAt elapsedMs) as Hall.
  pose proof (verdict_of_fields registry active context evaluatedAt elapsedMs) as Hactive.
  pose proof (entries_of_active registry context policies) as Hsame. cbv zeta in Hsame.
  fold active in Hsame.
  destruct (entries_of registry context policies) as [results|raised],
           (entries_of registry context active) as [results'|raised']; try done.
  - destruct Hall as (v & -> & _ & Hresult & Hblocking & Hescalating & Hannotations & _).
    destruct Hactive
      as (v' & -> & _ & Hresult' & Hblocking' & Hescalating' & Hannotations' & _).
    destruct Hsame as (Hsame1 & Hsame2 & Hsame3 & Hsame4).
    rewrite Hresult, Hblocking, Hescalating, Hannotations,
      Hresult', Hblocking', Hescalating', Hannotations'.
    by repeat split.
  - by rewrite Hall, Hactive.
Qed.

Lemma RuleFormat_eqb_eq (a b : RuleFormatValue) : RuleFormat_eqb a b = true <-> a = b.
Proof. by destruct a, b. Qed.

(** X8. Under the registry of [createRuleEvaluatorRegistry], whatever its
    two built-in evaluators do, an active policy whose rule format is neither
    expression nor javascript fails safe: [evaluatePolicy] returns BLOCK,
    with the missing evaluator named in [error]. Once [registerEvaluator] has
    registered an evaluator for that format, [evaluatePolicy] returns a
    passing result exactly when that evaluator returns true. *)
Theorem evaluatePolicy_of_unregistered_format
  (expressionEvaluator javaScriptEvaluator evaluator : RuleEvaluator)
  (policy : PolicyDefinition) (context : PolicyEvaluationContext) :
  isPolicyActive policy (ctx_timestamp context) = true ->
  rule_format (policy_rule policy) <> RuleFormat.EXPRESSION ->
  rule_format (policy_rule policy) <> RuleFormat.JAVASCRIPT ->
  let evaluators := default_evaluators expressionEvaluator javaScriptEvaluator in
  outcome (evaluatePolicy (createRuleEvaluatorRegistry evaluators) policy context) =
    Ok (fail_safe_block policy
          ("No evaluator registered for format: " +:+
           RuleFormat.name (rule_format (policy_rule policy)))) /\
  ((exists result,
      outcome (evaluatePolicy
                 (registerEvaluator (rule_format (policy_rule policy)) evaluator evaluators)
                 policy context) = Ok result /\
      passed result = true) <->
   evaluator (rule_expression (policy_rule policy)) context = Ok true).
Proof.
  intros Hactive Hexpression Hjavascript evaluators. split.
  - unfold evaluatePolicy. rewrite Hactive. simpl.
    unfold evaluators, default_evaluators, evaluators_set.
    destruct (rule_format (policy_rule policy)); try congruence; reflexivity.
  - unfold evaluatePolicy, registerEvaluator. rewrite Hactive. simpl.
    unfold evaluators_set at 1.
    assert (RuleFormat_eqb (rule_format (policy_rule policy))
              (rule_format (policy_rule policy)) = true) as ->
      by by apply RuleFormat_eqb_eq.
    destruct (evaluator _ context) as [[]|thrown]; simpl.
    + split; [done|]. intros _. eexists. by split.
    + split; [|discriminate]. by intros (result & [= <-] & Hpassed).
    + split; [|discriminate].
      destruct (errorMessage_of thrown); by intros (result & [= <-] & Hpassed).
Qed.

End MoreEvaluatorProperties.

Section MoreLifecycleProperties.
Context `{RT : JSRuntime}.

(** ** More properties of the decision state machine *)

Ltac by_method c :=
  destruct c as [decisionId v at_|decisionId clock|decisionId reason at_
                |decisionId approvedBy justification at_|decisionId reason at_];
  cbn [call call_target requested_state];
  [rewrite evaluate_run|rewrite commit_run|rewrite reject_run
  |rewrite approve_run|rewrite cancel_run].

Lemma propose_run (input : ProposeDecisionInput) (proposedAt : Timestamp)
  (sm : DecisionStateMachine) :
  propose input proposedAt sm =
  let d :=
    {| id := computeContentAddress (decisionData input proposedAt);
       state := DecisionState.PROPOSED; action := input_action input;
       proposedBy := input_proposedBy input; contextRefs := input_contextRefs input;
       rationale := input_rationale input; verdict := None;
       alternativeIds := default [] (input_alternativeIds input);
       proposedAt := proposedAt; evaluatedAt := None; concludedAt := None;
       approval := None |} in
  (Ok d, {| decisions :=
              <[computeContentAddress (decisionData input proposedAt) := d]> (decisions sm);
            transactions := transactions sm |}).
Proof. reflexivity. Qed.

Lemma transition_from (from to : DecisionStateValue) :
  state_includes (VALID_TRANSITIONS from) to = true ->
  match to with
  | DecisionState.PROPOSED => False
  | DecisionState.EVALUATED => from = DecisionState.PROPOSED
  | DecisionState.PENDING_APPROVAL => from = DecisionState.EVALUATED
  | DecisionState.COMMITTED | DecisionState.REJECTED =>
      from = DecisionState.EVALUATED \/ from = DecisionState.PENDING_APPROVAL
  | DecisionState.CANCELLED =>
      from = DecisionState.PROPOSED \/ from = DecisionState.EVALUATED \/
      from = DecisionState.PENDING_APPROVAL
  end.
Proof. destruct from, to; simpl; intros H; try discriminate; auto. Qed.

Ltac settle_consistent Hinc Hboth Hnone Hdeny Happroval :=
  unfold consistent_decision; cbn; repeat split; intros;
  try done; try discriminate;
  try (by apply Hboth);
  try (by (edestruct Happroval as [? ?]; eauto));
  try (match goal with
       | Hv : verdict _ = None |- _ => destruct (Hnone Hv)
       end; intuition congruence);
  try (match goal with
       | Hv : verdict _ = Some ?v, Hr : verdict_result ?v = VerdictResult.DENY |- _ =>
           destruct (Hdeny v Hv Hr)
       end; intuition congruence).

(** X9. In every state machine a program can build, each stored decision
    is stored under its own id and its fields agree with its state: a
    PROPOSED decision has no verdict, evaluation time, conclusion time or
    approval; the verdict and [evaluatedAt] are set together, and a decision
    without verdict is PROPOSED or CANCELLED; [concludedAt] is set exactly in
    the terminal states; a decision pending approval has an ESCALATE verdict
    and no approval; an EVALUATED decision has an ALLOW or ANNOTATE verdict,
    or an ESCALATE verdict together with an approval; a recorded approval is
    always an approval of an ESCALATE verdict; and a DENY verdict means
    REJECTED, concluded at the evaluation time. *)
Theorem reachable_decisions_are_consistent (sm : DecisionStateMachine)
  (key : ContentAddress) (d : Decision) :
  reachable sm ->
  getDecision sm key = Some d ->
  id d = key /\
  (state d = DecisionState.PROPOSED ->
   verdict d = None /\ evaluatedAt d = None /\ concludedAt d = None /\ approval d = None) /\
  (verdict d = None <-> evaluatedAt d = None) /\
  (verdict d = None ->
   state d = DecisionState.PROPOSED \/ state d = DecisionState.CANCELLED) /\
  (isTerminalState (state d) = true <-> concludedAt d <> None) /\
  (state d = DecisionState.PENDING_APPROVAL ->
   approval d = None /\
   exists v, verdict d = Some v /\ verdict_result v = VerdictResult.ESCALATE) /\
  (state d = DecisionState.EVALUATED ->
   exists v, verdict d = Some v /\
     (verdict_result v = VerdictResult.ALLOW \/ verdict_result v = VerdictResult.ANNOTATE \/
      (verdict_result v = VerdictResult.ESCALATE /\ approval d <> None))) /\
  (forall a, approval d = Some a ->
   approval_decision a = approved /\
   exists v, verdict d = Some v /\ verdict_result v = VerdictResult.ESCALATE) /\
  (forall v, verdict d = Some v -> verdict_result v = VerdictResult.DENY ->
   state d = DecisionState.REJECTED /\ concludedAt d = evaluatedAt d).
Proof.
  unfold getDecision. intros Hreachable. revert key d.
  change (forall key d, decisions sm !! key = Some d -> consistent_decision key d).
  revert sm Hreachable.
  induction 1 as [|sm input proposedAt _ IH|sm c _ IH]; intros key d Hd.
  - simpl in Hd. by rewrite lookup_empty in Hd.
  - rewrite propose_run in Hd. cbn [snd decisions] in Hd.
    rewrite lookup_insert in Hd. case_decide; [|by eapply IH].
    injection Hd as <-. subst key. unfold consistent_decision. simpl.
    repeat split; try done; try (intros; discriminate); intuition discriminate.
  - revert Hd. by_method c;
      (destruct (decisions sm !! decisionId) as [d0|] eqn:Hd0; cbn [snd]; [|by eauto]).
    + destruct (state_includes _ _) eqn:Hinc; cbn [snd decisions]; [|by eauto].
      rewrite lookup_insert. case_decide; [|by eauto]. subst key.
      intros [= <-]. apply transition_from in Hinc.
      destruct (IH _ _ Hd0) as (Hid & Hproposed & _).
      destruct (Hproposed Hinc) as (Hv & He & Hc & Ha).
      unfold consistent_decision. cbn. rewrite Hc, Ha.
      destruct (verdict_result v) eqn:Hresult; cbn;
        repeat split; try done; try (intros; discriminate).
      all: try (intros [|]; discriminate); try (intros []; discriminate).
      all: try (intros; congruence).
      all: eauto 6.
    + destruct (state_includes _ _) eqn:Hinc; cbn [snd decisions]; [|by eauto].
      rewrite lookup_insert. case_decide; [|by eauto]. subst key.
      intros [= <-]. apply transition_from in Hinc.
      destruct (IH _ _ Hd0) as (Hid & Hproposed & Hboth & Hnone & Hterminal & Hpending
                                & Hevaluated & Happroval & Hdeny).
      settle_consistent Hinc Hboth Hnone Hdeny Happroval.
    + destruct (state_includes _ _) eqn:Hinc; cbn [snd decisions]; [|by eauto].
      rewrite lookup_insert. case_decide; [|by eauto]. subst key.
      intros [= <-]. apply transition_from in Hinc.
      destruct (IH _ _ Hd0) as (Hid & Hproposed & Hboth & Hnone & Hterminal & Hpending
                                & Hevaluated & Happroval & Hdeny).
      settle_consistent Hinc Hboth Hnone Hdeny Happroval.
    + destruct (DecisionState.eqb _ _) eqn:Hpend; cbn [snd decisions]; [|by eauto].
      rewrite lookup_insert. case_decide; [|by eauto]. subst key.
      intros [= <-]. apply DecisionState_eqb_eq in Hpend.
      destruct (IH _ _ Hd0) as (Hid & Hproposed & Hboth & Hnone & Hterminal & Hpending
                                & Hevaluated & Happroval & Hdeny).
      destruct (Hpending Hpend) as (Hnoapproval & v & Hv & Hr).
      settle_consistent Hpend Hboth Hnone Hdeny Happroval.
      all: try (by (apply Hterminal; rewrite Hpend)).
      all: try congruence.
      all: try (by (exists v; rewrite Hr; eauto 6)).
      * match goal with
        | Hc : concludedAt _ <> None |- _ => apply Hterminal in Hc; by rewrite Hpend in Hc
        end.
      * by match goal with Ha : Some _ = Some a |- _ => injection Ha as <- end.
    + destruct (state_includes _ _) eqn:Hinc; cbn [snd decisions]; [|by eauto].
      rewrite lookup_insert. case_decide; [|by eauto]. subst key.
      intros [= <-]. apply transition_from in Hinc.
      destruct (IH _ _ Hd0) as (Hid & Hproposed & Hboth & Hnone & Hterminal & Hpending
                                & Hevaluated & Happroval & Hdeny).
      settle_consistent Hinc Hboth Hnone Hdeny Happroval.
Qed.

(** A call on a decision in a terminal state changes nothing. *)
Lemma call_on_terminal (c : LifecycleCall) (sm : DecisionStateMachine) (d : Decision) :
  decisions sm !! call_target c = Some d ->
  isTerminalState (state d) = true ->
  snd (call c sm) = sm.
Proof.
  intros Hd Hterminal.
  assert (VALID_TRANSITIONS (state d) = []) as Hnone.
  { unfold isTerminalState in Hterminal. by destruct (VALID_TRANSITIONS (state d)). }
  revert Hd. by_method c; intros ->; rewrite ?Hnone; try reflexivity.
  by destruct (state d).
Qed.

Lemma call_keeps_terminal (c : LifecycleCall) (sm : DecisionStateMachine)
  (key : ContentAddress) (d : Decision) :
  decisions sm !! key = Some d ->
  isTerminalState (state d) = true ->
  decisions (snd (call c sm)) !! key = Some d.
Proof.
  intros Hd Hterminal.
  destruct (decide (call_target c = key)) as [Heq|Hne].
  - subst key. by rewrite (call_on_terminal c sm d Hd Hterminal).
  - pose proof (call_outcome c sm) as H.
    destruct (call c sm) as [[d'|e] sm']; cbn [snd].
    + destruct H as (_ & _ & _ & _ & ->). by rewrite lookup_insert_ne.
    + by subst sm'.
Qed.

(** X10. A stored decision in a terminal state (COMMITTED, REJECTED or
    CANCELLED) is final for the five transition methods: after any sequence
    of their calls, on this or on other decisions, it is stored unchanged.
    [propose] leaves it alone too unless the proposal has the same content
    address, and then replaces it by a fresh PROPOSED decision. *)
Theorem terminal_decision_is_final
  (sm : DecisionStateMachine) (key : ContentAddress) (d : Decision) :
  getDecision sm key = Some d ->
  isTerminalState (state d) = true ->
  (forall cs : list LifecycleCall, getDecision (after_calls cs sm) key = Some d) /\
  (forall input proposedAt,
     getDecision (snd (propose input proposedAt sm)) key =
       if decide (computeContentAddress (decisionData input proposedAt) = key)
       then match fst (propose input proposedAt sm) with
            | Ok fresh => Some fresh
            | Err _ => None
            end
       else Some d) /\
  (forall input proposedAt fresh,
     fst (propose input proposedAt sm) = Ok fresh ->
     state fresh = DecisionState.PROPOSED /\ verdict fresh = None /\
     id fresh = computeContentAddress (decisionData input proposedAt)).
Proof.
  unfold getDecision. intros Hd Hterminal. split; [|split].
  - intros cs. revert sm Hd. induction cs as [|c cs IH]; intros sm Hd; [exact Hd|].
    cbn [after_calls fold_left]. apply IH. by apply call_keeps_terminal.
  - intros input proposedAt. rewrite propose_run. cbn [fst snd decisions].
    rewrite lookup_insert. case_decide; [reflexivity | exact Hd].
  - intros input proposedAt fresh. rewrite propose_run. cbn [fst].
    by intros [= <-].
Qed.

Lemma call_keeps_verdict (c : LifecycleCall) (sm : DecisionStateMachine)
  (key : ContentAddress) (d : Decision) :
  decisions sm !! key = Some d ->
  state d <> DecisionState.PROPOSED ->
  exists d', decisions (snd (call c sm)) !! key = Some d' /\
             state d' <> DecisionState.PROPOSED /\
             verdict d' = verdict d /\ evaluatedAt d' = evaluatedAt d.
Proof.
  intros Hd Hstate.
  by_method c;
    (destruct (decisions sm !! decisionId) as [d0|] eqn:Hd0; cbn [snd]; [|by eauto]).
  - destruct (state_includes _ _) eqn:Hinc; cbn [snd decisions]; [|by eauto].
    rewrite lookup_insert. case_decide; [|by eauto]. subst key.
    apply transition_from in Hinc. congruence.
  - destruct (state_includes _ _) eqn:Hinc; cbn [snd decisions]; [|by eauto].
    rewrite lookup_insert. case_decide; [|by eauto]. subst key.
    assert (d0 = d) as -> by congruence. eexists. split; [reflexivity|]. by cbn.
  - destruct (state_includes _ _) eqn:Hinc; cbn [snd decisions]; [|by eauto].
    rewrite lookup_insert. case_decide; [|by eauto]. subst key.
    assert (d0 = d) as -> by congruence. eexists. split; [reflexivity|]. by cbn.
  - destruct (DecisionState.eqb _ _) eqn:Hpend; cbn [snd decisions]; [|by eauto].
    rewrite lookup_insert. case_decide; [|by eauto]. subst key.
    assert (d0 = d) as -> by congruence. eexists. split; [reflexivity|]. by cbn.
  - destruct (state_includes _ _) eqn:Hinc; cbn [snd decisions]; [|by eauto].
    rewrite lookup_insert. case_decide; [|by eauto]. subst key.
    assert (d0 = d) as -> by congruence. eexists. split; [reflexivity|]. by cbn.
Qed.

(** X11. A decision is evaluated at most once. Once a stored decision has
    left PROPOSED, no sequence of calls of the transition methods changes its
    verdict or its [evaluatedAt], or brings it back to PROPOSED: every later
    [evaluate] on it fails. *)
Theorem verdict_is_recorded_once
  (sm : DecisionStateMachine) (key : ContentAddress) (d : Decision)
  (cs : list LifecycleCall) :
  getDecision sm key = Some d ->
  state d <> DecisionState.PROPOSED ->
  exists d',
    getDecision (after_calls cs sm) key = Some d' /\
    state d' <> DecisionState.PROPOSED /\
    verdict d' = verdict d /\ evaluatedAt d' = evaluatedAt d /\
    forall v at_,
      evaluate key v at_ (after_calls cs sm) =
        (Err (InvalidTransition (state d') DecisionState.EVALUATED
                (VALID_TRANSITIONS (state d'))),
         after_calls cs sm).
Proof.
  unfold getDecision. intros Hd Hstate.
  assert (exists d', decisions (after_calls cs sm) !! key = Some d' /\
                     state d' <> DecisionState.PROPOSED /\
                     verdict d' = verdict d /\ evaluatedAt d' = evaluatedAt d) as Hkept.
  { revert sm d Hd Hstate. induction cs as [|c cs IH]; intros sm d Hd Hstate.
    - exists d. by cbn.
    - cbn [after_calls fold_left].
      destruct (call_keeps_verdict c sm key d Hd Hstate) as (d1 & Hd1 & Hstate1 & Hv1 & He1).
      destruct (IH _ _ Hd1 Hstate1) as (d2 & Hd2 & Hstate2 & Hv2 & He2).
      exists d2. repeat split; try assumption; congruence. }
  destruct Hkept as (d' & Hd' & Hstate' & Hverdict & Hevaluated).
  exists d'. repeat split; try assumption.
  intros v at_. rewrite evaluate_run, Hd'.
  destruct (state_includes _ _) eqn:Hinc; [|reflexivity].
  apply transition_from in Hinc. congruence.
Qed.

(** X12. [canCommit] is sound for [commit]: when it returns true for the
    stored decision, [commit] succeeds, returns and stores that decision in
    state COMMITTED with [concludedAt] set and every other field kept, and
    records one completed commit transaction under the address of the
    transaction data; the committed decision is terminal and [canCommit] is
    false of it. *)
Theorem canCommit_is_sound_for_commit
  (sm : DecisionStateMachine) (decisionId : ContentAddress) (d : Decision)
  (clock : CommitClock) :
  getDecision sm decisionId = Some d ->
  canCommit d = true ->
  exists d',
    fst (commit decisionId clock sm) = Ok d' /\
    getDecision (snd (commit decisionId clock sm)) decisionId = Some d' /\
    state d' = DecisionState.COMMITTED /\
    concludedAt d' = Some (clock_concluded clock) /\
    same_proposal d d' /\
    verdict d' = verdict d /\ rationale d' = rationale d /\
    evaluatedAt d' = evaluatedAt d /\ approval d' = approval d /\
    transactions (snd (commit decisionId clock sm))
      !! txn_id (commit_transaction decisionId clock)
      = Some (commit_transaction decisionId clock) /\
    isTerminalState (state d') = true /\
    canCommit d' = false.
Proof.
  unfold getDecision. intros Hd Hcan. rewrite commit_run, Hd.
  unfold canCommit in Hcan. apply andb_prop in Hcan as [Hstate _].
  apply DecisionState_eqb_eq in Hstate. rewrite Hstate. cbn.
  eexists. split; [reflexivity|]. rewrite !lookup_insert_eq.
  unfold same_proposal. cbn. repeat split; reflexivity.
Qed.

(** X13. The transaction log holds completed commits only. In every state
    machine a program can build, each stored transaction is stored under its
    own id, is a commit, is completed with a completion time and no error,
    and names a decision that is stored: no transaction is ever left pending,
    rolled back or failed, and a call that fails records none. *)
Theorem transactions_are_completed_commits (sm : DecisionStateMachine) :
  reachable sm ->
  (forall txnId t, transactions sm !! txnId = Some t ->
     txn_id t = txnId /\ txn_operation t = op_commit /\ txn_status t = txn_completed /\
     txn_completedAt t <> None /\ txn_error t = None /\
     is_Some (getDecision sm (txn_decisionId t))) /\
  (forall c, isOk (fst (call c sm)) = false ->
     transactions (snd (call c sm)) = transactions sm).
Proof.
  unfold getDecision. intros Hreachable. split.
  - induction Hreachable as [|sm input proposedAt _ IH|sm c _ IH]; intros txnId t Ht.
    + cbn in Ht. by rewrite lookup_empty in Ht.
    + rewrite propose_run in Ht |- *. cbn [snd decisions transactions] in Ht |- *.
      destruct (IH _ _ Ht) as (? & ? & ? & ? & ? & Hstored).
      repeat split; try assumption.
      rewrite lookup_insert. by case_decide.
    + assert (is_Some (decisions sm !! txn_decisionId t) ->
              is_Some (decisions (snd (call c sm)) !! txn_decisionId t)) as Hkeeps.
      { intros [d Hd]. destruct (call_keeps_decision c sm _ d Hd) as (d' & Hd' & _). by eexists. }
      revert Ht Hkeeps. by_method c;
        (destruct (decisions sm !! decisionId) as [d0|] eqn:Hd0; cbn [snd];
         [|intros Ht Hkeeps; destruct (IH _ _ Ht) as (? & ? & ? & ? & ? & ?); by auto 10]).
      * destruct (state_includes _ _); cbn [snd transactions]; intros Ht Hkeeps;
          destruct (IH _ _ Ht) as (? & ? & ? & ? & ? & ?); by auto 10.
      * destruct (state_includes _ _); cbn [snd transactions decisions].
        2: { intros Ht Hkeeps; destruct (IH _ _ Ht) as (? & ? & ? & ? & ? & ?); by auto 10. }
        rewrite lookup_insert. case_decide.
        -- intros [= <-] _. cbn. rewrite lookup_insert_eq. repeat split; try done; by eexists.
        -- intros Ht Hkeeps. destruct (IH _ _ Ht) as (? & ? & ? & ? & ? & ?). by auto 10.
      * destruct (state_includes _ _); cbn [snd transactions]; intros Ht Hkeeps;
          destruct (IH _ _ Ht) as (? & ? & ? & ? & ? & ?); by auto 10.
      * destruct (DecisionState.eqb _ _); cbn [snd transactions]; intros Ht Hkeeps;
          destruct (IH _ _ Ht) as (? & ? & ? & ? & ? & ?); by auto 10.
      * destruct (state_includes _ _); cbn [snd transactions]; intros Ht Hkeeps;
          destruct (IH _ _ Ht) as (? & ? & ? & ? & ? & ?); by auto 10.
  - intros c Hfails. pose proof (call_outcome c sm) as H.
    destruct (call c sm) as [[d'|e] sm']; [discriminate|]. cbn [snd]. by subst sm'.
Qed.

(** X14. The three paths of a proposal. After [propose] and [evaluate] with
    a verdict: for ALLOW or ANNOTATE, [commit] succeeds with the verdict kept
    and no approval, and [approve] is refused; for DENY the decision is
    REJECTED, concluded at the evaluation time, and [commit], [approve] and
    [cancel] are refused; for ESCALATE the decision is pending approval, and
    after [approve] it is EVALUATED and [commit] succeeds with the approval
    recorded. *)
Theorem proposal_paths
  (sm : DecisionStateMachine) (input : ProposeDecisionInput) (proposedAt at_ decidedAt : Timestamp)
  (v : DecisionVerdict) (clock : CommitClock) (approver : ContentAddress)
  (justification reason : option string) :
  let decisionId := computeContentAddress (decisionData input proposedAt) in
  let sm2 := snd (evaluate decisionId v at_ (snd (propose input proposedAt sm))) in
  let sm3 := snd (approve decisionId approver justification decidedAt sm2) in
  match verdict_result v with
  | VerdictResult.ALLOW | VerdictResult.ANNOTATE =>
      (exists d, fst (commit decisionId clock sm2) = Ok d /\
                 state d = DecisionState.COMMITTED /\ verdict d = Some v /\
                 approval d = None) /\
      fst (approve decisionId approver justification decidedAt sm2) =
        Err (NotPendingApproval decisionId)
  | VerdictResult.DENY =>
      (exists d, getDecision sm2 decisionId = Some d /\
                 state d = DecisionState.REJECTED /\ concludedAt d = Some at_) /\
      isOk (fst (commit decisionId clock sm2)) = false /\
      isOk (fst (approve decisionId approver justification decidedAt sm2)) = false /\
      isOk (fst (cancel decisionId reason decidedAt sm2)) = false
  | VerdictResult.ESCALATE =>
      (exists d, getDecision sm2 decisionId = Some d /\
                 state d = DecisionState.PENDING_APPROVAL /\ approval d = None) /\
      (exists d, getDecision sm3 decisionId = Some d /\
                 state d = DecisionState.EVALUATED /\ canCommit d = true) /\
      (exists d a, fst (commit decisionId clock sm3) = Ok d /\
                   state d = DecisionState.COMMITTED /\ verdict d = Some v /\
                   approval d = Some a /\ approval_decidedBy a = approver /\
                   approval_decision a = approved /\ approval_decidedAt a = decidedAt)
  end.
Proof.
  intros decisionId sm2 sm3. subst sm3 sm2. unfold getDecision.
  rewrite propose_run. cbn [snd]. fold decisionId.
  rewrite evaluate_run. cbn [decisions]. rewrite lookup_insert_eq. cbn.
  destruct (verdict_result v) eqn:Hresult; cbn.
  - rewrite commit_run, approve_run. cbn. rewrite lookup_insert_eq. cbn.
    split; [|reflexivity]. eexists. split; [reflexivity|]. by cbn.
  - rewrite commit_run, approve_run, cancel_run. cbn. rewrite !lookup_insert_eq. cbn.
    split; [|done]. eexists. split; [reflexivity|]. by cbn.
  - rewrite approve_run. cbn. rewrite !lookup_insert_eq. cbn.
    rewrite commit_run. cbn. rewrite !lookup_insert_eq. cbn.
    split; [|split].
    + eexists. split; [reflexivity|]. by cbn.
    + eexists. split; [reflexivity|]. unfold canCommit. cbn. by rewrite Hresult.
    + eexists. eexists. split; [reflexivity|]. by cbn.
  - rewrite commit_run, approve_run. cbn. rewrite lookup_insert_eq. cbn.
    split; [|reflexivity]. eexists. split; [reflexivity|]. by cbn.
Qed.

(** X15. Failures of the transition methods are atomic and have one of
    three causes. A call that throws leaves both maps of the state machine as
    they were, and the error is "Decision not found" exactly when no decision
    is stored under the id; otherwise it is the invalid transition error for
    the stored state and the state the method asks for, which is then not in
    the row of the transition table, or, for [approve], the "not pending
    approval" error of a decision in another state. *)
Theorem failing_call_changes_nothing
  (c : LifecycleCall) (sm sm' : DecisionStateMachine) (e : LifecycleError) :
  call c sm = (Err e, sm') ->
  sm' = sm /\
  match getDecision sm (call_target c) with
  | None => e = DecisionNotFound (call_target c)
  | Some d =>
      e = terminal_error c (state d) /\
      match requested_state c with
      | Some to => ~ In to (VALID_TRANSITIONS (state d))
      | None => state d <> DecisionState.PENDING_APPROVAL
      end
  end.
Proof.
  unfold getDecision, terminal_error.
  by_method c;
    (destruct (decisions sm !! decisionId) as [d|] eqn:Hd; [|by intros [= <- <-]]).
  - destruct (state_includes _ _) eqn:Hinc; [discriminate|]. intros [= <- <-].
    repeat split. rewrite <-state_includes_In. by rewrite Hinc.
  - destruct (state_includes _ _) eqn:Hinc; [discriminate|]. intros [= <- <-].
    repeat split. rewrite <-state_includes_In. by rewrite Hinc.
  - destruct (state_includes _ _) eqn:Hinc; [discriminate|]. intros [= <- <-].
    repeat split. rewrite <-state_includes_In. by rewrite Hinc.
  - destruct (DecisionState.eqb _ _) eqn:Hpend; [discriminate|]. intros [= <- <-].
    repeat split. rewrite <-DecisionState_eqb_eq. by rewrite Hpend.
  - destruct (state_includes _ _) eqn:Hinc; [discriminate|]. intros [= <- <-].
    repeat split. rewrite <-state_includes_In. by rewrite Hinc.
Qed.

End MoreLifecycleProperties.

Section FailSafeEndToEnd.
Context `{RT : JSRuntime}.

(** ** From an evaluator exception to a refused commit *)

Lemma entries_of_In (registry : RuleEvaluatorRegistry) (context : PolicyEvaluationContext)
  (policies : list PolicyDefinition) (results : list PolicyVerdictEntry)
  (policy : PolicyDefinition) :
  entries_of registry context policies = Ok results ->
  In policy policies ->
  exists entry, In entry results /\ entry_of registry context policy = Ok entry.
Proof.
  intros Hentries. apply entries_of_Ok in Hentries as [Hall _].
  induction Hall as [|first entry rest entries Hentry _ IH]; [contradiction|].
  intros [<-|Hin].
  - exists entry. split; [by left | exact Hentry].
  - destruct (IH Hin) as (found & Hfound & Hok). exists found. split; [by right | exact Hok].
Qed.

(** X16. Fail-safe, end to end: an exception of a rule evaluation never
    leads to a commit. When the rule evaluation of one active policy among
    those given to [evaluateAll] throws, either [evaluateAll] returns a
    verdict, which is DENY and names that policy among the blocking ones,
    whatever the policy's own enforcement mode and whatever the other
    policies say; [evaluate] with that verdict moves a PROPOSED decision to
    REJECTED, [canCommit] is false of it and [commit] refuses it. Or
    [evaluateAll] rejects, with what the evaluation of one of the policies
    rejected with, as it does when what was thrown cannot be converted to a
    message; then there is no verdict to give to [evaluate], and [commit]
    refuses the decision, which is still PROPOSED. *)
Theorem evaluator_exception_ends_in_refused_commit
  (registry : RuleEvaluatorRegistry) (policies : list PolicyDefinition)
  (policy : PolicyDefinition) (context : PolicyEvaluationContext) (thrown : Thrown)
  (evaluatedAt : Timestamp) (elapsedMs : number) :
  In policy policies ->
  isPolicyActive policy (ctx_timestamp context) = true ->
  registry_evaluate registry (rule_format (policy_rule policy))
    (rule_expression (policy_rule policy)) context = Err thrown ->
  (isOk (errorMessage_of thrown) = false ->
   isOk (verdict_of registry policies context evaluatedAt elapsedMs) = false) /\
  match verdict_of registry policies context evaluatedAt elapsedMs with
  | Ok v =>
      isOk (errorMessage_of thrown) = true /\
      verdict_result v = VerdictResult.DENY /\
      In (computeContentAddress (PolicyDefinition_toJS policy)) (blockingPolicies v) /\
      forall (sm : DecisionStateMachine) (decisionId : ContentAddress) (d : Decision)
             (at_ : Timestamp) (clock : CommitClock),
        getDecision sm decisionId = Some d ->
        state d = DecisionState.PROPOSED ->
        exists d',
          fst (evaluate decisionId v at_ sm) = Ok d' /\
          state d' = DecisionState.REJECTED /\
          canCommit d' = false /\
          fst (commit decisionId clock (snd (evaluate decisionId v at_ sm))) =
            Err (InvalidTransition DecisionState.REJECTED DecisionState.COMMITTED [])
  | Err raised =>
      (exists rejecting,
         In rejecting policies /\
         outcome (evaluatePolicy registry rejecting context) = Err raised) /\
      forall (sm : DecisionStateMachine) (decisionId : ContentAddress) (d : Decision)
             (clock : CommitClock),
        getDecision sm decisionId = Some d ->
        state d = DecisionState.PROPOSED ->
        canCommit d = false /\
        commit decisionId clock sm =
          (Err (InvalidTransition DecisionState.PROPOSED DecisionState.COMMITTED
                  (VALID_TRANSITIONS DecisionState.PROPOSED)), sm)
  end.
Proof.
  intros Hin Hactive Hthrows.
  pose proof (verdict_of_fields registry policies context evaluatedAt elapsedMs) as Hfields.
  pose proof (evaluatePolicy_exception_blocks registry policy context thrown Hactive Hthrows)
    as Hblocks.
  destruct (entries_of registry context policies) as [results|raised] eqn:Hentries.
  - destruct Hfields as (v & -> & _ & Hresult & Hblocking & _).
    destruct (entries_of_In _ _ _ _ _ Hentries Hin) as (entry & Hentry & Hok).
    apply entry_of_Ok in Hok as (result & Hreturned & ->).
    destruct (errorMessage_of thrown) as [errorMessage|raised]; [|congruence].
    destruct Hblocks as (Hblock & _). rewrite Hblock in Hreturned.
    injection Hreturned as <-.
    assert (failed_with EnforcementMode.BLOCK
              (entry_for policy (fail_safe_block policy errorMessage)) = true)
      as Hfailed by reflexivity.
    assert (verdict_result v = VerdictResult.DENY) as Hdeny.
    { rewrite Hresult. unfold aggregate.
      assert (existsb (failed_with EnforcementMode.BLOCK) results = true) as ->;
        [|reflexivity].
      apply existsb_exists. eexists. split; [exact Hentry | exact Hfailed]. }
    split; [discriminate|]. split; [reflexivity|]. split; [exact Hdeny|]. split.
    + rewrite Hblocking.
      change (computeContentAddress (PolicyDefinition_toJS policy))
        with (entry_policyId (entry_for policy (fail_safe_block policy errorMessage))).
      apply in_map, filter_In. by split.
    + unfold getDecision. intros sm decisionId d at_ clock Hd Hstate.
      rewrite evaluate_run, Hd, Hstate, Hdeny. cbn.
      eexists. split; [reflexivity|]. cbn. split; [reflexivity|]. split; [reflexivity|].
      rewrite commit_run. cbn. by rewrite lookup_insert_eq.
  - rewrite Hfields. split; [done|]. split.
    + apply entries_of_Err in Hentries as (before & rejecting & after & -> & _ & _ & Hfails).
      exists rejecting. split; [|exact Hfails]. apply in_or_app. right. by left.
    + unfold getDecision. intros sm decisionId d clock Hd Hstate.
      split; [unfold canCommit; by rewrite Hstate|].
      by rewrite commit_run, Hd, Hstate.
Qed.

End FailSafeEndToEnd.

Section MoreApprovalProperties.
Context `{RT : JSRuntime}.

(** ** More properties of the approval queue *)

Lemma startReview_run (requestId reviewerId : ContentAddress) (q : ApprovalQueue) :
  startReview requestId reviewerId q =
  match requests q !! requestId with
  | None => (Err (RequestNotFound requestId), q)
  | Some r =>
      if is_PENDING (request_status r) then
        if includes (approvers r) reviewerId then
          let r' := with_status r ApprovalStatus.IN_REVIEW (request_outcome r) in
          (Ok r', snd (requests_set requestId r' q))
        else (Err (NotAuthorizedToReview reviewerId), q)
      else (Err (RequestNotPending requestId (request_status r)), q)
  end.
Proof.
  unfold startReview, request_or_throw, bind, throw, ret.
  destruct (requests q !! requestId) as [r|]; [|reflexivity].
  destruct (is_PENDING _); [|reflexivity]. by destruct (includes _ _).
Qed.

Lemma recordDecision_run (requestId : ContentAddress) (decision : ApprovalChoice)
  (decidedBy : ContentAddress) (options : option DecisionOptions) (decidedAt : Timestamp)
  (q : ApprovalQueue) :
  recordDecision requestId decision decidedBy options decidedAt q =
  match requests q !! requestId with
  | None => (Err (RequestNotFound requestId), q)
  | Some r =>
      if is_open (request_status r) then
        if includes (approvers r) decidedBy then
          let r' :=
            with_status r
              (match decision with
               | approved => ApprovalStatus.APPROVED
               | rejected => ApprovalStatus.REJECTED
               end)
              (Some {| outcome_decision := decision;
                       outcome_decidedBy := decidedBy;
                       outcome_decidedAt := decidedAt;
                       outcome_justification := options ≫= opt_justification;
                       outcome_conditions := options ≫= opt_conditions;
                       automated := false |}) in
          (Ok r', snd (requests_set requestId r' q))
        else (Err (NotAuthorizedToDecide decidedBy), q)
      else (Err (RequestCannotBeDecided requestId (request_status r)), q)
  end.
Proof.
  unfold recordDecision, request_or_throw, bind, throw, ret.
  destruct (requests q !! requestId) as [r|]; [|reflexivity].
  destruct (is_open _); [|reflexivity]. by destruct (includes _ _).
Qed.

Lemma withdraw_run (requestId withdrawnBy : ContentAddress) (q : ApprovalQueue) :
  withdraw requestId withdrawnBy q =
  match requests q !! requestId with
  | None => (Err (RequestNotFound requestId), q)
  | Some r =>
      if is_open (request_status r) then
        if String.eqb (requestedBy r) withdrawnBy then
          let r' := with_status r ApprovalStatus.WITHDRAWN (request_outcome r) in
          (Ok r', snd (requests_set requestId r' q))
        else (Err OnlyRequesterCanWithdraw, q)
      else (Err (RequestCannotBeWithdrawn requestId (request_status r)), q)
  end.
Proof.
  unfold withdraw, request_or_throw, bind, throw, ret.
  destruct (requests q !! requestId) as [r|]; [|reflexivity].
  destruct (is_open _); [|reflexivity]. by destruct (String.eqb _ _).
Qed.

Lemma is_PENDING_open (status : ApprovalStatusValue) :
  is_PENDING status = true -> is_open status = true.
Proof. by destruct status. Qed.

Lemma open_has_no_outcome (r : ApprovalRequest) :
  is_open (request_status r) = true -> outcome_fits r -> request_outcome r = None.
Proof. unfold outcome_fits. by destruct (request_status r). Qed.

Lemma processTimeouts_body_resolves (defaultAction : TimeoutAction) (now : Timestamp)
  (st : list ApprovalRequest * ApprovalQueue) (id : ContentAddress) :
  resolves_at_most_one (snd st) (snd (processTimeouts_body defaultAction now st id)).
Proof.
  unfold processTimeouts_body.
  destruct (requests (snd st) !! id) as [r|] eqn:Hr; [|by left].
  destruct (has_timed_out r now) eqn:Hexpired; [|by left].
  right. exists id, r, ApprovalStatus.TIMED_OUT. eexists.
  split; [exact Hr|]. split.
  { unfold has_timed_out in Hexpired. by apply andb_prop in Hexpired as [? _]. }
  split; [|reflexivity].
  intros _. unfold outcome_fits. cbn. eexists. split; [reflexivity|]. cbn.
  by destruct defaultAction.
Qed.

(** What every step that resolves at most one request keeps, the methods keep. *)
Lemma queue_after_keeps (P : ApprovalQueue -> Prop) :
  (forall q q', resolves_at_most_one q q' -> P q -> P q') ->
  forall c q, P q -> P (queue_after c q).
Proof.
  intros Hstep c q HP.
  destruct c as [requestId reviewerId|requestId decision decidedBy options decidedAt
                |requestId withdrawnBy|insertionOrder defaultAction now]; cbn [queue_after].
  - rewrite startReview_run. destruct (requests q !! requestId) as [r|] eqn:Hr; [|exact HP].
    destruct (is_PENDING _) eqn:Hpending; [|exact HP].
    destruct (includes _ _); [|exact HP].
    apply (Hstep q); [|exact HP]. right. exists requestId, r. eexists. eexists.
    split; [exact Hr|]. split; [by apply is_PENDING_open|]. split; [|reflexivity].
    intros Hfits. unfold outcome_fits. cbn.
    by apply open_has_no_outcome; [apply is_PENDING_open|].
  - rewrite recordDecision_run. destruct (requests q !! requestId) as [r|] eqn:Hr; [|exact HP].
    destruct (is_open _) eqn:Hopen; [|exact HP].
    destruct (includes _ _) eqn:Happrover; [|exact HP].
    apply (Hstep q); [|exact HP]. right. exists requestId, r. eexists. eexists.
    split; [exact Hr|]. split; [exact Hopen|]. split; [|reflexivity].
    intros _. apply includes_In in Happrover. unfold outcome_fits.
    destruct decision; cbn; eexists; by split.
  - rewrite withdraw_run. destruct (requests q !! requestId) as [r|] eqn:Hr; [|exact HP].
    destruct (is_open _) eqn:Hopen; [|exact HP].
    destruct (String.eqb _ _); [|exact HP].
    apply (Hstep q); [|exact HP]. right. exists requestId, r. eexists. eexists.
    split; [exact Hr|]. split; [exact Hopen|]. split; [|reflexivity].
    intros Hfits. unfold outcome_fits. cbn. by apply open_has_no_outcome.
  - unfold processTimeouts.
    assert (forall st, P (snd st) ->
              P (snd (fold_left (processTimeouts_body defaultAction now) insertionOrder st)))
      as Hloop.
    { induction insertionOrder as [|id rest IH]; intros st Hst; [exact Hst|].
      cbn [fold_left]. apply IH.
      exact (Hstep _ _ (processTimeouts_body_resolves defaultAction now st id) Hst). }
    by apply Hloop.
Qed.

Lemma closed_request_kept (id : ContentAddress) (r : ApprovalRequest) (q q' : ApprovalQueue) :
  is_open (request_status r) = false ->
  resolves_at_most_one q q' ->
  requests q !! id = Some r -> requests q' !! id = Some r.
Proof.
  intros Hclosed [->|(id' & r' & status & outcome & Hr' & Hopen & _ & ->)] Hr; [exact Hr|].
  cbn. destruct (decide (id' = id)) as [->|Hne].
  - congruence.
  - by rewrite lookup_insert_ne.
Qed.

(** X17. A request that has been resolved (APPROVED, REJECTED, TIMED_OUT or
    WITHDRAWN) is final: [startReview], [recordDecision] and [withdraw] on it
    fail with the status error whoever calls, and after any sequence of calls
    of these methods and of [processTimeouts], on this or on other requests,
    it is stored unchanged. *)
Theorem resolved_request_is_final
  (q : ApprovalQueue) (id : ContentAddress) (r : ApprovalRequest) :
  getRequest q id = Some r ->
  is_open (request_status r) = false ->
  (forall cs, getRequest (queue_after_calls cs q) id = Some r) /\
  (forall actor, startReview id actor q = (Err (RequestNotPending id (request_status r)), q)) /\
  (forall decision actor options decidedAt,
     recordDecision id decision actor options decidedAt q =
       (Err (RequestCannotBeDecided id (request_status r)), q)) /\
  (forall actor, withdraw id actor q = (Err (RequestCannotBeWithdrawn id (request_status r)), q)).
Proof.
  unfold getRequest. intros Hr Hclosed. repeat split.
  - intros cs. revert q Hr. induction cs as [|c cs IH]; intros q Hr; [exact Hr|].
    cbn [queue_after_calls fold_left]. apply IH.
    apply (queue_after_keeps (fun q => requests q !! id = Some r)); [|exact Hr].
    intros q1 q2 Hstep. by apply closed_request_kept.
  - intros actor. rewrite startReview_run, Hr.
    assert (is_PENDING (request_status r) = false) as ->; [|reflexivity].
    by destruct (request_status r).
  - intros decision actor options decidedAt. by rewrite recordDecision_run, Hr, Hclosed.
  - intros actor. by rewrite withdraw_run, Hr, Hclosed.
Qed.

Lemma after_timeout_idempotent (defaultAction : TimeoutAction) (now : Timestamp)
  (r : ApprovalRequest) :
  after_timeout defaultAction now (after_timeout defaultAction now r) =
  after_timeout defaultAction now r.
Proof.
  unfold after_timeout. destruct (has_timed_out r now) eqn:Hexpired.
  - reflexivity.
  - by rewrite Hexpired.
Qed.

Lemma processTimeouts_body_requests (defaultAction : TimeoutAction) (now : Timestamp)
  (st : list ApprovalRequest * ApprovalQueue) (id id' : ContentAddress) :
  requests (snd (processTimeouts_body defaultAction now st id)) !! id' =
  if String.eqb id' id
  then after_timeout defaultAction now <$> requests (snd st) !! id'
  else requests (snd st) !! id'.
Proof.
  unfold processTimeouts_body, after_timeout.
  destruct (String.eqb id' id) eqn:Heq.
  - apply String.eqb_eq in Heq as ->.
    destruct (requests (snd st) !! id) as [r|] eqn:Hr; [|by rewrite Hr].
    destruct (has_timed_out r now) eqn:Hexpired; cbn.
    + by rewrite lookup_insert_eq, Hexpired.
    + by rewrite Hr; cbn; rewrite Hexpired.
  - apply String.eqb_neq in Heq.
    destruct (requests (snd st) !! id) as [r|]; [|reflexivity].
    destruct (has_timed_out r now); [|reflexivity].
    cbn. by rewrite lookup_insert_ne.
Qed.

Lemma processTimeouts_loop_requests (defaultAction : TimeoutAction) (now : Timestamp)
  (order : list ContentAddress) (st : list ApprovalRequest * ApprovalQueue)
  (id : ContentAddress) :
  requests (snd (fold_left (processTimeouts_body defaultAction now) order st)) !! id =
  if includes order id
  then after_timeout defaultAction now <$> requests (snd st) !! id
  else requests (snd st) !! id.
Proof.
  revert st. induction order as [|first rest IH]; intros st; [reflexivity|].
  cbn [fold_left]. rewrite IH, processTimeouts_body_requests.
  unfold includes. cbn [existsb]. fold (includes rest id).
  destruct (String.eqb id first), (includes rest id); cbn [orb]; try reflexivity.
  destruct (requests (snd st) !! id) as [r|]; [|reflexivity].
  cbn. by rewrite after_timeout_idempotent.
Qed.

Lemma processTimeouts_loop_indexes (defaultAction : TimeoutAction) (now : Timestamp)
  (order : list ContentAddress) (st : list ApprovalRequest * ApprovalQueue) :
  byDecision (snd (fold_left (processTimeouts_body defaultAction now) order st)) =
    byDecision (snd st) /\
  byApprover (snd (fold_left (processTimeouts_body defaultAction now) order st)) =
    byApprover (snd st).
Proof.
  revert st. induction order as [|first rest IH]; intros st; [done|].
  cbn [fold_left]. destruct (IH (processTimeouts_body defaultAction now st first)) as [-> ->].
  unfold processTimeouts_body.
  destruct (requests (snd st) !! first) as [r|]; [|done].
  by destruct (has_timed_out r now).
Qed.

Lemma omap_agree {A B} (f g : A -> option B) (l : list A) :
  (forall x, In x l -> f x = g x) -> omap f l = omap g l.
Proof.
  induction l as [|x l IH]; intros Hagree; [reflexivity|].
  cbn. rewrite (Hagree x) by (by left). rewrite IH; [reflexivity|].
  intros y Hy. apply Hagree. by right.
Qed.

Lemma processTimeouts_loop_returns (defaultAction : TimeoutAction) (now : Timestamp)
  (order : list ContentAddress) :
  List.NoDup order ->
  forall st : list ApprovalRequest * ApprovalQueue,
    fst (fold_left (processTimeouts_body defaultAction now) order st) =
    (fst st ++ map (timed_out defaultAction now)
                 (List.filter (fun r => has_timed_out r now)
                    (omap (fun id => requests (snd st) !! id) order)))%list.
Proof.
  induction 1 as [|first rest Hfresh _ IH]; intros st.
  { cbn. by rewrite app_nil_r. }
  cbn [fold_left]. rewrite IH.
  rewrite (omap_agree (fun id => requests (snd (processTimeouts_body _ _ st first)) !! id)
             (fun id => requests (snd st) !! id)).
  2: { intros id Hin. rewrite processTimeouts_body_requests.
       destruct (String.eqb id first) eqn:Heq; [|reflexivity].
       apply String.eqb_eq in Heq. by subst. }
  cbn [omap list_omap]. unfold processTimeouts_body.
  destruct (requests (snd st) !! first) as [r|]; cbn; [|reflexivity].
  destruct (has_timed_out r now); cbn; [|reflexivity].
  by rewrite <-app_assoc.
Qed.

(** X18. [processTimeouts] closes exactly the open requests whose
    [expiresAt] is before [now] in the order of strings: each becomes
    TIMED_OUT with an automated outcome, decision 'rejected', decided by the
    requester at [now]; every other request and both indexes are left as they
    are. The returned array holds the closed requests in the iteration order
    of the map. The [defaultAction] argument has no effect: 'escalate' gives
    'rejected' too. A second call at the same instant closes nothing. *)
Theorem processTimeouts_closes_expired_requests
  (insertionOrder : list ContentAddress) (defaultAction : TimeoutAction) (now : Timestamp)
  (q : ApprovalQueue) :
  List.NoDup insertionOrder ->
  (forall id, is_Some (requests q !! id) -> In id insertionOrder) ->
  let q' := snd (processTimeouts insertionOrder defaultAction now q) in
  (forall id, getRequest q' id = after_timeout defaultAction now <$> getRequest q id) /\
  fst (processTimeouts insertionOrder defaultAction now q) =
    map (timed_out defaultAction now)
      (List.filter (fun r => has_timed_out r now)
         (omap (fun id => requests q !! id) insertionOrder)) /\
  (forall r, In r (fst (processTimeouts insertionOrder defaultAction now q)) ->
     request_status r = ApprovalStatus.TIMED_OUT /\
     exists o, request_outcome r = Some o /\ outcome_decision o = rejected /\
               automated o = true /\ outcome_decidedBy o = requestedBy r /\
               outcome_decidedAt o = now) /\
  byDecision q' = byDecision q /\ byApprover q' = byApprover q /\
  processTimeouts insertionOrder timeout_escalate now q =
    processTimeouts insertionOrder timeout_reject now q /\
  processTimeouts insertionOrder defaultAction now q' = ([], q').
Proof.
  intros Hnodup Hkeys q'. unfold getRequest.
  assert (forall action q0 id,
            requests (snd (processTimeouts insertionOrder action now q0)) !! id =
            if includes insertionOrder id
            then after_timeout action now <$> requests q0 !! id
            else requests q0 !! id) as Hrequests.
  { intros action q0 id. unfold processTimeouts.
    by rewrite processTimeouts_loop_requests. }
  assert (forall action q0,
            fst (processTimeouts insertionOrder action now q0) =
            map (timed_out action now)
              (List.filter (fun r => has_timed_out r now)
                 (omap (fun id => requests q0 !! id) insertionOrder))) as Hreturns.
  { intros action q0. unfold processTimeouts.
    by rewrite processTimeouts_loop_returns. }
  assert (forall id, requests q' !! id = after_timeout defaultAction now <$> requests q !! id)
    as Hafter.
  { intros id. subst q'. rewrite Hrequests.
    destruct (includes insertionOrder id) eqn:Hin; [reflexivity|].
    destruct (requests q !! id) as [r|] eqn:Hr; [|reflexivity].
    assert (In id insertionOrder) as Hid by (apply Hkeys; by eexists).
    apply includes_In in Hid. congruence. }
  split; [exact Hafter|]. split; [apply Hreturns|]. split.
  { intros r. rewrite Hreturns, in_map_iff. intros (r0 & <- & _). cbn.
    split; [reflexivity|]. eexists. split; [reflexivity|]. cbn. by destruct defaultAction. }
  destruct (processTimeouts_loop_indexes defaultAction now insertionOrder ([], q))
    as [HbyDecision HbyApprover].
  split; [exact HbyDecision|]. split; [exact HbyApprover|]. split.
  { unfold processTimeouts.
    assert (processTimeouts_body timeout_escalate now = processTimeouts_body timeout_reject now)
      as ->; reflexivity. }
  assert (forall st, (forall id r, requests (snd st) !! id = Some r -> has_timed_out r now = false) ->
            fold_left (processTimeouts_body defaultAction now) insertionOrder st = st) as Hquiet.
  { clear. induction insertionOrder as [|first rest IH]; intros st Hnone; [reflexivity|].
    cbn [fold_left].
    assert (processTimeouts_body defaultAction now st first = st) as ->; [|by apply IH].
    unfold processTimeouts_body.
    destruct (requests (snd st) !! first) as [r|] eqn:Hr; [|reflexivity].
    by rewrite (Hnone _ _ Hr). }
  apply Hquiet. cbn [snd]. intros id r. rewrite Hafter.
  destruct (requests q !! id) as [r0|]; [|discriminate].
  cbn. intros [= <-]. unfold after_timeout.
  destruct (has_timed_out r0 now) eqn:Hexpired; [|exact Hexpired].
  unfold has_timed_out. by cbn.
Qed.

Lemma Set_add_In (x y : string) (l : list string) :
  In x (Set_add y l) <-> x = y \/ In x l.
Proof.
  unfold Set_add. destruct (includes l y) eqn:Hin.
  - apply includes_In in Hin. split; [by right|]. by intros [->|?].
  - rewrite in_app_iff. cbn. intuition.
Qed.

Lemma index_approver_lookup (id : ContentAddress)
  (index : gmap string (list ContentAddress)) (b a : ContentAddress) (x : ContentAddress) :
  In x (default [] (index_approver id index b !! a)) <->
  (b = a /\ x = id) \/ In x (default [] (index !! a)).
Proof.
  unfold index_approver. destruct (decide (b = a)) as [->|Hne].
  - rewrite lookup_insert_eq. cbn. rewrite Set_add_In. intuition.
  - rewrite lookup_insert_ne by done. intuition.
Qed.

Lemma index_fold_lookup (id : ContentAddress) (l : list ContentAddress)
  (index : gmap string (list ContentAddress)) (a x : ContentAddress) :
  In x (default [] (fold_left (index_approver id) l index !! a)) <->
  (In a l /\ x = id) \/ In x (default [] (index !! a)).
Proof.
  revert index. induction l as [|b l IH]; intros index; cbn [fold_left].
  - cbn. intuition.
  - rewrite IH, index_approver_lookup. cbn. intuition.
Qed.

Lemma computeContentAddress_truthy (content : JSValue) :
  truthy (Some (computeContentAddress content)) = true.
Proof. reflexivity. Qed.

Lemma indexed_open_request_is_pending (q : ApprovalQueue) (id a : ContentAddress)
  (r : ApprovalRequest) :
  requests q !! id = Some r ->
  is_open (request_status r) = true ->
  In id (default [] (byApprover q !! a)) ->
  In r (getPendingForApprover q a).
Proof.
  intros Hr Hopen Hindexed. unfold getPendingForApprover.
  destruct (byApprover q !! a) as [ids|]; [|contradiction].
  apply filter_In. split; [|exact Hopen].
  apply list_elem_of_In, list_elem_of_omap. exists id.
  split; [by apply list_elem_of_In | exact Hr].
Qed.

(** X19. When the expiry is a valid date, [createRequest] stores a PENDING
    request without outcome under the address of its decision id, requester,
    reason and creation time, with priority NORMAL and a 24 hour expiry
    unless the input says otherwise; the request is then found by
    [getRequest], by [getRequestForDecision] for its decision, and in
    [getPendingForApprover] of each of its approvers. The expiry is not a
    valid date when the timeout is [NaN] or an infinity, or takes the time
    more than 8.64e15 ms away from the epoch; [createRequest] then throws the
    [RangeError] of [toISOString] and the queue is as before. *)
Theorem createRequest_round_trip
  (q : ApprovalQueue) (input : CreateApprovalRequestInput)
  (createdAt : Timestamp) (nowMs : Z) :
  let id :=
    computeContentAddress
      (JObject [("decisionId", JString (create_decisionId input));
                ("requestedBy", JString (create_requestedBy input));
                ("reason", JString (create_reason input));
                ("createdAt", JString createdAt)]) in
  let timeoutMs := default (Whole 86400000) (create_timeoutMs input) in
  let q' := snd (createRequest input createdAt nowMs q) in
  match time_after nowMs timeoutMs with
  | Some expiry =>
      exists request,
        fst (createRequest input createdAt nowMs q) = Ok request /\
        request_id request = id /\
        request_status request = ApprovalStatus.PENDING /\
        request_outcome request = None /\
        request_priority request = default ApprovalPriority.NORMAL (create_priority input) /\
        request_expiresAt request = Date_toISOString expiry /\
        approvers request = create_approvers input /\
        getRequest q' id = Some request /\
        getRequestForDecision q' (create_decisionId input) = Some request /\
        forall a, In a (create_approvers input) -> In request (getPendingForApprover q' a)
  | None => createRequest input createdAt nowMs q = (Err InvalidTimeValue, q)
  end /\
  match timeoutMs with
  | Whole n =>
      time_after nowMs timeoutMs =
        if (Z.abs (nowMs + n) <=? 8640000000000000)%Z then Some (nowMs + n)%Z else None
  | NotANumber | Endless _ => time_after nowMs timeoutMs = None
  end.
Proof.
  intros id timeoutMs q'. split; [|by destruct timeoutMs].
  subst q'. unfold createRequest.
  change (default defaultTimeoutMs (create_timeoutMs input)) with timeoutMs.
  destruct (time_after nowMs timeoutMs) as [expiry|]; [|reflexivity].
  cbv zeta. fold id.
  set (q' := snd (_, _)).
  eexists. split; [reflexivity|]. cbn [fst request_id request_status request_outcome
    request_priority request_expiresAt approvers].
  do 6 (split; [reflexivity|]).
  match goal with
  | |- getRequest q' id = Some ?r /\ _ =>
      assert (requests q' !! id = Some r) as Hstored by apply lookup_insert_eq
  end.
  split; [exact Hstored|]. split.
  - unfold getRequestForDecision. subst q'. cbn [snd byDecision].
    rewrite lookup_insert_eq. unfold id at 1. rewrite computeContentAddress_truthy.
    exact Hstored.
  - intros a Ha. apply (indexed_open_request_is_pending q' id a); [exact Hstored|reflexivity|].
    subst q'. cbn [snd byApprover].
    apply index_fold_lookup. by left.
Qed.

Lemma createRequest_keeps_consistent (q : ApprovalQueue) (input : CreateApprovalRequestInput)
  (createdAt : Timestamp) (nowMs : Z) :
  consistent_queue q -> consistent_queue (snd (createRequest input createdAt nowMs q)).
Proof.
  intros Hq. unfold createRequest.
  destruct (time_after nowMs _) as [expiry|]; [|exact Hq].
  intros id r. cbn [snd requests byDecision byApprover].
  rewrite lookup_insert. case_decide as Hid.
  - intros [= <-]. cbn. split; [exact Hid|]. split; [reflexivity|]. split.
    + intros a Ha. apply index_fold_lookup. left. by split.
    + rewrite lookup_insert_eq. by eexists.
  - intros Hr. destruct (Hq id r Hr) as (Hrid & Hfits & Hindexed & HbyDecision).
    split; [exact Hrid|]. split; [exact Hfits|]. split.
    + intros a Ha. apply index_fold_lookup. right. by apply Hindexed.
    + rewrite lookup_insert. by case_decide.
Qed.

Lemma resolving_keeps_consistent (q q' : ApprovalQueue) :
  resolves_at_most_one q q' -> consistent_queue q -> consistent_queue q'.
Proof.
  intros [->|(id0 & r0 & status & outcome & Hr0 & _ & Hfits0 & ->)] Hq; [exact Hq|].
  intros id r. cbn [requests_set snd requests byDecision byApprover].
  destruct (Hq id0 r0 Hr0) as (Hrid0 & Hfits & Hindexed0 & HbyDecision0).
  rewrite lookup_insert. case_decide as Hid.
  - intros [= <-]. subst id. cbn. repeat split; try assumption. by apply Hfits0.
  - intros Hr. exact (Hq id r Hr).
Qed.

Lemma reachable_queue_consistent (q : ApprovalQueue) :
  reachable_queue q -> consistent_queue q.
Proof.
  induction 1 as [|q input createdAt nowMs _ IH|q c _ IH].
  - intros id r Hr. cbn in Hr. by rewrite lookup_empty in Hr.
  - by apply createRequest_keeps_consistent.
  - apply (queue_after_keeps consistent_queue); [|exact IH].
    intros q1 q2. apply resolving_keeps_consistent.
Qed.

(** X20. In every queue a program can build, each stored request is stored
    under its own id and its outcome agrees with its status: none while
    PENDING, IN_REVIEW or WITHDRAWN; for APPROVED and REJECTED a manual
    outcome with that decision, decided by one of the request's approvers;
    for TIMED_OUT an automated 'rejected' in the requester's name. So no
    request is ever approved automatically or by an actor outside its
    approvers. An open request is listed in [getPendingForApprover] of each
    of its approvers, and its decision has an entry in the decision index. *)
Theorem reachable_queue_is_consistent
  (q : ApprovalQueue) (id : ContentAddress) (r : ApprovalRequest) :
  reachable_queue q ->
  getRequest q id = Some r ->
  request_id r = id /\
  match request_status r with
  | ApprovalStatus.PENDING | ApprovalStatus.IN_REVIEW | ApprovalStatus.WITHDRAWN =>
      request_outcome r = None
  | ApprovalStatus.APPROVED =>
      exists o, request_outcome r = Some o /\ outcome_decision o = approved /\
                automated o = false /\ In (outcome_decidedBy o) (approvers r)
  | ApprovalStatus.REJECTED =>
      exists o, request_outcome r = Some o /\ outcome_decision o = rejected /\
                automated o = false /\ In (outcome_decidedBy o) (approvers r)
  | ApprovalStatus.TIMED_OUT =>
      exists o, request_outcome r = Some o /\ outcome_decision o = rejected /\
                automated o = true /\ outcome_decidedBy o = requestedBy r /\
                outcome_justification o = Some "Approval request timed out"
  end /\
  (is_open (request_status r) = true ->
   forall a, In a (approvers r) -> In r (getPendingForApprover q a)) /\
  is_Some (byDecision q !! request_decisionId r).
Proof.
  unfold getRequest. intros Hreachable Hr.
  destruct (reachable_queue_consistent q Hreachable id r Hr)
    as (Hid & Hfits & Hindexed & HbyDecision).
  split; [exact Hid|]. split; [exact Hfits|]. split; [|exact HbyDecision].
  intros Hopen a Ha. apply (indexed_open_request_is_pending q id a); auto.
Qed.

End MoreApprovalProperties.

Section MoreConflictProperties.
Context `{RT : JSRuntime}.

(** ** More properties of the conflict resolver *)

Lemma split_colon_nonempty (s : string) : split_colon s <> [].
Proof.
  destruct s as [|c s]; cbn [split_colon]; [discriminate|].
  destruct (Ascii.eqb c ":"%char); [discriminate|].
  by destruct (split_colon s).
Qed.

Lemma split_colon_joined (p t : string) :
  split_colon (p +:+ String ":"%char t) = (split_colon p ++ split_colon t)%list.
Proof.
  induction p as [|c p IH].
  - reflexivity.
  - change (String c p +:+ String ":"%char t) with (String c (p +:+ String ":"%char t)).
    cbn [split_colon]. rewrite IH.
    destruct (Ascii.eqb c ":"%char); [reflexivity|].
    pose proof (split_colon_nonempty p) as Hparts.
    by destruct (split_colon p).
Qed.

Lemma scopeMatches_from_prefix (l rest : list string) (n m : nat) :
  (n <= m)%nat -> scopeMatches_from l (l ++ rest) n m = true.
Proof.
  intros Hle. induction l as [|part l IH]; cbn [scopeMatches_from app].
  - by apply Nat.leb_le.
  - destruct (String.eqb part "*").
    + destruct (isEmpty l); [reflexivity | exact IH].
    + by rewrite String.eqb_refl.
Qed.

Lemma scopeMatches_from_trailing_star (l rest : list string) (n m : nat) :
  scopeMatches_from (l ++ ["*"]) (l ++ rest) n m = true.
Proof.
  induction l as [|part l IH]; cbn [scopeMatches_from app].
  - reflexivity.
  - destruct (String.eqb part "*").
    + destruct (isEmpty (l ++ ["*"])); [reflexivity | exact IH].
    + by rewrite String.eqb_refl.
Qed.

Lemma scopeMatches_from_without_star (l targetParts : list string) (n m : nat) :
  Forall (fun part => part <> "*") l ->
  scopeMatches_from l targetParts n m = true ->
  exists rest, targetParts = (l ++ rest)%list.
Proof.
  intros Hfree. revert targetParts.
  induction Hfree as [|part l Hpart _ IH]; intros targetParts; cbn [scopeMatches_from].
  - intros _. by exists targetParts.
  - apply String.eqb_neq in Hpart. rewrite Hpart.
    destruct targetParts as [|targetPart laterTargets]; [discriminate|].
    destruct (String.eqb part targetPart) eqn:Heq; [|discriminate].
    apply String.eqb_eq in Heq as <-.
    intros Hlater. destruct (IH _ Hlater) as [rest ->]. by exists rest.
Qed.

(** X21. [scopeMatches]: every scope matches itself; the pattern [*]
    matches every target; a pattern matches every target that extends it by
    further colon-separated parts; a pattern that ends with a [*] part
    matches the scope before that part and everything below it; and a
    pattern without a [*] part matches exactly the targets whose parts start
    with the parts of the pattern. *)
Theorem scopeMatches_is_prefix_matching (pattern target : string) :
  scopeMatches pattern pattern = true /\
  scopeMatches "*" target = true /\
  scopeMatches pattern (pattern +:+ ":" +:+ target) = true /\
  scopeMatches (pattern +:+ ":*") pattern = true /\
  scopeMatches (pattern +:+ ":*") (pattern +:+ ":" +:+ target) = true /\
  (Forall (fun part => part <> "*") (split_colon pattern) ->
   (scopeMatches pattern target = true <->
    exists rest, split_colon target = (split_colon pattern ++ rest)%list)).
Proof.
  assert (forall p t, split_colon (p +:+ ":" +:+ t) = (split_colon p ++ split_colon t)%list)
    as Hjoined by (intros p t; apply split_colon_joined).
  split; [|split; [reflexivity|split; [|split; [|split]]]].
  - unfold scopeMatches. destruct (String.eqb pattern "*"); [reflexivity|].
    rewrite <-(app_nil_r (split_colon pattern)) at 2.
    by apply scopeMatches_from_prefix.
  - unfold scopeMatches. destruct (String.eqb pattern "*"); [reflexivity|].
    rewrite Hjoined. apply scopeMatches_from_prefix.
    rewrite length_app. lia.
  - unfold scopeMatches. destruct (String.eqb _ "*"); [reflexivity|].
    rewrite (split_colon_joined pattern "*").
    change (split_colon "*") with ["*"].
    rewrite <-(app_nil_r (split_colon pattern)) at 2.
    apply scopeMatches_from_trailing_star.
  - unfold scopeMatches. destruct (String.eqb _ "*"); [reflexivity|].
    rewrite (split_colon_joined pattern "*"), Hjoined.
    apply scopeMatches_from_trailing_star.
  - intros Hfree. unfold scopeMatches.
    destruct (String.eqb pattern "*") eqn:Hstar.
    { apply String.eqb_eq in Hstar. subst pattern.
      cbn in Hfree. by inversion Hfree. }
    split.
    + apply scopeMatches_from_without_star, Hfree.
    + intros [rest ->]. apply scopeMatches_from_prefix. rewrite length_app. lia.
Qed.

Lemma pairs_in_order_In {A} (l : list A) (x y : A) :
  In (x, y) (pairs_in_order l) -> In x l /\ In y l.
Proof.
  induction l as [|a l IH]; cbn [pairs_in_order]; [contradiction|].
  rewrite in_app_iff, in_map_iff. intros [(b & [= <- <-] & Hb)|Hlater].
  - split; [by left | by right].
  - destruct (IH Hlater). split; by right.
Qed.


Lemma contradiction_is_overlap (p1 p2 : PolicyDefinition) :
  isContradiction p1 p2 = true -> isOverlapConflict p1 p2 = true.
Proof.
  unfold isContradiction, isOverlapConflict.
  by destruct (policy_enforcement p1), (policy_enforcement p2).
Qed.

Lemma overlap_conflict_differs (p1 p2 : PolicyDefinition) :
  isOverlapConflict p1 p2 = true <-> policy_enforcement p1 <> policy_enforcement p2.
Proof.
  unfold isOverlapConflict.
  destruct (policy_enforcement p1), (policy_enforcement p2); cbn; split; congruence.
Qed.

(** A created conflict is one of the conflicts to create, with some reading
    of the clock, and each of these is created. *)
Lemma created_from_In (clock : nat -> Timestamp) (k : nat)
  (conflicts : list (Timestamp -> PolicyConflict)) (c : PolicyConflict) :
  In c (created_from clock k conflicts) ->
  exists conflict t, In conflict conflicts /\ c = conflict t.
Proof.
  revert k. induction conflicts as [|first later IH]; intros k; cbn [created_from];
    [contradiction|].
  intros [<-|Hlater].
  - exists first, (clock k). split; [by left | reflexivity].
  - destruct (IH _ Hlater) as (conflict & t & Hin & ->).
    exists conflict, t. split; [by right | reflexivity].
Qed.

Lemma created_from_has (clock : nat -> Timestamp) (k : nat)
  (conflicts : list (Timestamp -> PolicyConflict)) (conflict : Timestamp -> PolicyConflict) :
  In conflict conflicts -> exists t, In (conflict t) (created_from clock k conflicts).
Proof.
  revert k. induction conflicts as [|first later IH]; intros k; cbn [created_from];
    [contradiction|].
  intros [->|Hlater].
  - exists (clock k). by left.
  - destruct (IH (S k) Hlater) as (t & Hin). exists t. by right.
Qed.

Lemma created_from_length (clock : nat -> Timestamp) (k : nat)
  (conflicts : list (Timestamp -> PolicyConflict)) :
  length (created_from clock k conflicts) = length conflicts.
Proof.
  revert k. induction conflicts as [|first later IH]; intros k; cbn [created_from length];
    [reflexivity | by rewrite IH].
Qed.

(** What does not depend on the clock is read off the conflicts to create. *)
Lemma created_from_map {B} (f : PolicyConflict -> B) (clock : nat -> Timestamp) (k : nat)
  (conflicts : list (Timestamp -> PolicyConflict)) :
  Forall (fun conflict => forall t t', f (conflict t) = f (conflict t')) conflicts ->
  map f (created_from clock k conflicts) = map (fun conflict => f (conflict (clock 0))) conflicts.
Proof.
  intros Hsame. revert k. induction Hsame as [|first later Hfirst _ IH]; intros k;
    cbn [created_from map]; [reflexivity|].
  by rewrite IH, (Hfirst (clock k) (clock 0)).
Qed.

(** The conflicts carry the readings of the clock, in the order they were
    created. *)
Lemma created_from_detectedAt (clock : nat -> Timestamp) (k : nat)
  (conflicts : list (Timestamp -> PolicyConflict)) :
  Forall (fun conflict => forall t, detectedAt (conflict t) = t) conflicts ->
  map detectedAt (created_from clock k conflicts) = map clock (seq k (length conflicts)).
Proof.
  intros Hstamped. revert k. induction Hstamped as [|first later Hfirst _ IH]; intros k;
    cbn [created_from map seq length]; [reflexivity|].
  by rewrite IH, Hfirst.
Qed.

Lemma conflicts_of_pair_detectedAt (scope : option string)
  (pairs : list (PolicyDefinition * PolicyDefinition)) :
  Forall (fun conflict : Timestamp -> PolicyConflict => forall t, detectedAt (conflict t) = t)
    (flat_map (conflicts_of_pair scope) pairs).
Proof.
  apply List.Forall_forall. intros conflict Hin.
  apply in_flat_map in Hin as ([p1 p2] & _ & Hin). unfold conflicts_of_pair in Hin.
  destruct (findOverlappingScope p1 p2) as [overlappingScope|]; [|contradiction].
  destruct (negb (truthy (Some overlappingScope))); [contradiction|].
  destruct (truthy scope && negb (scopeMatches overlappingScope (default EmptyString scope)));
    [contradiction|].
  destruct (isContradiction p1 p2), (isOverlapConflict p1 p2), (hasAmbiguousPriority p1 p2);
    cbn [app In] in Hin; intuition (subst; reflexivity).
Qed.

(** What [detectConflicts] reports for one conflict it returns. *)
Lemma detected_conflict (scope : option string) (clock : nat -> Timestamp)
  (r : ConflictResolver) (c : PolicyConflict) :
  In c (fst (detectConflicts scope clock r)) ->
  exists p1 p2,
    In (p1, p2) (pairs_in_order (Map_values (policies r))) /\
    conflict_policies c = [p1; p2] /\
    policy_enforcement p1 <> policy_enforcement p2 /\
    findOverlappingScope p1 p2 = Some (conflict_scope c) /\
    match conflict_type c with
    | ConflictType.CONTRADICTION => isContradiction p1 p2 = true
    | ConflictType.OVERLAP => True
    | ConflictType.AMBIGUOUS_PRIORITY => metadata_priority p1 = metadata_priority p2
    | ConflictType.CIRCULAR | ConflictType.RESOURCE_CONTENTION => False
    end /\
    severity c = severityMap (conflict_type c) /\
    triggeringAction c = None /\
    exists overlap,
      In overlap (fst (detectConflicts scope clock r)) /\
      conflict_type overlap = ConflictType.OVERLAP /\
      conflict_policies overlap = [p1; p2] /\
      conflict_scope overlap = conflict_scope c.
Proof.
  unfold detectConflicts. cbn [fst]. intros Hcreated.
  apply created_from_In in Hcreated as (conflict & t & Hc & ->).
  apply in_flat_map in Hc as ([p1 p2] & Hpair & Hc). exists p1, p2. split; [exact Hpair|].
  assert (forall conflict', In conflict' (conflicts_of_pair scope (p1, p2)) ->
            exists t', In (conflict' t')
                         (created_from clock 0
                            (flat_map (conflicts_of_pair scope)
                               (pairs_in_order (Map_values (policies r)))))) as Hfound.
  { intros conflict' Hc'. apply created_from_has, in_flat_map. by exists (p1, p2). }
  revert Hc Hfound. unfold conflicts_of_pair.
  destruct (findOverlappingScope p1 p2) as [overlappingScope|]; [|contradiction].
  destruct (negb (truthy (Some overlappingScope))); [contradiction|].
  destruct (truthy scope && negb (scopeMatches overlappingScope (default EmptyString scope)));
    [contradiction|].
  destruct (isOverlapConflict p1 p2) eqn:Hoverlap.
  2: { assert (isContradiction p1 p2 = false) as ->.
       { destruct (isContradiction p1 p2) eqn:E; [|reflexivity].
         apply contradiction_is_overlap in E. congruence. }
       assert (hasAmbiguousPriority p1 p2 = false) as ->.
       { unfold hasAmbiguousPriority. rewrite Hoverlap. apply andb_false_r. }
       contradiction. }
  pose proof (proj1 (overlap_conflict_differs p1 p2) Hoverlap) as Hdiffer.
  intros Hc Hfound.
  assert (exists overlap,
            In overlap (created_from clock 0
                          (flat_map (conflicts_of_pair scope)
                             (pairs_in_order (Map_values (policies r))))) /\
            conflict_type overlap = ConflictType.OVERLAP /\
            conflict_policies overlap = [p1; p2] /\
            conflict_scope overlap = overlappingScope) as Hsibling.
  { edestruct Hfound as (t' & Hin).
    - apply in_or_app. right. apply in_or_app. left. left. reflexivity.
    - eexists. split; [exact Hin|]. by cbn. }
  apply in_app_or in Hc as [Hc|Hc]; [|apply in_app_or in Hc as [Hc|Hc]].
  - destruct (isContradiction p1 p2) eqn:Hcontra; [|contradiction].
    destruct Hc as [<-|[]]. by cbn.
  - destruct Hc as [<-|[]]. by cbn.
  - unfold hasAmbiguousPriority in Hc. rewrite Hoverlap, andb_true_r in Hc.
    destruct (metadata_priority p1 =? metadata_priority p2)%Z eqn:Hpriority; [|contradiction].
    apply Z.eqb_eq in Hpriority. destruct Hc as [<-|[]]. by cbn.
Qed.

Lemma Map_set_found (key key' : ContentAddress) (c : PolicyConflict)
  (m : list (ContentAddress * PolicyConflict)) :
  conflict_id c = key ->
  (key' = key \/
   exists stored, assoc_get key' m = Some stored /\ conflict_id stored = key') ->
  exists stored, assoc_get key' (Map_set String.eqb key c m) = Some stored /\
                 conflict_id stored = key'.
Proof.
  intros Hid. induction m as [|[k c'] m IH]; cbn [Map_set assoc_get].
  - intros [->|(stored & [=] & _)]. rewrite String.eqb_refl. by exists c.
  - destruct (String.eqb k key) eqn:Hk; cbn [assoc_get].
    + apply String.eqb_eq in Hk as ->.
      destruct (String.eqb key key') eqn:Hkey'.
      * apply String.eqb_eq in Hkey' as <-. intros _. by exists c.
      * intros [->|Hfound]; [by rewrite String.eqb_refl in Hkey'|exact Hfound].
    + destruct (String.eqb k key') eqn:Hkey'; [|exact IH].
      apply String.eqb_eq in Hkey' as ->.
      intros [->|Hfound]; [by rewrite String.eqb_refl in Hk | exact Hfound].
Qed.

(** Every conflict of [found] is stored under its id by the last loop of
    [detectConflicts], and what was stored before stays. *)
Lemma stored_conflicts_found (found : list PolicyConflict)
  (m : list (ContentAddress * PolicyConflict)) (c : PolicyConflict) :
  In c found \/
  (exists stored, assoc_get (conflict_id c) m = Some stored /\
                  conflict_id stored = conflict_id c) ->
  exists stored,
    assoc_get (conflict_id c)
      (fold_left (fun m c => Map_set String.eqb (conflict_id c) c m) found m) = Some stored /\
    conflict_id stored = conflict_id c.
Proof.
  revert m. induction found as [|first rest IH]; intros m; cbn [fold_left].
  - by intros [[]|Hstored].
  - intros [[<-|Hrest]|Hstored]; apply IH.
    + right. apply Map_set_found; [done|by left].
    + by left.
    + right. apply Map_set_found; [done|by right].
Qed.

(** X22. Every conflict [detectConflicts] returns is between two
    registered policies, the first registered before the second, whose
    scopes overlap in the conflict's scope and whose enforcement modes
    differ; it is a CONTRADICTION (one mode BLOCK or ESCALATE, the other
    ANNOTATE), an OVERLAP or, for equal metadata priorities, an
    AMBIGUOUS_PRIORITY, never CIRCULAR or RESOURCE_CONTENTION; its severity
    is that of its type; and the same call returns an OVERLAP conflict for
    the same pair and scope. Each conflict carries its own reading of the
    clock, taken when it was created, in the order of the returned array. So
    policies that all have the same enforcement mode give no conflict. Each
    returned conflict is then stored: [getConflict] finds a conflict for its
    id. The registered policies and the rules are left as they are. *)
Theorem detectConflicts_reports_differing_pairs
  (scope : option string) (clock : nat -> Timestamp) (r : ConflictResolver) :
  let found := fst (detectConflicts scope clock r) in
  Forall (fun c =>
    exists p1 p2,
      In (p1, p2) (pairs_in_order (Map_values (policies r))) /\
      conflict_policies c = [p1; p2] /\
      policy_enforcement p1 <> policy_enforcement p2 /\
      findOverlappingScope p1 p2 = Some (conflict_scope c) /\
      match conflict_type c with
      | ConflictType.CONTRADICTION => isContradiction p1 p2 = true
      | ConflictType.OVERLAP => True
      | ConflictType.AMBIGUOUS_PRIORITY => metadata_priority p1 = metadata_priority p2
      | ConflictType.CIRCULAR | ConflictType.RESOURCE_CONTENTION => False
      end /\
      severity c = severityMap (conflict_type c) /\
      triggeringAction c = None /\
      exists overlap,
        In overlap found /\ conflict_type overlap = ConflictType.OVERLAP /\
        conflict_policies overlap = [p1; p2] /\
        conflict_scope overlap = conflict_scope c) found /\
  map detectedAt found = map clock (seq 0 (length found)) /\
  ((forall p q, In p (Map_values (policies r)) -> In q (Map_values (policies r)) ->
                policy_enforcement p = policy_enforcement q) ->
   found = []) /\
  (forall c, In c found ->
     exists stored,
       getConflict (snd (detectConflicts scope clock r)) (conflict_id c) = Some stored /\
       conflict_id stored = conflict_id c) /\
  policies (snd (detectConflicts scope clock r)) = policies r /\
  rules (snd (detectConflicts scope clock r)) = rules r.
Proof.
  intros found. split; [|split; [|split; [|split; [|done]]]].
  4: { intros c Hc. unfold getConflict, detectConflicts. cbn [snd conflicts]. fold found.
       apply stored_conflicts_found. by left. }
  - apply List.Forall_forall. intros c Hc. by apply detected_conflict.
  - subst found. unfold detectConflicts. cbn [fst].
    rewrite created_from_length. apply created_from_detectedAt, conflicts_of_pair_detectedAt.
  - intros Hsame. destruct found as [|c rest] eqn:Hfound; [reflexivity|].
    destruct (detected_conflict scope clock r c) as (p1 & p2 & Hpair & _ & Hdiffer & _).
    { fold found. rewrite Hfound. by left. }
    apply pairs_in_order_In in Hpair as [Hp1 Hp2].
    destruct Hdiffer. by apply Hsame.
Qed.









Lemma default_rules_registered : rules createConflictResolver = default_rules.
Proof. reflexivity. Qed.


Lemma sort_insert_stays {A} (cmp : A -> A -> Z) (x y : A) (ys : list A) :
  (cmp x y <= 0)%Z -> sort_insert cmp x (y :: ys) = x :: y :: ys.
Proof. intros Hle. cbn [sort_insert]. by rewrite (proj2 (Z.leb_le _ _) Hle). Qed.

Lemma sort_insert_moves {A} (cmp : A -> A -> Z) (x y : A) (ys : list A) :
  (0 < cmp x y)%Z -> sort_insert cmp x (y :: ys) = y :: sort_insert cmp x ys.
Proof. intros Hgt. cbn [sort_insert]. by rewrite (proj2 (Z.leb_gt _ _) Hgt). Qed.

Lemma sort_insert_alone {A} (cmp : A -> A -> Z) (x : A) : sort_insert cmp x [] = [x].
Proof. reflexivity. Qed.

(** Where [registerRule] puts a rule among the default rules. *)
Lemma registered_rule_position (rule : ResolutionRule) :
  array_sort (fun a b => rule_priority b - rule_priority a)%Z (default_rules ++ [rule]) =
  if (100 <? rule_priority rule)%Z then rule :: default_rules
  else if (50 <? rule_priority rule)%Z
       then (firstn 3 default_rules ++ rule :: skipn 3 default_rules)%list
       else (default_rules ++ [rule])%list.
Proof.
  cbn [default_rules app array_sort firstn skipn]. rewrite sort_insert_alone.
  destruct (Z.ltb_spec 100 (rule_priority rule)) as [H100|H100];
    [|destruct (Z.ltb_spec 50 (rule_priority rule)) as [H50|H50]].
  - rewrite (sort_insert_moves _ _ rule) by (cbn; lia). rewrite sort_insert_alone.
    rewrite (sort_insert_moves _ _ rule) by (cbn; lia).
    rewrite (sort_insert_stays _ _ _ []) by (cbn; lia).
    rewrite (sort_insert_moves _ _ rule) by (cbn; lia).
    rewrite (sort_insert_stays _ _ _ [_]) by (cbn; lia).
    rewrite (sort_insert_moves _ _ rule) by (cbn; lia).
    by rewrite (sort_insert_stays _ _ _ [_; _]) by (cbn; lia).
  - rewrite (sort_insert_moves _ _ rule) by (cbn; lia). rewrite sort_insert_alone.
    rewrite (sort_insert_stays _ _ rule) by (cbn; lia).
    rewrite (sort_insert_stays _ _ _ [_; _]) by (cbn; lia).
    by rewrite (sort_insert_stays _ _ _ [_; _; _]) by (cbn; lia).
  - rewrite (sort_insert_stays _ _ rule) by (cbn; lia).
    rewrite (sort_insert_stays _ _ _ [_]) by (cbn; lia).
    rewrite (sort_insert_stays _ _ _ [_; _]) by (cbn; lia).
    by rewrite (sort_insert_stays _ _ _ [_; _; _]) by (cbn; lia).
Qed.

(** X25. A rule added with [registerRule] takes over a conflict type only
    with a priority strictly above that of the default rule for the type: 100
    for OVERLAP, CONTRADICTION and CIRCULAR, 50 for AMBIGUOUS_PRIORITY; at an
    equal or lower priority the default rule, registered first, still
    applies. For RESOURCE_CONTENTION, which has no default rule, the new rule
    applies at any priority. Conflicts of types the rule does not list are
    resolved as before. *)
Theorem registered_rule_needs_higher_priority
  (rule : ResolutionRule) (r : ConflictResolver) (c : PolicyConflict) :
  rules r = rules createConflictResolver ->
  resolve (registerRule rule r) c =
    if type_includes (conflictTypes rule) (conflict_type c) then
      match default_rule_priority (conflict_type c) with
      | Some d => if (d <? rule_priority rule)%Z then applyRule rule c else resolve r c
      | None => applyRule rule c
      end
    else resolve r c.
Proof.
  intros Hrules. unfold resolve, registerRule. cbn [rules].
  rewrite Hrules, default_rules_registered, registered_rule_position.
  assert (50 < 100)%Z as Hdefaults by lia.
  destruct (type_includes (conflictTypes rule) (conflict_type c)) eqn:Hincludes;
    pose proof Hincludes as Hexists; unfold type_includes in Hexists;
    destruct (Z.ltb_spec 100 (rule_priority rule)) as [H100|H100];
    destruct (Z.ltb_spec 50 (rule_priority rule)) as [H50|H50]; try lia;
    destruct (conflict_type c);
    cbn [default_rules firstn skipn app array_find type_includes existsb conflictTypes
         ConflictType.eqb orb default_rule_priority];
    rewrite ?Hincludes, ?Hexists;
    rewrite ?(proj2 (Z.ltb_lt 100 (rule_priority rule))) by lia;
    rewrite ?(proj2 (Z.ltb_lt 50 (rule_priority rule))) by lia;
    rewrite ?(proj2 (Z.ltb_ge 100 (rule_priority rule))) by lia;
    rewrite ?(proj2 (Z.ltb_ge 50 (rule_priority rule))) by lia;
    reflexivity.
Qed.

(** X26. [detectConflictsForAction] looks at the registered policies
    whose scope pattern (or [*]) matches the action type, and returns one
    conflict for each pair of them, in registration order, whose enforcement
    modes contradict each other: always of type CONTRADICTION, with severity
    10, the action type as scope and the action as [triggeringAction], and
    each with its own reading of the clock, taken when it was created. The
    guard on fewer than two relevant policies changes nothing, and the
    conflicts are not stored in the resolver. *)
Theorem detectConflictsForAction_reports_contradictions
  (clock : nat -> Timestamp) (r : ConflictResolver) (action : DecisionAction) :
  let relevant := findPoliciesForAction r action in
  let found := detectConflictsForAction clock r action in
  (forall p, In p relevant <->
     In p (Map_values (policies r)) /\
     scopeMatches (scope_pattern_or_star p) (action_type action) = true) /\
  found =
    created_from clock 0
      (flat_map (action_conflicts_of_pair action) (pairs_in_order relevant)) /\
  map conflict_policies found =
    map (fun pair => [fst pair; snd pair])
      (List.filter (fun pair => isContradiction (fst pair) (snd pair))
         (pairs_in_order relevant)) /\
  Forall (fun c =>
    conflict_type c = ConflictType.CONTRADICTION /\
    conflict_scope c = action_type action /\
    triggeringAction c = Some action /\
    severity c = 10%Z) found /\
  map detectedAt found = map clock (seq 0 (length found)).
Proof.
  intros relevant found.
  assert (found =
          created_from clock 0
            (flat_map (action_conflicts_of_pair action) (pairs_in_order relevant)))
    as Hfound.
  { subst found. unfold detectConflictsForAction. fold relevant.
    destruct (length relevant <? 2)%nat eqn:Hfew; [|reflexivity].
    by destruct relevant as [|a [|b rest]]. }
  assert (forall conflict,
            In conflict (flat_map (action_conflicts_of_pair action) (pairs_in_order relevant)) ->
            exists p1 p2,
              conflict =
              (fun detectedAt =>
                 with_triggeringAction
                   (createConflict ConflictType.CONTRADICTION [p1; p2] (action_type action)
                      ("Contradictory policies for action " +:+ dq +:+
                       action_type action +:+ dq) detectedAt) action)) as Hshape.
  { intros conflict Hin. apply in_flat_map in Hin as ([p1 p2] & _ & Hin).
    unfold action_conflicts_of_pair in Hin.
    destruct (isContradiction p1 p2); [|contradiction].
    destruct Hin as [<-|[]]. by exists p1, p2. }
  split; [|split; [exact Hfound|split; [|split]]].
  - intros p. apply filter_In.
  - rewrite Hfound, created_from_map.
    + clear. induction (pairs_in_order relevant) as [|[p1 p2] pairs IH];
        cbn [flat_map List.filter map fst snd]; [reflexivity|].
      rewrite map_app, IH. unfold action_conflicts_of_pair at 1.
      destruct (isContradiction p1 p2); reflexivity.
    + apply List.Forall_forall. intros conflict Hin.
      by destruct (Hshape conflict Hin) as (p1 & p2 & ->).
  - rewrite Hfound. apply List.Forall_forall. intros c Hc.
    apply created_from_In in Hc as (conflict & t & Hin & ->).
    by destruct (Hshape conflict Hin) as (p1 & p2 & ->).
  - rewrite Hfound, created_from_length. apply created_from_detectedAt.
    apply List.Forall_forall. intros conflict Hin.
    by destruct (Hshape conflict Hin) as (p1 & p2 & ->).
Qed.

End MoreConflictProperties.

Section EnforcementProperties.
Context `{RT : JSRuntime}.

(** ** Properties of the policy enforcer *)

(** When [createEscalationRequest] throws: the configured number of hours
    is truthy and the date of the deadline is not valid. *)
Lemma createEscalationRequest_throws (enforcer : PolicyEnforcer) (v : DecisionVerdict)
  (timestamp : Timestamp) (nowMs : Z) :
  match createEscalationRequest enforcer v timestamp nowMs with
  | Ok request =>
      escalation_deadline_at enforcer nowMs = Ok (escalation_deadline request)
  | Err thrown =>
      thrown = invalid_time_value /\
      exists hours,
        escalationTimeoutHours (enforcer_config enforcer) = Some hours /\
        duration_truthy hours = true /\
        time_after nowMs (hours_to_ms hours) = None
  end.
Proof.
  unfold createEscalationRequest, escalation_deadline_at.
  destruct (escalationTimeoutHours (enforcer_config enforcer)) as [hours|]; [|reflexivity].
  destruct (duration_truthy hours) eqn:Htruthy; [|reflexivity].
  destruct (time_after nowMs (hours_to_ms hours)) eqn:Htime; [reflexivity|].
  split; [reflexivity|]. by exists hours.
Qed.

(** X27. [enforce] and the decision state machine read a verdict the same
    way. The action is BLOCK for DENY, ANNOTATE for ANNOTATE, ESCALATE for
    ESCALATE and SHADOW for ALLOW; [canProceed] holds exactly for the
    verdicts that [evaluate] turns into EVALUATED, [isBlocked] for those it
    turns into REJECTED and [requiresApproval] for those it leaves
    PENDING_APPROVAL, so for a PROPOSED decision [canProceed] of the action
    is [canCommit] of the evaluated decision. [enforce] fails on an ESCALATE
    verdict only, in two ways: [createEscalationRequest] throws the
    [RangeError] of an invalid deadline, which happens when the configured
    number of hours is truthy and leads out of the range of dates, and the
    callback is then not called; or the escalation callback throws. The
    callback is called once, with the escalation request, for ESCALATE
    verdicts whose request could be made. *)
Theorem enforce_agrees_with_lifecycle
  (enforcer : PolicyEnforcer) (v : DecisionVerdict) (timestamp : Timestamp) (nowMs : Z) :
  match snd (enforce enforcer v timestamp nowMs) with
  | Ok action =>
      enforcement_type action =
        match verdict_result v with
        | VerdictResult.DENY => EnforcementMode.BLOCK
        | VerdictResult.ANNOTATE => EnforcementMode.ANNOTATE
        | VerdictResult.ESCALATE => EnforcementMode.ESCALATE
        | VerdictResult.ALLOW => EnforcementMode.SHADOW
        end /\
      (canProceed action = true <-> state_for (verdict_result v) = DecisionState.EVALUATED) /\
      (isBlocked action = true <-> state_for (verdict_result v) = DecisionState.REJECTED) /\
      (requiresApproval action = true <->
       state_for (verdict_result v) = DecisionState.PENDING_APPROVAL) /\
      action_timestamp action = timestamp /\
      forall (sm : DecisionStateMachine) (decisionId : ContentAddress) (d : Decision)
             (at_ : Timestamp),
        getDecision sm decisionId = Some d ->
        state d = DecisionState.PROPOSED ->
        exists d', fst (evaluate decisionId v at_ sm) = Ok d' /\
                   canCommit d' = canProceed action
  | Err thrown =>
      verdict_result v = VerdictResult.ESCALATE /\
      match createEscalationRequest enforcer v timestamp nowMs with
      | Err raised =>
          thrown = raised /\ raised = invalid_time_value /\
          exists hours,
            escalationTimeoutHours (enforcer_config enforcer) = Some hours /\
            duration_truthy hours = true /\
            time_after nowMs (hours_to_ms hours) = None
      | Ok request =>
          exists callback,
            onEscalation (enforcer_config enforcer) = Some callback /\
            callback request = Some thrown
      end
  end /\
  fst (enforce enforcer v timestamp nowMs) =
    match verdict_result v, onEscalation (enforcer_config enforcer),
          createEscalationRequest enforcer v timestamp nowMs with
    | VerdictResult.ESCALATE, Some _, Ok request => [request]
    | _, _, _ => []
    end.
Proof.
  assert (forall (sm : DecisionStateMachine) (decisionId : ContentAddress) (d : Decision)
                 (at_ : Timestamp) (proceeds : bool),
            proceeds = DecisionState.eqb (state_for (verdict_result v)) DecisionState.EVALUATED ->
            getDecision sm decisionId = Some d ->
            state d = DecisionState.PROPOSED ->
            exists d', fst (evaluate decisionId v at_ sm) = Ok d' /\ canCommit d' = proceeds)
    as Hevaluate.
  { unfold getDecision. intros sm decisionId d at_ proceeds -> Hd Hstate.
    rewrite evaluate_run, Hd, Hstate. cbn. eexists. split; [reflexivity|].
    unfold canCommit. cbn. by destruct (verdict_result v). }
  pose proof (createEscalationRequest_throws enforcer v timestamp nowMs) as Hrequest.
  unfold enforce, handleEscalate.
  destruct (verdict_result v) eqn:Hresult; cbn [fst snd].
  - split; [|by destruct (onEscalation (enforcer_config enforcer))].
    repeat split; try done. intros. by eapply Hevaluate; rewrite ?Hresult.
  - split; [|by destruct (onEscalation (enforcer_config enforcer))].
    repeat split; try done. intros. by eapply Hevaluate; rewrite ?Hresult.
  - destruct (createEscalationRequest enforcer v timestamp nowMs) as [request|raised];
      cbn [fst snd].
    + destruct (onEscalation (enforcer_config enforcer)) as [callback|] eqn:Hcallback;
        cbn [fst snd]; [destruct (callback _) as [thrown|] eqn:Hthrown; cbn [fst snd]|].
      * split; [|reflexivity]. split; [reflexivity|]. by exists callback.
      * repeat split; try done. intros. by eapply Hevaluate; rewrite ?Hresult.
      * repeat split; try done. intros. by eapply Hevaluate; rewrite ?Hresult.
    + destruct Hrequest as [-> Hhours].
      split; [|by destruct (onEscalation (enforcer_config enforcer))]. by repeat split.
  - split; [|by destruct (onEscalation (enforcer_config enforcer))].
    repeat split; try done. intros. by eapply Hevaluate; rewrite ?Hresult.
Qed.

Lemma failed_policy_is_named (results : list PolicyVerdictEntry)
  (mode : EnforcementModeValue) (entry : PolicyVerdictEntry) :
  In entry results ->
  failed_with mode entry = true ->
  In (entry_policyName entry)
     (map entry_policyName
        (List.filter
           (fun pr =>
              includes
                (map entry_policyId (List.filter (failed_with mode) results))
                (entry_policyId pr))
           results)).
Proof.
  intros Hin Hfailed.
  apply in_map, filter_In. split; [exact Hin|].
  apply includes_In, in_map, filter_In. by split.
Qed.

Lemma existsb_filter {A} (p : A -> bool) (l : list A) :
  existsb p l = negb (isEmpty (List.filter p l)).
Proof.
  induction l as [|x xs IH]; cbn; [reflexivity|].
  destruct (p x); cbn; [reflexivity | exact IH].
Qed.

Lemma aggregate_cases (results : list PolicyVerdictEntry) :
  (aggregate results = VerdictResult.DENY <->
   List.filter (failed_with EnforcementMode.BLOCK) results <> []) /\
  (aggregate results = VerdictResult.ESCALATE <->
   List.filter (failed_with EnforcementMode.BLOCK) results = [] /\
   List.filter (failed_with EnforcementMode.ESCALATE) results <> []).
Proof.
  unfold aggregate. rewrite !existsb_filter.
  destruct (List.filter (failed_with EnforcementMode.BLOCK) results);
    destruct (List.filter (failed_with EnforcementMode.ESCALATE) results); cbn;
    try destruct (negb (isEmpty _)); repeat split; try done; intuition congruence.
Qed.

(** The deadline of an enforcer made by [createPolicyEnforcer]: 24 hours
    after now unless the configuration gives another number of hours, none
    for a falsy number, and a [RangeError] when the date is not valid. *)
Lemma configured_deadline (config : option EnforcementConfig) (nowMs : Z) :
  let hours := default (Whole 24) (config ≫= escalationTimeoutHours) in
  escalation_deadline_at (createPolicyEnforcer config) nowMs =
  if duration_truthy hours then
    match time_after nowMs (hours_to_ms hours) with
    | Some deadline => Ok (Some (Date_toISOString deadline))
    | None => Err invalid_time_value
    end
  else Ok None.
Proof. by destruct config as [[[hours|] assignees callback]|]. Qed.

(** X28. [enforce] on the verdict that [evaluateAll] returns. The decision
    can proceed exactly when no policy failed with enforcement BLOCK or
    ESCALATE. When the action is BLOCK its reason names every policy that
    failed with BLOCK, and when it is ESCALATE every policy that failed with
    ESCALATE, and the id of the escalation request is appended to the
    annotations. The escalation request of an ESCALATE verdict is pending,
    has the decision id and the timestamp in its id, lists the ids of the
    policies that failed with ESCALATE, and has priority high for more than
    two of them and medium otherwise: critical and low do not occur. For an enforcer made by [createPolicyEnforcer] its deadline is 24
    hours after now unless the configuration gives another number of hours,
    and absent for 0 hours and for [NaN]; when the deadline is not a valid
    date no request is made and [createEscalationRequest] throws. *)
Theorem enforce_after_evaluateAll
  (registry : RuleEvaluatorRegistry) (policies : list PolicyDefinition)
  (context : PolicyEvaluationContext) (evaluatedAt : Timestamp) (elapsedMs : number)
  (enforcer : PolicyEnforcer) (timestamp : Timestamp) (nowMs : Z) :
  match verdict_of registry policies context evaluatedAt elapsedMs with
  | Err raised => entries_of registry context policies = Err raised
  | Ok v =>
      entries_of registry context policies = Ok (policyResults v) /\
      let failed mode := List.filter (failed_with mode) (policyResults v) in
      match snd (enforce enforcer v timestamp nowMs) with
      | Ok action =>
          (canProceed action = true <->
           failed EnforcementMode.BLOCK = [] /\ failed EnforcementMode.ESCALATE = []) /\
          (isBlocked action = true ->
           action_reason action =
             "Blocked by policies: " +:+
             String.concat ", " (policy_names_of v (blockingPolicies v)) /\
           forall p entry, In p policies ->
             entry_of registry context p = Ok entry ->
             failed_with EnforcementMode.BLOCK entry = true ->
             In (policy_name p) (policy_names_of v (blockingPolicies v))) /\
          (requiresApproval action = true ->
           action_reason action =
             "Requires approval due to: " +:+
             String.concat ", " (policy_names_of v (escalatingPolicies v)) /\
           (forall p entry, In p policies ->
              entry_of registry context p = Ok entry ->
              failed_with EnforcementMode.ESCALATE entry = true ->
              In (policy_name p) (policy_names_of v (escalatingPolicies v))) /\
           exists request,
             createEscalationRequest enforcer v timestamp nowMs = Ok request /\
             action_annotations action =
               (verdict_annotations v ++ ["ESCALATION:" +:+ escalation_id request])%list)
      | Err _ => verdict_result v = VerdictResult.ESCALATE
      end /\
      (verdict_result v = VerdictResult.ESCALATE ->
       failed EnforcementMode.ESCALATE <> [] /\
       forall request,
         createEscalationRequest enforcer v timestamp nowMs = Ok request ->
         escalation_status request = escalation_pending /\
         escalation_id request =
           "escalation:" +:+ ctx_decision_id (ctx_decision context) +:+ ":" +:+ timestamp /\
         triggeringPolicies request = map entry_policyId (failed EnforcementMode.ESCALATE) /\
         escalation_priority request =
           if (2 <? length (failed EnforcementMode.ESCALATE))%nat
           then priority_high else priority_medium) /\
      (forall config : option EnforcementConfig,
         let hours := default (Whole 24) (config ≫= escalationTimeoutHours) in
         match createEscalationRequest (createPolicyEnforcer config) v timestamp nowMs with
         | Ok configured =>
             escalation_deadline configured =
               (if duration_truthy hours
                then Date_toISOString <$> time_after nowMs (hours_to_ms hours) else None) /\
             (duration_truthy hours = true -> time_after nowMs (hours_to_ms hours) <> None) /\
             escalation_assignees configured =
               default [] (config ≫= defaultEscalationAssignees)
         | Err thrown =>
             thrown = invalid_time_value /\ duration_truthy hours = true /\
             time_after nowMs (hours_to_ms hours) = None
         end)
  end.
Proof.
  pose proof (verdict_of_fields registry policies context evaluatedAt elapsedMs) as Hfields.
  pose proof (evaluateAll_outcome registry policies context evaluatedAt elapsedMs) as Hrun.
  fold (verdict_of registry policies context evaluatedAt elapsedMs) in Hrun.
  destruct (entries_of registry context policies) as [results|raised] eqn:Hentries;
    [|by rewrite Hfields].
  destruct Hfields as (v & Hv & Hresults & Hresult & Hblocking & Hescalating & _).
  rewrite Hv in Hrun |- *.
  destruct Hrun as (v0 & [= <-] & _ & _ & _ & _ & _ & _ & HdecisionId & _).
  split; [by rewrite Hresults|]. cbv zeta. rewrite Hresults.
  set (failed := fun mode => List.filter (failed_with mode) results).
  fold (failed EnforcementMode.BLOCK) in Hblocking |- *.
  fold (failed EnforcementMode.ESCALATE) in Hescalating |- *.
  destruct (aggregate_cases results) as [Hdeny Hescalate].
  rewrite <-Hresult in Hdeny, Hescalate.
  fold (failed EnforcementMode.BLOCK) in Hdeny, Hescalate.
  fold (failed EnforcementMode.ESCALATE) in Hescalate.
  assert (verdict_result v <> VerdictResult.DENY ->
          verdict_result v <> VerdictResult.ESCALATE ->
          failed EnforcementMode.BLOCK = [] /\ failed EnforcementMode.ESCALATE = [])
    as Hnone.
  { intros Hnd Hne.
    destruct (failed EnforcementMode.BLOCK) as [|b bs].
    - destruct (failed EnforcementMode.ESCALATE) as [|e es]; [done|].
      destruct Hne. by apply Hescalate.
    - destruct Hnd. by apply Hdeny. }
  assert (forall mode p entry, In p policies ->
            entry_of registry context p = Ok entry ->
            failed_with mode entry = true ->
            In (policy_name p)
               (policy_names_of v (map entry_policyId (failed mode)))) as Hnamed.
  { intros mode p entry Hin Hentry Hfailed. unfold policy_names_of. rewrite Hresults.
    destruct (entries_of_In _ _ _ _ _ Hentries Hin) as (entry' & Hin' & Hentry').
    assert (entry' = entry) as -> by congruence.
    assert (policy_name p = entry_policyName entry) as ->
      by (apply entry_of_Ok in Hentry as (result & _ & ->); reflexivity).
    by apply failed_policy_is_named. }
  split; [|split].
  - unfold enforce, handleEscalate.
    destruct (verdict_result v) eqn:Hverdict; cbn [fst snd].
    + (* ALLOW *)
      split; [|split; [discriminate|discriminate]].
      split; [intros _; by apply Hnone | reflexivity].
    + (* DENY *)
      split; [|split; [|discriminate]].
      * split; [discriminate|]. intros [Hb _].
        exfalso. by apply (proj1 Hdeny).
      * intros _. split; [reflexivity|]. rewrite Hblocking. apply Hnamed.
    + (* ESCALATE *)
      destruct (proj1 Hescalate eq_refl) as [Hb He].
      destruct (createEscalationRequest enforcer v timestamp nowMs) as [request|thrown];
        cbn [fst snd]; [|reflexivity].
      destruct (onEscalation (enforcer_config enforcer)) as [callback|];
        [destruct (callback _); cbn [fst snd]; [reflexivity|]|cbn [fst snd]].
      * split; [|split; [discriminate|]].
        { split; [discriminate|]. by intros [_ ?]. }
        intros _. split; [reflexivity|]. split; [rewrite Hescalating; apply Hnamed|].
        by exists request.
      * split; [|split; [discriminate|]].
        { split; [discriminate|]. by intros [_ ?]. }
        intros _. split; [reflexivity|]. split; [rewrite Hescalating; apply Hnamed|].
        by exists request.
    + (* ANNOTATE *)
      split; [|split; [discriminate|discriminate]].
      split; [intros _; by apply Hnone | reflexivity].
  - intros Hverdict.
    destruct (proj1 Hescalate Hverdict) as [Hb He].
    split; [exact He|]. intros request. unfold createEscalationRequest.
    destruct (escalation_deadline_at enforcer nowMs) as [deadline|]; [|discriminate].
    intros [= <-].
    cbn [escalation_status escalation_id triggeringPolicies escalation_priority].
    split; [reflexivity|]. split; [by rewrite HdecisionId|].
    split; [exact Hescalating|].
    unfold determinePriority. rewrite Hblocking, Hescalating, Hb, !length_map. cbn.
    destruct (failed EnforcementMode.ESCALATE) as [|e1 [|e2 [|e3 rest]]]; done.
  - intros config. unfold createEscalationRequest.
    rewrite (configured_deadline config nowMs). cbv zeta.
    set (hours := default (Whole 24) (config ≫= escalationTimeoutHours)).
    destruct (duration_truthy hours) eqn:Htruthy.
    + destruct (time_after nowMs (hours_to_ms hours)) as [deadline|] eqn:Htime.
      * cbn [escalation_deadline escalation_assignees fmap option_fmap option_map].
        repeat split; try done.
        by destruct config as [[? assignees ?]|].
      * by repeat split.
    + cbn [escalation_deadline escalation_assignees]. repeat split; try done.
      by destruct config as [[? assignees ?]|].
Qed.

End EnforcementProperties.

Section EscalationProperties.
Context `{RT : JSRuntime}.
Variable compare_amount : bool -> JSValue -> ConditionValue -> bool.

(** ** Properties of the escalation manager *)

Lemma array_find_Some {A} (p : A -> bool) (l : list A) (x : A) :
  array_find p l = Some x -> In x l /\ p x = true.
Proof.
  induction l as [|y l IH]; cbn [array_find]; [discriminate|].
  destruct (p y) eqn:Hy.
  - intros [= <-]. split; [by left | exact Hy].
  - intros Hfound. destruct (IH Hfound). split; [by right | assumption].
Qed.

Lemma EscalationLevel_eqb_eq (a b : EscalationLevelValue) :
  EscalationLevel.eqb a b = true <-> a = b.
Proof. by destruct a, b. Qed.

Lemma continues_refl (record : EscalationRecord) : continues record record.
Proof.
  exists []. rewrite app_nil_r. repeat split; try done; constructor.
Qed.

Lemma level_after_app (start : EscalationLevelValue) (events more : list EscalationEvent) :
  level_after start (events ++ more) = level_after (level_after start events) more.
Proof. unfold level_after. by rewrite fold_left_app. Qed.

Lemma continues_trans (r1 r2 r3 : EscalationRecord) :
  continues r1 r2 -> continues r2 r3 -> continues r1 r3.
Proof.
  intros (more1 & Hh1 & Hs1 & Hl1 & Ha1 & ? & ? & ? & ? & ? & ?)
         (more2 & Hh2 & Hs2 & Hl2 & Ha2 & ? & ? & ? & ? & ? & ?).
  exists (more1 ++ more2)%list. repeat split; try congruence.
  - by rewrite Hh2, Hh1, app_assoc.
  - by apply Forall_app.
  - by rewrite level_after_app, <-Hl1.
  - intros Hnone. rewrite Ha2, Ha1; [reflexivity| |];
      intros event Hin; apply Hnone, in_or_app; auto.
Qed.

Lemma continues_with_event (record : EscalationRecord) (event : EscalationEvent) :
  event_type event = event_resolved \/ event_type event = event_timed_out ->
  continues record (with_event record event).
Proof.
  intros Htype. exists [event]. cbn. repeat split; try done.
  - constructor; [|constructor]. destruct Htype as [-> | ->]; discriminate.
  - unfold level_after. cbn. by destruct Htype as [-> | ->].
Qed.

(** Storing a continuation of a stored record keeps every record continued. *)
Lemma records_set_continues (m : EscalationManager) (recordId key : ContentAddress)
  (stored updated record : EscalationRecord) :
  records m !! recordId = Some stored ->
  continues stored updated ->
  records m !! key = Some record ->
  exists record', <[recordId := updated]> (records m) !! key = Some record' /\
                  continues record record'.
Proof.
  intros Hstored Hcontinues Hrecord. destruct (decide (recordId = key)) as [->|Hne].
  - rewrite lookup_insert_eq. exists updated. split; [reflexivity|]. congruence.
  - rewrite lookup_insert_ne by done. exists record. split; [exact Hrecord|].
    apply continues_refl.
Qed.

Lemma escalation_timeout_body_continues (clock : nat -> Timestamp)
  (st : list EscalationRecord * EscalationManager) (approval : ApprovalRequest)
  (key : ContentAddress) (record : EscalationRecord) :
  records (snd st) !! key = Some record ->
  exists record',
    records (snd (escalation_timeout_body clock st approval)) !! key = Some record' /\
    continues record record'.
Proof.
  intros Hrecord. unfold escalation_timeout_body.
  destruct (negb (truthy _)); [by exists record; split; [|apply continues_refl]|].
  destruct (recordByDecision (snd st) !! request_decisionId approval) as [recordId|];
    cbn [mbind option_bind]; [|by exists record; split; [|apply continues_refl]].
  destruct (records (snd st) !! recordId) as [stored|] eqn:Hstored;
    [|by exists record; split; [|apply continues_refl]].
  cbn [snd records_set records].
  apply (records_set_continues (snd st) recordId key stored); [exact Hstored| |exact Hrecord].
  apply continues_with_event. by right.
Qed.

Lemma manager_after_continues (c : EscalationCall) (m : EscalationManager)
  (key : ContentAddress) (record : EscalationRecord) :
  records m !! key = Some record ->
  exists record', records (manager_after c m) !! key = Some record' /\
                  continues record record'.
Proof.
  intros Hrecord.
  assert (exists record', records m !! key = Some record' /\ continues record record')
    as Hsame by (exists record; split; [exact Hrecord | apply continues_refl]).
  destruct c as [recordId reason requestedBy clock
                |recordId outcome resolvedBy details timestamp
                |insertionOrder now loopClock]; cbn [manager_after].
  - unfold escalateToNextLevel.
    destruct (records m !! recordId) as [stored|] eqn:Hstored; [|exact Hsame].
    destruct (assoc_get _ (paths m)) as [path|]; [|exact Hsame].
    destruct (findIndex _ (levels path)) as [currentLevelIndex|]; [|exact Hsame].
    destruct (_ =? _)%nat; [exact Hsame|].
    destruct (levels path !! _) as [nextLevelConfig|]; [|exact Hsame].
    unfold createRequest. cbn [create_timeoutMs].
    destruct (time_after (clock_nowMs clock) _) as [expiry|]; cbn [fst snd records];
      [|exact Hsame].
    apply (records_set_continues m recordId key stored); [exact Hstored| |exact Hrecord].
    eexists [_]. cbn. repeat split; try reflexivity.
    + constructor; [discriminate | constructor].
    + intros Hnone. exfalso. eapply Hnone; [by left | reflexivity].
  - unfold resolveEscalation.
    destruct (records m !! recordId) as [stored|] eqn:Hstored; [|exact Hsame].
    cbn [snd records_set records].
    apply (records_set_continues m recordId key stored); [exact Hstored| |exact Hrecord].
    apply continues_with_event. by left.
  - unfold escalation_processTimeouts.
    set (st0 := ([], _)).
    assert (exists record', records (snd st0) !! key = Some record' /\
                            continues record record') as Hstart by exact Hsame.
    clearbody st0. clear Hsame.
    revert st0 Hstart.
    induction (fst (processTimeouts insertionOrder timeout_reject now (approvalQueue m)))
      as [|approval rest IH]; intros st0 Hstart; [exact Hstart|].
    cbn [fold_left]. apply IH.
    destruct Hstart as (record1 & Hrecord1 & Hcontinues1).
    destruct (escalation_timeout_body_continues loopClock st0 approval key record1 Hrecord1)
      as (record2 & Hrecord2 & Hcontinues2).
    exists record2. split; [exact Hrecord2 | by eapply continues_trans].
Qed.

Lemma findIndex_last {A} (p : A -> bool) (earlier : list A) (x : A) :
  Forall (fun y => p y = false) earlier -> p x = true ->
  findIndex p (earlier ++ [x]) = Some (length earlier).
Proof.
  induction 1 as [|y earlier Hy _ IH]; intros Hx; cbn [findIndex app length].
  - by rewrite Hx.
  - by rewrite Hy, IH.
Qed.

(** X29. An escalation record is only ever continued. After any sequence
    of [escalateToNextLevel], [resolveEscalation] and [processTimeouts]
    calls a stored record is still stored, its history is the old history
    followed by new events, none of them 'started', its level is the level
    of its last 'escalated' event, and its id, decision, trigger, rule, path
    and start time are unchanged. At the last level of its path
    [escalateToNextLevel] returns null and changes nothing, and
    [resolveEscalation] accepts any actor, appends one 'resolved' event and
    leaves the approval queue as it is. *)
Theorem escalation_record_is_only_continued
  (m : EscalationManager) (recordId : ContentAddress) (record : EscalationRecord) :
  records m !! recordId = Some record ->
  (forall cs, exists record' more,
     records (manager_after_calls cs m) !! recordId = Some record' /\
     history record' = (history record ++ more)%list /\
     Forall (fun event => event_type event <> event_started) more /\
     currentLevel record' = level_after (currentLevel record) more /\
     record_id record' = record_id record /\
     record_decisionId record' = record_decisionId record /\
     record_trigger record' = record_trigger record /\
     record_ruleId record' = record_ruleId record /\
     record_pathId record' = record_pathId record /\
     record_startedAt record' = record_startedAt record) /\
  (forall path earlier last reason requestedBy clock,
     assoc_get (record_pathId record) (paths m) = Some path ->
     levels path = (earlier ++ [last])%list ->
     level last = currentLevel record ->
     Forall (fun l => level l <> currentLevel record) earlier ->
     escalateToNextLevel recordId reason requestedBy clock m = (Ok None, m)) /\
  (forall outcome resolvedBy details timestamp,
     exists resolved event,
       resolveEscalation recordId outcome resolvedBy details timestamp m =
         (Ok resolved, records_set recordId resolved m) /\
       resolved = with_event record event /\
       event_type event = event_resolved /\ event_actorId event = Some resolvedBy /\
       event_level event = currentLevel record /\
       approvalQueue (records_set recordId resolved m) = approvalQueue m).
Proof.
  intros Hrecord. split; [|split].
  - intros cs.
    assert (exists record', records (manager_after_calls cs m) !! recordId = Some record' /\
                            continues record record') as (record' & Hrecord' & Hcontinues).
    { revert m record Hrecord. induction cs as [|c cs IH]; intros m record Hrecord.
      - exists record. split; [exact Hrecord | apply continues_refl].
      - cbn [manager_after_calls fold_left].
        destruct (manager_after_continues c m recordId record Hrecord)
          as (record1 & Hrecord1 & Hcontinues1).
        destruct (IH _ _ Hrecord1) as (record2 & Hrecord2 & Hcontinues2).
        exists record2. split; [exact Hrecord2 | by eapply continues_trans]. }
    destruct Hcontinues as (more & Hhistory & Hstarted & Hlevel & _ & Hfields).
    exists record', more. by repeat split; try apply Hfields.
  - intros path earlier last reason requestedBy clock Hpath Hlevels Hlast Hearlier.
    unfold escalateToNextLevel. rewrite Hrecord, Hpath, Hlevels.
    rewrite (findIndex_last _ earlier last).
    + rewrite length_app. cbn [length].
      by rewrite (proj2 (Nat.eqb_eq _ _)) by lia.
    + eapply Forall_impl; [exact Hearlier|]. cbn. intros l Hl.
      destruct (EscalationLevel.eqb (level l) (currentLevel record)) eqn:Heq; [|reflexivity].
      by apply EscalationLevel_eqb_eq in Heq.
    + by apply EscalationLevel_eqb_eq.
  - intros outcome resolvedBy details timestamp.
    unfold resolveEscalation. rewrite Hrecord. eexists. eexists.
    split; [reflexivity|]. by cbn.
Qed.

(** Once a path is registered, [findPath] finds a path for every scope the
    registered pattern matches: that path, or one registered earlier. *)
Lemma registered_path_is_found (pattern : string) (pathLevels : list EscalationPathLevel)
  (defaultTimeoutMs : option Duration) (m : EscalationManager) (scope : string) :
  scopeMatches pattern scope = true ->
  exists path,
    findPath (snd (registerPath pattern pathLevels defaultTimeoutMs m)) scope = Some path /\
    scopeMatches (scopePattern path) scope = true.
Proof.
  intros Hmatches. unfold findPath, registerPath. cbn [snd paths].
  set (id := computeContentAddress _). set (path := Build_EscalationPath _ _ _ _).
  induction (paths m) as [|[k earlier] rest IH]; cbn [Map_set Map_values map snd array_find].
  - change (scopePattern path) with pattern. rewrite Hmatches. by exists path.
  - destruct (String.eqb k id); cbn [Map_values map snd array_find].
    + change (scopePattern path) with pattern. rewrite Hmatches. by exists path.
    + destruct (scopeMatches (scopePattern earlier) scope) eqn:Hearlier;
        [by exists earlier | exact IH].
Qed.

(** X30. [triggerEscalation] either fails before it changes anything, or it
    succeeds and links a record and an approval request. It fails when no
    registered path matches the scope of the verdict ([*] without verdict),
    when the first matching path has no level for the target level of the
    matching rule (L1 without rule), and when [createRequest] throws the
    [RangeError] of an invalid expiry, for the timeout of that level or else
    of the path. When it succeeds, the request is stored PENDING in the
    manager's queue for the approvers of that level and expires after that
    timeout, the record holds the request's id and a single 'started' event
    at that level, is stored under its own id and is what
    [getRecordForDecision] returns for the decision. After [registerPath], a
    path is found for every scope the registered pattern matches; on a new
    manager it is the registered path, with a timeout of eight hours unless
    one is given. *)
Theorem triggerEscalation_links_record_and_request
  (input : TriggerEscalationInput) (clock : EscalationClock) (m : EscalationManager) :
  let scope := default "*" (verdict_scope <$> trigger_verdict input) in
  let initialLevel :=
    default EscalationLevel.L1
      (targetLevel <$> findMatchingRule compare_amount m (trigger input)
                         (trigger_decision input) (trigger_verdict input)) in
  let expiry path levelConfig :=
    time_after (clock_nowMs clock)
      (default (path_defaultTimeoutMs path) (level_timeoutMs levelConfig)) in
  match triggerEscalation compare_amount input clock m with
  | (Ok (record, request), m') =>
      (exists path levelConfig expiresAt,
         findPath m scope = Some path /\
         scopeMatches (scopePattern path) scope = true /\
         array_find (fun l => EscalationLevel.eqb (level l) initialLevel) (levels path) =
           Some levelConfig /\
         In levelConfig (levels path) /\ level levelConfig = initialLevel /\
         record_pathId record = path_id path /\
         approvers request = level_approvers levelConfig /\
         expiry path levelConfig = Some expiresAt /\
         request_expiresAt request = Date_toISOString expiresAt) /\
      getRequest (approvalQueue m') (request_id request) = Some request /\
      request_status request = ApprovalStatus.PENDING /\
      request_decisionId request = id (trigger_decision input) /\
      approvalRequestId record = Some (request_id request) /\
      currentLevel record = initialLevel /\
      (exists started, history record = [started] /\ event_type started = event_started /\
                       event_level started = initialLevel) /\
      records m' !! record_id record = Some record /\
      getRecordForDecision m' (id (trigger_decision input)) = Some record /\
      paths m' = paths m /\ escalation_rules m' = escalation_rules m
  | (Err e, m') =>
      m' = m /\
      match findPath m scope with
      | None => e = NoPathForScope scope
      | Some path =>
          match array_find (fun l => EscalationLevel.eqb (level l) initialLevel)
                  (levels path) with
          | None =>
              e = NoLevelConfiguration initialLevel (path_id path) /\
              Forall (fun l => level l <> initialLevel) (levels path)
          | Some levelConfig =>
              e = ThrownByQueue InvalidTimeValue /\ expiry path levelConfig = None
          end
      end
  end /\
  (forall pattern pathLevels defaultTimeoutMs scope,
     scopeMatches pattern scope = true ->
     (exists path,
        findPath (snd (registerPath pattern pathLevels defaultTimeoutMs m)) scope = Some path /\
        scopeMatches (scopePattern path) scope = true) /\
     forall queue,
       match registerPath pattern pathLevels defaultTimeoutMs (createEscalationManager queue) with
       | (registered, m') =>
           exists path,
             registered = Ok path /\ findPath m' scope = Some path /\
             scopePattern path = pattern /\ levels path = pathLevels /\
             path_defaultTimeoutMs path = default (Whole 28800000) defaultTimeoutMs
       end).
Proof.
  intros scope initialLevel expiry. split.
  2: { intros pattern pathLevels defaultTimeoutMs scope' Hmatches.
       split; [by apply registered_path_is_found|].
       intros queue. unfold registerPath, findPath, createEscalationManager.
       cbn [paths Map_set Map_values map snd array_find scopePattern].
       rewrite Hmatches. eexists. by repeat split. }
  unfold triggerEscalation. fold scope. fold initialLevel.
  destruct (findPath m scope) as [path|] eqn:Hpath; [|done].
  destruct (array_find _ (levels path)) as [levelConfig|] eqn:Hlevel.
  - pose proof Hlevel as Hfirst.
    apply array_find_Some in Hlevel as [Hin Heq]. apply EscalationLevel_eqb_eq in Heq.
    pose proof Hpath as Hfound. unfold findPath in Hfound.
    apply array_find_Some in Hfound as [_ Hmatches].
    unfold createRequest. subst expiry. cbn [create_timeoutMs default].
    destruct (time_after (clock_nowMs clock) _) as [expiresAt|] eqn:Hexpiry; cbn [fst snd];
      [|done].
    split; [by exists path, levelConfig, expiresAt|].
    unfold getRequest, getRecordForDecision.
    cbn [approvalQueue requests request_id request_status request_decisionId
         approvalRequestId currentLevel history records record_id recordByDecision
         paths escalation_rules].
    rewrite !lookup_insert_eq, computeContentAddress_truthy. cbn [mbind option_bind].
    rewrite !lookup_insert_eq.
    repeat split; try reflexivity. eexists. by split.
  - split; [reflexivity|]. split; [reflexivity|].
    apply List.Forall_forall. intros l Hl Heq.
    assert (array_find (fun l => EscalationLevel.eqb (level l) initialLevel) (levels path)
            <> None) as Hsome; [|by apply Hsome].
    clear Hlevel. induction (levels path) as [|l0 ls IH]; [contradiction|].
    cbn [array_find]. destruct (EscalationLevel.eqb (level l0) initialLevel) eqn:Hl0;
      [discriminate|].
    destruct Hl as [->|Hl]; [|by apply IH].
    apply EscalationLevel_eqb_eq in Heq. congruence.
Qed.

End EscalationProperties.

(** ** The properties at concrete inputs *)

Section Examples.
#[local] Existing Instance example_runtime.

Example canonicalize_object_ab :
  canonicalize object_ab =
  "{" +:+ dq +:+ "a" +:+ dq +:+ ":1," +:+ dq +:+ "b" +:+ dq +:+ ":{" +:+
  dq +:+ "x" +:+ dq +:+ ":" +:+ dq +:+ "u" +:+ dq +:+ "," +:+ dq +:+ "y" +:+ dq +:+
  ":[true,null]}}".
Proof. vm_compute. reflexivity. Qed.

Example canonicalize_object_ba : canonicalize object_ba = canonicalize object_ab.
Proof. vm_compute. reflexivity. Qed.

Lemma object_ab_same_content_ba : same_content object_ab object_ba.
Proof.
  unfold object_ab, object_ba.
  eapply same_object; [apply perm_swap|].
  constructor; [split; [reflexivity|]|].
  - eapply same_object; [apply perm_swap|].
    repeat constructor.
  - repeat constructor.
Defined.

Lemma computeContentAddress_key_order_independent_witness :
  own_keys_unique object_ab = true /\
  same_content object_ab object_ba /\
  computeContentAddress object_ab = computeContentAddress object_ba.
Proof.
  assert (own_keys_unique object_ab = true) as Hunique by (vm_compute; reflexivity).
  split; [exact Hunique|]. split; [exact object_ab_same_content_ba|].
  exact (proj1 (computeContentAddress_key_order_independent
                  object_ab object_ba DEFAULT_CONFIG Hunique object_ab_same_content_ba)).
Defined.

(** The activation window of P1 is half open: 1000 is inside, 5000 is not. *)
Example P1_activation_window :
  map (isPolicyActive P1) ["999"; "1000"; "4999"; "5000"] = [false; true; true; false].
Proof. vm_compute. reflexivity. Qed.

Lemma evaluatePolicy_inactive_passes_vacuously_witness :
  isPolicyActive P1 (ctx_timestamp (example_context "5000")) = false /\
  outcome (evaluatePolicy empty_registry P1 (example_context "5000")) = Ok (vacuous_pass P1) /\
  dispatched (evaluatePolicy empty_registry P1 (example_context "5000")) = [].
Proof.
  assert (isPolicyActive P1 (ctx_timestamp (example_context "5000")) = false) as Hinactive
    by (vm_compute; reflexivity).
  split; [exact Hinactive|].
  destruct (evaluatePolicy_inactive_passes_vacuously
              empty_registry P1 (example_context "5000") Hinactive)
    as (_ & Hreturned & _ & _ & Hdispatched).
  split; [exact Hreturned | exact Hdispatched].
Defined.

(** With no evaluator registered the registry throws an [Error], and the
    ANNOTATE policy P2 is blocked with its message. *)
Example evaluatePolicy_blocks_on_missing_evaluator :
  policy_enforcement P2 = EnforcementMode.ANNOTATE /\
  outcome (evaluatePolicy empty_registry P2 (example_context "2000")) =
    Ok (fail_safe_block P2 "No evaluator registered for format: expression").
Proof. split; vm_compute; reflexivity. Qed.

(** C4. The code at the failing input: an evaluator that throws an object
    without a prototype. The [catch] block of [evaluatePolicy] calls
    [String(error)] on it, which throws a [TypeError] in turn, so the promise
    of [evaluatePolicy] rejects: the exception reaches the caller, and no
    result with [passed = false] and enforcement BLOCK is returned.
    [evaluateAll] over a list with that policy rejects with the same error.
    Neither returns a passing result. *)
Theorem evaluatePolicy_rejects_when_conversion_throws :
  isPolicyActive rego_policy (ctx_timestamp (example_context "2000")) = true /\
  registry_evaluate registry_with_thrower (rule_format (policy_rule rego_policy))
    (rule_expression (policy_rule rego_policy)) (example_context "2000") =
    Err (ThrownUnprintable cannot_convert) /\
  errorMessage_of (ThrownUnprintable cannot_convert) = Err cannot_convert /\
  outcome (evaluatePolicy registry_with_thrower rego_policy (example_context "2000")) =
    Err cannot_convert /\
  outcome (evaluateAll registry_with_thrower [P1; rego_policy] (example_context "2000")
             "2001" 1%Z) = Err cannot_convert.
Proof.
  do 4 (split; [vm_compute; reflexivity|]).
  pose proof (evaluateAll_outcome registry_with_thrower [P1; rego_policy]
                (example_context "2000") "2001" 1%Z) as Hrejects.
  assert (entries_of registry_with_thrower (example_context "2000") [P1; rego_policy] =
          Err cannot_convert) as Hentries by (vm_compute; reflexivity).
  rewrite Hentries in Hrejects. exact Hrejects.
Qed.

(** The scenario of the specification: one BLOCK policy that fails. *)
Example evaluateAll_one_failing_BLOCK_policy :
  let failing := createRuleEvaluatorRegistry (fun _ => Some (fun _ _ => Ok false)) in
  match outcome (evaluateAll failing [P1] (example_context "2000") "2001" 1%Z) with
  | Ok v => verdict_result v = VerdictResult.DENY /\ length (blockingPolicies v) = 1
  | Err _ => False
  end.
Proof. vm_compute. split; reflexivity. Qed.

Example propose_returns_proposed_decision :
  propose transfer_proposal "1000" createDecisionStateMachine =
  (Ok proposed_decision, proposed_machine).
Proof. reflexivity. Qed.

Lemma proposed_machine_lookup :
  decisions proposed_machine !! example_id = Some proposed_decision.
Proof. apply lookup_insert_eq. Defined.

Lemma pending_machine_lookup :
  decisions pending_machine !! example_id = Some pending_decision.
Proof.
  unfold pending_machine. rewrite evaluate_run, proposed_machine_lookup.
  apply lookup_insert_eq.
Defined.

Lemma committed_machine_lookup :
  decisions committed_machine !! example_id = Some committed_decision.
Proof.
  unfold committed_machine. rewrite commit_run, pending_machine_lookup.
  apply lookup_insert_eq.
Defined.

Lemma evaluate_takes_state_from_verdict_witness :
  decisions proposed_machine !! example_id = Some proposed_decision /\
  In DecisionState.EVALUATED (VALID_TRANSITIONS (state proposed_decision)) /\
  exists d',
    fst (evaluate example_id (example_verdict VerdictResult.DENY) "2000" proposed_machine)
      = Ok d' /\
    state d' = DecisionState.REJECTED /\ concludedAt d' = Some "2000".
Proof.
  assert (In DecisionState.EVALUATED (VALID_TRANSITIONS (state proposed_decision))) as Hvalid
    by (simpl; auto).
  split; [exact proposed_machine_lookup|]. split; [exact Hvalid|].
  destruct (evaluate_takes_state_from_verdict proposed_machine example_id proposed_decision
              (example_verdict VerdictResult.DENY) "2000" proposed_machine_lookup Hvalid)
    as (d' & Hok & _ & _ & _ & Hstate & Hconcluded).
  exists d'. split; [exact Hok|]. split; [exact Hstate | exact Hconcluded].
Defined.

(** C1. The code at the failing input: a decision that an ESCALATE verdict
    has left pending approval, and that nobody has approved, is committed by
    [commit], although [canCommit] says it cannot be. *)
Theorem commit_accepts_unapproved_pending_decision :
  getDecision pending_machine example_id = Some pending_decision /\
  state pending_decision = DecisionState.PENDING_APPROVAL /\
  approval pending_decision = None /\
  canCommit pending_decision = false /\
  fst (commit example_id example_clock pending_machine) = Ok committed_decision /\
  state committed_decision = DecisionState.COMMITTED /\
  approval committed_decision = None /\
  getDecision committed_machine example_id = Some committed_decision.
Proof.
  split; [exact pending_machine_lookup|].
  do 3 (split; [reflexivity|]).
  split; [by rewrite commit_run, pending_machine_lookup|].
  do 2 (split; [reflexivity|]).
  exact committed_machine_lookup.
Qed.

(** On the committed decision [approve] fails, but not with the invalid
    transition error. *)
Lemma approve_on_terminal_is_not_InvalidTransition :
  getDecision committed_machine example_id = Some committed_decision /\
  isTerminalState (state committed_decision) = true /\
  call (CallApprove example_id "alice" None "4000") committed_machine =
    (Err (NotPendingApproval example_id), committed_machine) /\
  forall from to validTargets,
    fst (call (CallApprove example_id "alice" None "4000") committed_machine)
      <> Err (InvalidTransition from to validTargets).
Proof.
  assert (call (CallApprove example_id "alice" None "4000") committed_machine =
          (Err (NotPendingApproval example_id), committed_machine)) as Hcall.
  { simpl. by rewrite approve_run, committed_machine_lookup. }
  split; [exact committed_machine_lookup|]. split; [reflexivity|].
  split; [exact Hcall|]. intros from to validTargets. rewrite Hcall. discriminate.
Qed.

Lemma terminal_decision_refuses_every_call_witness :
  decisions committed_machine !! example_id = Some committed_decision /\
  isTerminalState (state committed_decision) = true /\
  call (CallCancel example_id None "4000") committed_machine =
    (Err (InvalidTransition DecisionState.COMMITTED DecisionState.CANCELLED []),
     committed_machine).
Proof.
  split; [exact committed_machine_lookup|]. split; [reflexivity|].
  exact (proj1 (terminal_decision_refuses_every_call committed_machine
                  (CallCancel example_id None "4000") committed_decision
                  committed_machine_lookup eq_refl)).
Defined.

Lemma lifecycle_keeps_proposal_identity_witness :
  exists d,
    getDecision committed_machine example_id = Some d /\ same_proposal proposed_decision d.
Proof.
  destruct (lifecycle_keeps_proposal_identity createDecisionStateMachine transfer_proposal "1000")
    as (d0 & Hd0 & _ & _ & Hcalls & _).
  injection Hd0 as <-.
  exact (Hcalls [CallEvaluate example_id (example_verdict VerdictResult.ESCALATE) "2000";
                 CallCommit example_id example_clock]).
Defined.

Lemma queue_pending_lookup :
  requests queue_pending !! example_request_id = Some pending_request.
Proof. apply lookup_insert_eq. Defined.

Lemma queue_in_review_lookup :
  requests queue_in_review !! example_request_id =
  Some (with_status pending_request ApprovalStatus.IN_REVIEW None).
Proof.
  unfold queue_in_review, startReview, request_or_throw, requests_set, bind, ret.
  rewrite queue_pending_lookup. apply lookup_insert_eq.
Defined.

Lemma mallory_is_a_stranger : ~ In "mallory" (approvers pending_request).
Proof. simpl. intros [H|[]]. discriminate. Defined.

(** A stranger who calls [startReview] on a request under review is told
    that the request is not pending, not that the actor is not authorized. *)
Lemma stranger_on_request_in_review_gets_status_error :
  getRequest queue_in_review example_request_id =
    Some (with_status pending_request ApprovalStatus.IN_REVIEW None) /\
  ~ In "mallory" (approvers (with_status pending_request ApprovalStatus.IN_REVIEW None)) /\
  startReview example_request_id "mallory" queue_in_review =
    (Err (RequestNotPending example_request_id ApprovalStatus.IN_REVIEW), queue_in_review) /\
  is_authorization_error
    (RequestNotPending example_request_id ApprovalStatus.IN_REVIEW) = false.
Proof.
  split; [exact queue_in_review_lookup|].
  split; [exact mallory_is_a_stranger|].
  split; [|reflexivity].
  unfold startReview at 1, request_or_throw, bind, throw.
  by rewrite queue_in_review_lookup.
Qed.

Lemma approval_queue_refuses_strangers_witness :
  requests queue_pending !! example_request_id = Some pending_request /\
  ~ In "mallory" (approvers pending_request) /\
  "mallory" <> requestedBy pending_request /\
  startReview example_request_id "mallory" queue_pending =
    (Err (NotAuthorizedToReview "mallory"), queue_pending) /\
  withdraw example_request_id "mallory" queue_pending =
    (Err OnlyRequesterCanWithdraw, queue_pending).
Proof.
  assert ("mallory" <> requestedBy pending_request) as Hother by discriminate.
  split; [exact queue_pending_lookup|].
  split; [exact mallory_is_a_stranger|]. split; [exact Hother|].
  destruct (approval_queue_refuses_strangers queue_pending example_request_id "mallory"
              pending_request queue_pending_lookup) as [Hreview Hwithdraw].
  split.
  - exact (proj1 (Hreview mallory_is_a_stranger)).
  - exact (Hwithdraw Hother).
Defined.

Example split_colon_financial :
  split_colon "financial:transfer" = ["financial"; "transfer"].
Proof. reflexivity. Qed.

Example scopeMatches_financial :
  scopeMatches "financial:*" "financial:transfer" = true /\
  scopeMatches "financial:transfer" "financial:*" = false /\
  scopeMatches "financial" "financial:transfer" = true /\
  scopeMatches "financial:transfer" "financial" = false.
Proof. repeat split; reflexivity. Qed.

(** The scenario returns three conflicts, not one. *)
Lemma financial_scenario_returns_three_conflicts :
  map conflict_type (fst (detectConflicts None clock_at_2000 financial_resolver)) =
    [ConflictType.CONTRADICTION; ConflictType.OVERLAP; ConflictType.AMBIGUOUS_PRIORITY] /\
  length (fst (detectConflicts None clock_at_2000 financial_resolver)) <> 1.
Proof. vm_compute. split; [reflexivity | discriminate]. Qed.

Lemma financial_contradiction_detected_and_resolved_witness :
  policy_id P1 <> policy_id P2 /\
  exists contradiction overlap ambiguous,
    fst (detectConflicts None clock_at_2000 financial_resolver) =
      [contradiction; overlap; ambiguous] /\
    conflict_type contradiction = ConflictType.CONTRADICTION /\
    conflict_type overlap = ConflictType.OVERLAP /\
    conflict_type ambiguous = ConflictType.AMBIGUOUS_PRIORITY /\
    strategy (resolve (snd (detectConflicts None clock_at_2000 financial_resolver))
                contradiction) = ResolutionStrategy.MOST_RESTRICTIVE /\
    winningPolicy (resolve (snd (detectConflicts None clock_at_2000 financial_resolver))
                     contradiction) = Some P1.
Proof.
  assert (policy_id P1 <> policy_id P2) as Hids by discriminate.
  split; [exact Hids|].
  destruct (financial_contradiction_detected_and_resolved P1 P2 true clock_at_2000
              Hids eq_refl eq_refl eq_refl eq_refl)
    as (contradiction & overlap & ambiguous & Hfound & _ & Hcontradiction & _ & Hoverlap &
        _ & _ & Hambiguous & _ & _ & _ & _ & Hstrategy & Hwinner).
  exists contradiction, overlap, ambiguous.
  split; [exact Hfound|]. split; [exact Hcontradiction|]. split; [exact Hoverlap|].
  split; [exact Hambiguous|]. split; [exact Hstrategy | exact Hwinner].
Defined.

(** A full address verifies; one truncated by -64 or by 0.5 is the
    algorithm name and a colon, which does not verify. *)
Example verifyContentAddress_of_full_address :
  verifyContentAddress (fun _ _ => Err "Digest method not supported") object_ab
    (computeContentAddress_with object_ab DEFAULT_CONFIG) (Some DEFAULT_CONFIG) = Ok true.
Proof. vm_compute. reflexivity. Qed.

Example verifyContentAddress_of_emptied_address :
  let minus64 := {| algorithm := SHA256; truncateLength := Some (Integer (-64)) |} in
  let half := {| algorithm := SHA256; truncateLength := Some (Fractional 0) |} in
  computeContentAddress_with object_ab minus64 = "sha256:" /\
  verifyContentAddress (fun _ _ => Err "Digest method not supported") object_ab
    (computeContentAddress_with object_ab minus64) (Some minus64) = Ok false /\
  computeContentAddress_with object_ab half = "sha256:" /\
  verifyContentAddress (fun _ _ => Err "Digest method not supported") object_ab
    (computeContentAddress_with object_ab half) (Some half) = Ok false.
Proof. vm_compute. by repeat split. Qed.

Lemma evaluatePolicy_of_unregistered_format_witness :
  let evaluators := default_evaluators always_true always_true in
  outcome (evaluatePolicy (createRuleEvaluatorRegistry evaluators) rego_policy
             (example_context "2000")) =
    Ok (fail_safe_block rego_policy
          ("No evaluator registered for format: " +:+
           RuleFormat.name (rule_format (policy_rule rego_policy)))) /\
  ((exists result,
      outcome (evaluatePolicy
                 (registerEvaluator (rule_format (policy_rule rego_policy)) always_false
                    evaluators)
                 rego_policy (example_context "2000")) = Ok result /\
      passed result = true) <->
   always_false (rule_expression (policy_rule rego_policy)) (example_context "2000")
     = Ok true).
Proof.
  apply (evaluatePolicy_of_unregistered_format always_true always_true always_false
           rego_policy (example_context "2000")).
  - vm_compute. reflexivity.
  - discriminate.
  - discriminate.
Defined.

Lemma allowed_machine_lookup :
  decisions allowed_machine !! example_id = Some allowed_decision.
Proof.
  unfold allowed_machine. rewrite evaluate_run, proposed_machine_lookup.
  apply lookup_insert_eq.
Defined.

Lemma pending_machine_reachable : reachable pending_machine.
Proof.
  exact (reachable_call _ (CallEvaluate example_id (example_verdict VerdictResult.ESCALATE) "2000")
           (reachable_propose _ transfer_proposal "1000" reachable_fresh)).
Defined.

Lemma committed_machine_reachable : reachable committed_machine.
Proof.
  exact (reachable_call _ (CallCommit example_id example_clock) pending_machine_reachable).
Defined.

Lemma reachable_decisions_are_consistent_witness :
  reachable pending_machine /\
  getDecision pending_machine example_id = Some pending_decision /\
  id pending_decision = example_id /\
  (isTerminalState (state pending_decision) = true <-> concludedAt pending_decision <> None).
Proof.
  split; [exact pending_machine_reachable|]. split; [exact pending_machine_lookup|].
  destruct (reachable_decisions_are_consistent pending_machine example_id pending_decision
              pending_machine_reachable pending_machine_lookup)
    as (Hid & _ & _ & _ & Hterminal & _).
  split; [exact Hid | exact Hterminal].
Defined.

Lemma terminal_decision_is_final_witness :
  getDecision committed_machine example_id = Some committed_decision /\
  isTerminalState (state committed_decision) = true /\
  forall cs, getDecision (after_calls cs committed_machine) example_id = Some committed_decision.
Proof.
  split; [exact committed_machine_lookup|]. split; [reflexivity|].
  exact (proj1 (terminal_decision_is_final committed_machine example_id committed_decision
                  committed_machine_lookup eq_refl)).
Defined.

Lemma verdict_is_recorded_once_witness :
  getDecision pending_machine example_id = Some pending_decision /\
  state pending_decision <> DecisionState.PROPOSED /\
  exists d',
    getDecision (after_calls [CallApprove example_id "alice" None "2500";
                              CallCommit example_id example_clock] pending_machine)
      example_id = Some d' /\
    verdict d' = verdict pending_decision.
Proof.
  assert (state pending_decision <> DecisionState.PROPOSED) as Hstate by discriminate.
  split; [exact pending_machine_lookup|]. split; [exact Hstate|].
  destruct (verdict_is_recorded_once pending_machine example_id pending_decision
              [CallApprove example_id "alice" None "2500"; CallCommit example_id example_clock]
              pending_machine_lookup Hstate)
    as (d' & Hd' & _ & Hverdict & _).
  exists d'. split; [exact Hd' | exact Hverdict].
Defined.

Lemma canCommit_is_sound_for_commit_witness :
  getDecision allowed_machine example_id = Some allowed_decision /\
  canCommit allowed_decision = true /\
  exists d',
    fst (commit example_id example_clock allowed_machine) = Ok d' /\
    state d' = DecisionState.COMMITTED.
Proof.
  split; [exact allowed_machine_lookup|]. split; [reflexivity|].
  destruct (canCommit_is_sound_for_commit allowed_machine example_id allowed_decision
              example_clock allowed_machine_lookup eq_refl)
    as (d' & Hok & _ & Hstate & _).
  exists d'. split; [exact Hok | exact Hstate].
Defined.

Lemma transactions_are_completed_commits_witness :
  reachable committed_machine /\
  forall txnId t, transactions committed_machine !! txnId = Some t ->
    txn_id t = txnId /\ txn_status t = txn_completed.
Proof.
  split; [exact committed_machine_reachable|].
  intros txnId t Ht.
  destruct (proj1 (transactions_are_completed_commits committed_machine
                     committed_machine_reachable) txnId t Ht)
    as (Hid & _ & Hstatus & _).
  split; [exact Hid | exact Hstatus].
Defined.

Lemma commit_on_committed_fails :
  call (CallCommit example_id example_clock) committed_machine =
  (Err (InvalidTransition DecisionState.COMMITTED DecisionState.COMMITTED []),
   committed_machine).
Proof. cbn [call]. by rewrite commit_run, committed_machine_lookup. Defined.

Lemma failing_call_changes_nothing_witness :
  committed_machine = committed_machine /\
  match getDecision committed_machine (call_target (CallCommit example_id example_clock)) with
  | None =>
      InvalidTransition DecisionState.COMMITTED DecisionState.COMMITTED [] =
      DecisionNotFound (call_target (CallCommit example_id example_clock))
  | Some d =>
      InvalidTransition DecisionState.COMMITTED DecisionState.COMMITTED [] =
        terminal_error (CallCommit example_id example_clock) (state d) /\
      match requested_state (CallCommit example_id example_clock) with
      | Some to => ~ In to (VALID_TRANSITIONS (state d))
      | None => state d <> DecisionState.PENDING_APPROVAL
      end
  end.
Proof.
  exact (failing_call_changes_nothing (CallCommit example_id example_clock)
           committed_machine committed_machine
           (InvalidTransition DecisionState.COMMITTED DecisionState.COMMITTED [])
           commit_on_committed_fails).
Defined.

Lemma evaluator_exception_ends_in_refused_commit_witness :
  let thrown := ThrownError "No evaluator registered for format: expression" in
  In P2 [P1; P2] /\
  isPolicyActive P2 (ctx_timestamp (example_context "2000")) = true /\
  registry_evaluate empty_registry (rule_format (policy_rule P2))
    (rule_expression (policy_rule P2)) (example_context "2000") = Err thrown /\
  match verdict_of empty_registry [P1; P2] (example_context "2000") "2001" 1%Z with
  | Ok v =>
      isOk (errorMessage_of thrown) = true /\
      verdict_result v = VerdictResult.DENY /\
      In (computeContentAddress (PolicyDefinition_toJS P2)) (blockingPolicies v) /\
      forall (sm : DecisionStateMachine) (decisionId : ContentAddress) (d : Decision)
             (at_ : Timestamp) (clock : CommitClock),
        getDecision sm decisionId = Some d ->
        state d = DecisionState.PROPOSED ->
        exists d',
          fst (evaluate decisionId v at_ sm) = Ok d' /\
          state d' = DecisionState.REJECTED /\
          canCommit d' = false /\
          fst (commit decisionId clock (snd (evaluate decisionId v at_ sm))) =
            Err (InvalidTransition DecisionState.REJECTED DecisionState.COMMITTED [])
  | Err raised =>
      (exists rejecting,
         In rejecting [P1; P2] /\
         outcome (evaluatePolicy empty_registry rejecting (example_context "2000")) =
           Err raised) /\
      forall (sm : DecisionStateMachine) (decisionId : ContentAddress) (d : Decision)
             (clock : CommitClock),
        getDecision sm decisionId = Some d ->
        state d = DecisionState.PROPOSED ->
        canCommit d = false /\
        commit decisionId clock sm =
          (Err (InvalidTransition DecisionState.PROPOSED DecisionState.COMMITTED
                  (VALID_TRANSITIONS DecisionState.PROPOSED)), sm)
  end.
Proof.
  intros thrown.
  assert (In P2 [P1; P2]) as Hin by (right; left; reflexivity).
  assert (isPolicyActive P2 (ctx_timestamp (example_context "2000")) = true) as Hactive
    by (vm_compute; reflexivity).
  assert (registry_evaluate empty_registry (rule_format (policy_rule P2))
            (rule_expression (policy_rule P2)) (example_context "2000") = Err thrown)
    as Hthrows by reflexivity.
  split; [exact Hin|]. split; [exact Hactive|]. split; [exact Hthrows|].
  exact (proj2 (evaluator_exception_ends_in_refused_commit empty_registry [P1; P2] P2
                  (example_context "2000") thrown "2001" 1%Z Hin Hactive Hthrows)).
Defined.

(** There the verdict is DENY, although P2 is an ANNOTATE policy. *)
Example missing_evaluator_gives_DENY :
  match verdict_of empty_registry [P1; P2] (example_context "2000") "2001" 1%Z with
  | Ok v => verdict_result v = VerdictResult.DENY /\ length (blockingPolicies v) = 2
  | Err _ => False
  end.
Proof. vm_compute. split; reflexivity. Qed.

Lemma queue_approved_lookup :
  requests queue_approved !! example_request_id = Some approved_request.
Proof.
  unfold queue_approved. rewrite recordDecision_run, queue_pending_lookup.
  apply lookup_insert_eq.
Defined.

Lemma resolved_request_is_final_witness :
  getRequest queue_approved example_request_id = Some approved_request /\
  is_open (request_status approved_request) = false /\
  forall cs, getRequest (queue_after_calls cs queue_approved) example_request_id
             = Some approved_request.
Proof.
  split; [exact queue_approved_lookup|]. split; [reflexivity|].
  exact (proj1 (resolved_request_is_final queue_approved example_request_id approved_request
                  queue_approved_lookup eq_refl)).
Defined.

Lemma queue_pending_keys (id : ContentAddress) :
  is_Some (requests queue_pending !! id) -> In id [example_request_id].
Proof.
  intros [r Hr]. left. unfold queue_pending, createRequest in Hr.
  change (time_after 1000 (default defaultTimeoutMs (create_timeoutMs example_request)))
    with (Some 2000%Z) in Hr.
  cbn [snd requests createApprovalQueue] in Hr.
  rewrite lookup_insert in Hr. case_decide as Hid; [exact Hid|].
  by rewrite lookup_empty in Hr.
Defined.

Lemma processTimeouts_closes_expired_requests_witness :
  List.NoDup [example_request_id] /\
  (forall id, is_Some (requests queue_pending !! id) -> In id [example_request_id]) /\
  forall id,
    getRequest (snd (processTimeouts [example_request_id] timeout_escalate "3000" queue_pending))
      id =
    after_timeout timeout_escalate "3000" <$> getRequest queue_pending id.
Proof.
  assert (List.NoDup [example_request_id]) as Hnodup.
  { constructor; [intros [] | constructor]. }
  split; [exact Hnodup|]. split; [exact queue_pending_keys|].
  exact (proj1 (processTimeouts_closes_expired_requests [example_request_id]
                  timeout_escalate "3000" queue_pending Hnodup queue_pending_keys)).
Defined.

Lemma queue_in_review_reachable : reachable_queue queue_in_review.
Proof.
  exact (reachable_queue_call _ (CallStartReview example_request_id "alice")
           (reachable_queue_create _ example_request "1000" 1000%Z reachable_queue_fresh)).
Defined.

Lemma reachable_queue_is_consistent_witness :
  reachable_queue queue_in_review /\
  getRequest queue_in_review example_request_id =
    Some (with_status pending_request ApprovalStatus.IN_REVIEW None) /\
  request_id (with_status pending_request ApprovalStatus.IN_REVIEW None) = example_request_id.
Proof.
  split; [exact queue_in_review_reachable|]. split; [exact queue_in_review_lookup|].
  exact (proj1 (reachable_queue_is_consistent queue_in_review example_request_id _
                  queue_in_review_reachable queue_in_review_lookup)).
Defined.


Lemma registered_rule_needs_higher_priority_witness :
  rules financial_resolver = rules createConflictResolver /\
  resolve (registerRule (review_contradictions 200) financial_resolver) example_conflict =
    escalate_to_human /\
  resolve (registerRule (review_contradictions 100) financial_resolver) example_conflict =
    resolve financial_resolver example_conflict.
Proof.
  split; [reflexivity|]. split.
  - exact (registered_rule_needs_higher_priority (review_contradictions 200)
             financial_resolver example_conflict eq_refl).
  - exact (registered_rule_needs_higher_priority (review_contradictions 100)
             financial_resolver example_conflict eq_refl).
Defined.

Lemma example_manager_lookup :
  records example_manager !! "escalation-1" = Some example_escalation.
Proof. apply lookup_insert_eq. Defined.

Lemma escalation_record_is_only_continued_witness :
  records example_manager !! "escalation-1" = Some example_escalation /\
  forall cs, exists record' more,
    records (manager_after_calls cs example_manager) !! "escalation-1" = Some record' /\
    history record' = (history example_escalation ++ more)%list /\
    Forall (fun event => event_type event <> event_started) more /\
    currentLevel record' = level_after (currentLevel example_escalation) more /\
    record_id record' = record_id example_escalation /\
    record_decisionId record' = record_decisionId example_escalation /\
    record_trigger record' = record_trigger example_escalation /\
    record_ruleId record' = record_ruleId example_escalation /\
    record_pathId record' = record_pathId example_escalation /\
    record_startedAt record' = record_startedAt example_escalation.
Proof.
  split; [exact example_manager_lookup|].
  exact (proj1 (escalation_record_is_only_continued example_manager "escalation-1"
                  example_escalation example_manager_lookup)).
Defined.

End Examples.
